(** * vocab-kai: spaced-repetition scheduler and multiplayer room logic

    A shallow embedding of the scheduling kernel of the vocabulary trainer
    ([applyAnswer] and its helpers), of the normalisers of imported data,
    of the practice session, of the reverse-mode distractor generator and
    room operations, and of the versus-mode turn handler and [finishGame]
    decision, together with the properties stated about them.

    Conventions of the embedding:
    - inside the scheduler a JavaScript [number] holding a count, an index
      or an id is a [Z] ([Math.trunc] is then the identity); what the
      normalisers read is a JavaScript value ([Js.Value]), and a number
      they compute is an integer or [NaN] ([Js.number]);
    - a word text that is scored is its sequence of UTF-16 code units, and
      [toLowerCase] is the platform's, an argument;
    - [T | undefined] and [T | null] are [option T];
    - a function that can [throw] returns a [Result], or the store it
      leaves together with the error;
    - reads of the wall clock and of [Math.random] are explicit arguments;
    - the database tables are lists of rows, a primary-key table is a
      [gmap]; an [INTEGER] column holds 32 bits, and an update that does
      not fit is refused. *)

From Stdlib Require Import ZArith QArith Qabs Lia.
From stdpp Require Import base list strings pretty sorting gmap.

Local Open Scope Z_scope.

(** ** Dates

    A [Date] is kept in local calendar form: the ordinal of the local day
    and the milliseconds elapsed since that day's local midnight.
    [setHours(0,0,0,0)] and [setDate(getDate() + n)] act on exactly these two
    components.  [toISOString] is an injective rendering of the instant, so
    an [ISODateString] is represented by the [Date] it renders. *)

Record Date := mkDate { day : Z; msOfDay : Z }.

Definition ISODateString := Date.

Definition toISO (d : Date) : ISODateString := d.

(** [todayStartLocal] reads the clock itself; the reading is the argument. *)
Definition todayStartLocal (clock : Date) : Date :=
  {| day := day clock; msOfDay := 0 |}.

Definition addDays (date : Date) (days : Z) : Date :=
  {| day := day date + days; msOfDay := msOfDay date |}.

Definition clampInt (n min max : Z) : Z := Z.min max (Z.max min n).

(** ** Stable sort

    [Array.prototype.sort] is stable; [leb a b] says that the comparator
    does not ask for [b] to be moved in front of [a] (its value on [(a, b)]
    is not positive). *)

Section StableSort.
Context {A : Type} (leb : A -> A -> bool).

Fixpoint insertSorted (x : A) (l : list A) : list A :=
  match l with
  | [] => [x]
  | y :: l' => if leb x y then x :: y :: l' else y :: insertSorted x l'
  end.

Definition stableSort (l : list A) : list A := foldr insertSorted [] l.
End StableSort.

(** ** Data model of the scheduler *)

Module LevelConfig.
Record t := mk {
  id : Z;
  name : string;
  promoteAfterCorrect : Z;
  intervalDays : Z
}.
End LevelConfig.

Module AppConfig.
Record t := mk {
  levels : list LevelConfig.t;
  wrongMakesImmediatelyDue : bool;
  wrongResetsStreak : bool
}.
End AppConfig.

Inductive AnswerResult := Right | Wrong.

Module WordItem.
Record t := mk {
  id : string;
  word : string;
  hint : string;
  definition : string;
  createdAt : ISODateString;
  updatedAt : ISODateString;
  levelId : Z;
  streakCorrect : Z;
  totalRight : Z;
  totalWrong : Z;
  lastReviewedAt : option ISODateString;
  dueAt : ISODateString;
  lastResult : option AnswerResult
}.

Definition with_streakCorrect (v : Z) (w : t) : t :=
  mk (id w) (word w) (hint w) (definition w) (createdAt w) (updatedAt w)
     (levelId w) v (totalRight w) (totalWrong w) (lastReviewedAt w)
     (dueAt w) (lastResult w).

Definition with_dueAt (v : ISODateString) (w : t) : t :=
  mk (id w) (word w) (hint w) (definition w) (createdAt w) (updatedAt w)
     (levelId w) (streakCorrect w) (totalRight w) (totalWrong w)
     (lastReviewedAt w) v (lastResult w).

Definition with_levelId (v : Z) (w : t) : t :=
  mk (id w) (word w) (hint w) (definition w) (createdAt w) (updatedAt w)
     v (streakCorrect w) (totalRight w) (totalWrong w) (lastReviewedAt w)
     (dueAt w) (lastResult w).
End WordItem.

Module Srs.
Import AppConfig.

Definition defaultConfig : AppConfig.t :=
  {| levels :=
       [ LevelConfig.mk 1 "Level 1" 3 1;
         LevelConfig.mk 2 "Level 2" 2 7;
         LevelConfig.mk 3 "Level 3" 1 30 ];
     wrongMakesImmediatelyDue := true;
     wrongResetsStreak := true |}.

Definition levelIds (cfg : AppConfig.t) : list Z :=
  map LevelConfig.id (levels cfg).

Definition sortedIds (cfg : AppConfig.t) : list Z :=
  stableSort Z.leb (levelIds cfg).

Definition prevSafeFirstLevelId (cfg : AppConfig.t) : Z :=
  default 1 (head (sortedIds cfg)).

Definition maxLevel (cfg : AppConfig.t) : Z :=
  match levelIds cfg with
  | [] => 1
  | i :: ids => foldl Z.max i ids
  end.

(** [config.levels.find((l) => l.id === levelId)] *)
Definition findLevel (cfg : AppConfig.t) (levelId : Z) : option LevelConfig.t :=
  List.find (fun l => LevelConfig.id l =? levelId) (levels cfg).

Definition clampToExistingLevel (levelId : Z) (cfg : AppConfig.t) : Z :=
  if bool_decide (levelId ∈ levelIds cfg) then levelId
  else
    let sorted := sortedIds cfg in
    match sorted with
    | [] => 1
    | min :: _ =>
        let max := default min (last sorted) in
        if levelId <? min then min
        else if max <? levelId then max
        else
          fst (foldl
                 (fun (acc : Z * Z) (i : Z) =>
                    let d := Z.abs (i - levelId) in
                    if d <? snd acc then (i, d) else acc)
                 (min, Z.abs (min - levelId)) sorted)
    end.

Definition nextHigherLevelId (current : Z) (cfg : AppConfig.t) : Z :=
  let sorted := sortedIds cfg in
  match List.find (fun i => current <? i) sorted with
  | Some i => i
  | None => default current (last sorted)
  end.

(** [now] is the reading of [new Date()] on entry, [today] the later
    reading made inside [todayStartLocal()]. *)
Definition applyAnswer (now today : Date) (word : WordItem.t) (right : bool)
    (config : AppConfig.t) (isCleanRun : bool) : WordItem.t :=
  let nowIso := toISO now in
  let level :=
    match findLevel config (WordItem.levelId word) with
    | Some l => Some l
    | None => head (levels config)
    end in
  let maxLevelId := maxLevel config in
  let updated :=
    WordItem.mk (WordItem.id word) (WordItem.word word) (WordItem.hint word)
      (WordItem.definition word) (WordItem.createdAt word)
      nowIso
      (WordItem.levelId word) (WordItem.streakCorrect word)
      (WordItem.totalRight word + (if right then 1 else 0))
      (WordItem.totalWrong word + (if negb right then 1 else 0))
      (Some nowIso)
      (WordItem.dueAt word)
      (Some (if right then Right else Wrong)) in
  if negb right then
    let updated :=
      if wrongResetsStreak config
      then WordItem.with_streakCorrect 0 updated else updated in
    if wrongMakesImmediatelyDue config
    then WordItem.with_dueAt nowIso updated
    else WordItem.with_dueAt (WordItem.dueAt word) updated
  else
    let nextStreak :=
      if isCleanRun then WordItem.streakCorrect word + 1
      else WordItem.streakCorrect word in
    let updated := WordItem.with_streakCorrect nextStreak updated in
    let base := todayStartLocal today in
    let interval :=
      clampInt (default 0 (LevelConfig.intervalDays <$> level)) 0 3650 in
    let updated := WordItem.with_dueAt (toISO (addDays base interval)) updated in
    let threshold :=
      clampInt (default 1 (LevelConfig.promoteAfterCorrect <$> level)) 1 99 in
    if isCleanRun && (WordItem.levelId word <? maxLevelId)
       && (threshold <=? nextStreak)
    then
      let nextLevelId := nextHigherLevelId (WordItem.levelId word) config in
      let updated := WordItem.with_levelId nextLevelId updated in
      let updated := WordItem.with_streakCorrect 0 updated in
      let promotedLevel := findLevel config nextLevelId in
      let promotedInterval :=
        clampInt
          (default interval (LevelConfig.intervalDays <$> promotedLevel))
          0 3650 in
      WordItem.with_dueAt (toISO (addDays base promotedInterval)) updated
    else updated.

(** A configuration within the bounds that [normalizeConfig] enforces. *)
Definition level_in_bounds (l : LevelConfig.t) : Prop :=
  1 <= LevelConfig.promoteAfterCorrect l <= 99 /\
  0 <= LevelConfig.intervalDays l <= 3650.

Definition config_in_bounds (cfg : AppConfig.t) : Prop :=
  Forall level_in_bounds (levels cfg).

(** [next] is the smallest configured id strictly above [current]. *)
Definition is_next_higher (cfg : AppConfig.t) (current next : Z) : Prop :=
  next ∈ levelIds cfg /\ current < next /\
  forall i, i ∈ levelIds cfg -> current < i -> next <= i.

(** A word of the given learning state, for worked examples. *)
Definition sampleWord (levelId streakCorrect : Z) (dueAt : Date) : WordItem.t :=
  WordItem.mk "w1" "ephemeral" "short-lived" "lasting a very short time"
    dueAt dueAt levelId streakCorrect 0 0 None dueAt None.

(** A run of right answers, each with its two clock readings and its
    clean-run flag. *)
Definition answerRightRepeatedly (cfg : AppConfig.t)
    (runs : list (Date * Date * bool)) (w : WordItem.t) : WordItem.t :=
  foldl (fun acc r => applyAnswer r.1.1 r.1.2 acc true cfg r.2) w runs.
End Srs.

(** ** Exceptions *)

Inductive Exn :=
| TypeError
| Error (message : string).

Inductive Result (A : Type) :=
| Ok (value : A)
| Throw (e : Exn).
Arguments Ok {A} value.
Arguments Throw {A} e.

Global Instance Result_bind : MBind Result := fun A B k r =>
  match r with
  | Ok a => k a
  | Throw e => Throw e
  end.

Fixpoint mapResult {A B : Type} (f : nat -> A -> Result B) (i : nat) (l : list A)
    : Result (list B) :=
  match l with
  | [] => Ok []
  | a :: l' =>
      b ← f i a;
      bs ← mapResult f (S i) l';
      Ok (b :: bs)
  end.

(** ** JavaScript values

    What an import file or a form can put into a field.  A number is a
    finite value, [NaN] or an infinity; the finite doubles are rationals,
    and truncation and comparison are exact on them.  An object or array
    is kept as what [Number()] and [String()] make of it.  The reading of
    a string as a number and the printing of a number are the platform's
    and come as [Coercions]. *)

Module Js.

Inductive number := Fin (q : Q) | NaN | PosInf | NegInf.

Definition int (z : Z) : number := Fin (inject_Z z).

Inductive Value :=
| Undefined
| Null
| Bool (b : bool)
| Num (n : number)
| Str (s : string)
| Obj (asNumber : number) (asString : string).

Record Coercions := {
  stringToNumber : string -> number;
  numberToString : number -> string
}.

(** [v ?? d] *)
Definition orDefault (v d : Value) : Value :=
  match v with
  | Undefined | Null => d
  | _ => v
  end.

(** [Number(v)] *)
Definition toNumber (co : Coercions) (v : Value) : number :=
  match v with
  | Undefined => NaN
  | Null => int 0
  | Bool b => int (if b then 1 else 0)
  | Num n => n
  | Str s => stringToNumber co s
  | Obj n _ => n
  end.

(** [String(v)] *)
Definition toString (co : Coercions) (v : Value) : string :=
  match v with
  | Undefined => "undefined"
  | Null => "null"
  | Bool b => if b then "true" else "false"
  | Num n => numberToString co n
  | Str s => s
  | Obj _ s => s
  end.

(** [!!v] *)
Definition truthy (v : Value) : bool :=
  match v with
  | Undefined | Null => false
  | Bool b => b
  | Num (Fin q) => negb (Qeq_bool q 0)
  | Num NaN => false
  | Num _ => true
  | Str s => negb (bool_decide (s = EmptyString))
  | Obj _ _ => true
  end.

(** [v || d] *)
Definition orElse (v d : Value) : Value := if truthy v then v else d.

(** [Math.trunc] *)
Definition trunc (n : number) : number :=
  match n with
  | Fin q => int (Qnum q ÷ Zpos (Qden q))
  | _ => n
  end.

(** [Math.max(a, b)] *)
Definition max (a b : number) : number :=
  match a, b with
  | NaN, _ | _, NaN => NaN
  | PosInf, _ | _, PosInf => PosInf
  | NegInf, x | x, NegInf => x
  | Fin p, Fin q => if Qle_bool p q then b else a
  end.

(** [Math.min(a, b)] *)
Definition min (a b : number) : number :=
  match a, b with
  | NaN, _ | _, NaN => NaN
  | NegInf, _ | _, NegInf => NegInf
  | PosInf, x | x, PosInf => x
  | Fin p, Fin q => if Qle_bool p q then a else b
  end.

(** [a < b] on numbers. *)
Definition lt (a b : number) : bool :=
  match a, b with
  | NaN, _ | _, NaN => false
  | _, NegInf | PosInf, _ => false
  | NegInf, _ | _, PosInf => true
  | Fin p, Fin q => negb (Qle_bool q p)
  end.

(** [Math.abs(i - n)] for an integer [i]. *)
Definition distance (i : Z) (n : number) : number :=
  match n with
  | Fin q => Fin (Qabs (inject_Z i - q))
  | NaN => NaN
  | _ => PosInf
  end.

(** [clampInt] at a number that need not be an integer. *)
Definition clampInt (n : number) (lo hi : Z) : number :=
  min (int hi) (max (int lo) (trunc n)).

(** The integer a number is, if it is one. *)
Definition asInt (n : number) : option Z :=
  match n with
  | Fin q =>
      if Qnum q mod Zpos (Qden q) =? 0 then Some (Qnum q / Zpos (Qden q))
      else None
  | _ => None
  end.
End Js.

(** ** Configuration normalisation

    [normalizeConfig] takes what it is given: the levels are an array or
    something else, an element of the array is an object or is [null] or
    [undefined] (reading a field of it then raises), and a field holds any
    value.  The thresholds and intervals of the result are integers or
    [NaN]. *)

Module Normalize.

Record RawLevel := mkRawLevel {
  rawId : Js.Value;
  rawName : Js.Value;
  rawPromoteAfterCorrect : Js.Value;
  rawIntervalDays : Js.Value
}.

Record RawConfig := mkRawConfig {
  rawLevels : option (list (option RawLevel));
  rawWrongMakesImmediatelyDue : Js.Value;
  rawWrongResetsStreak : Js.Value
}.

Record Level := mkLevel {
  id : Z;
  name : string;
  promoteAfterCorrect : Js.number;
  intervalDays : Js.number
}.

Record Config := mkConfig {
  levels : list Level;
  wrongMakesImmediatelyDue : bool;
  wrongResetsStreak : bool
}.

(** A level of the scheduler's configuration among the levels here. *)
Definition ofTyped (l : LevelConfig.t) : Level :=
  mkLevel (LevelConfig.id l) (LevelConfig.name l)
    (Js.int (LevelConfig.promoteAfterCorrect l))
    (Js.int (LevelConfig.intervalDays l)).

(** A level handed back as input. *)
Definition toRawLevel (l : Level) : RawLevel :=
  mkRawLevel (Js.Num (Js.int (id l))) (Js.Str (name l))
    (Js.Num (promoteAfterCorrect l)) (Js.Num (intervalDays l)).

Definition toRaw (c : Config) : RawConfig :=
  mkRawConfig (Some ((fun l => Some (toRawLevel l)) <$> levels c))
    (Js.Bool (wrongMakesImmediatelyDue c)) (Js.Bool (wrongResetsStreak c)).

(** The configuration as the scheduler reads it, when no threshold and no
    interval is [NaN]. *)
Definition typedLevel (l : Level) : option LevelConfig.t :=
  p ← Js.asInt (promoteAfterCorrect l);
  d ← Js.asInt (intervalDays l);
  Some (LevelConfig.mk (id l) (name l) p d).

Definition typed (c : Config) : option AppConfig.t :=
  ls ← mapM typedLevel (levels c);
  Some (AppConfig.mk ls (wrongMakesImmediatelyDue c) (wrongResetsStreak c)).

(** A configuration of the scheduler among the normalised ones. *)
Definition ofTypedConfig (cfg : AppConfig.t) : Config :=
  {| levels := ofTyped <$> AppConfig.levels cfg;
     wrongMakesImmediatelyDue := AppConfig.wrongMakesImmediatelyDue cfg;
     wrongResetsStreak := AppConfig.wrongResetsStreak cfg |}.

(** The callback of [levels.map]; [i] is the position in the array. *)
Definition normalizeLevel (co : Js.Coercions) (i : nat) (l : RawLevel) : Level :=
  {| id :=
       match rawId l with
       | Js.Num (Js.Fin q) => Qnum q ÷ Zpos (Qden q)
       | _ => Z.of_nat i + 1
       end;
     name :=
       Js.toString co
         (Js.orDefault (rawName l)
            (Js.Str ("Level " +:+
                     Js.numberToString co (Js.int (Z.of_nat i + 1)))));
     promoteAfterCorrect :=
       Js.clampInt
         (Js.toNumber co
            (Js.orDefault (rawPromoteAfterCorrect l) (Js.Num (Js.int 1))))
         1 99;
     intervalDays :=
       Js.clampInt
         (Js.toNumber co
            (Js.orDefault (rawIntervalDays l) (Js.Num (Js.int 0))))
         0 3650 |}.

Fixpoint normalizeLevels (co : Js.Coercions) (i : nat)
    (ls : list (option RawLevel)) : Result (list Level) :=
  match ls with
  | [] => Ok []
  | None :: _ => Throw TypeError
  | Some l :: ls' =>
      rest ← normalizeLevels co (S i) ls';
      Ok (normalizeLevel co i l :: rest)
  end.

(** The loop that keeps the first level of every id. *)
Fixpoint uniqueLevels (seen : gset Z) (ls : list Level) : list Level :=
  match ls with
  | [] => []
  | l :: ls' =>
      if bool_decide (id l ∈ seen) then uniqueLevels seen ls'
      else l :: uniqueLevels ({[ id l ]} ∪ seen) ls'
  end.

Definition defaultLevels : list Level :=
  ofTyped <$> AppConfig.levels Srs.defaultConfig.

(** A threshold that is [NaN] or within 1..99 and an interval that is
    [NaN] or within 0..3650. *)
Definition normal (l : Level) : Prop :=
  (promoteAfterCorrect l = Js.NaN \/
   exists p, promoteAfterCorrect l = Js.int p /\ 1 <= p <= 99) /\
  (intervalDays l = Js.NaN \/
   exists d, intervalDays l = Js.int d /\ 0 <= d <= 3650).

Definition normalizeConfig (co : Js.Coercions) (cfg : RawConfig) : Result Config :=
  let levels :=
    match rawLevels cfg with
    | Some ls => ls
    | None => (fun l => Some (toRawLevel l)) <$> defaultLevels
    end in
  mapped ← normalizeLevels co 0 levels;
  let normalizedLevels := stableSort (fun a b => id a <=? id b) mapped in
  let unique := uniqueLevels ∅ normalizedLevels in
  let finalLevels :=
    match unique with
    | [] => defaultLevels
    | _ => unique
    end in
  Ok {| levels := finalLevels;
        wrongMakesImmediatelyDue := Js.truthy (rawWrongMakesImmediatelyDue cfg);
        wrongResetsStreak := Js.truthy (rawWrongResetsStreak cfg) |}.
End Normalize.

(** ** Due dates and word normalisation *)

Module Schedule.
Import AppConfig.

(** [Date.prototype.getTime], in milliseconds, for days of 24 hours. *)
Definition getTime (d : Date) : Z := day d * 86400000 + msOfDay d.

Definition isDue (item : WordItem.t) (now : Date) : bool :=
  getTime (WordItem.dueAt item) <=? getTime now.

(** A word as it comes out of an import file or of the store.  The texts,
    the level, the counters and the last result hold any value; a date
    field holds a date string or is absent or empty ([None]). *)
Record RawWord := mkRaw {
  id : Js.Value;
  word : Js.Value;
  hint : Js.Value;
  definition : Js.Value;
  createdAt : option ISODateString;
  updatedAt : option ISODateString;
  levelId : Js.Value;
  streakCorrect : Js.Value;
  totalRight : Js.Value;
  totalWrong : Js.Value;
  lastReviewedAt : option ISODateString;
  dueAt : option ISODateString;
  lastResult : Js.Value
}.

(** A normalised word: its counters are integers or [NaN]. *)
Record Word := mkWord {
  w_id : string;
  w_word : string;
  w_hint : string;
  w_definition : string;
  w_createdAt : ISODateString;
  w_updatedAt : ISODateString;
  w_levelId : Z;
  w_streakCorrect : Js.number;
  w_totalRight : Js.number;
  w_totalWrong : Js.number;
  w_lastReviewedAt : option ISODateString;
  w_dueAt : ISODateString;
  w_lastResult : option AnswerResult
}.

(** The helpers below read a configuration that may hold [NaN] thresholds;
    they look at its level ids only. *)
Definition levelIds (cfg : Normalize.Config) : list Z :=
  Normalize.id <$> Normalize.levels cfg.

Definition sortedIds (cfg : Normalize.Config) : list Z :=
  stableSort Z.leb (levelIds cfg).

Definition prevSafeFirstLevelId (cfg : Normalize.Config) : Z :=
  default 1 (head (sortedIds cfg)).

(** [clampToExistingLevel] at a level that need not be a number: the set
    holds the configured ids, and the comparisons and the subtraction read
    the level with [Number()]. *)
Definition clampToExistingLevel (co : Js.Coercions) (levelId : Js.Value)
    (cfg : Normalize.Config) : Z :=
  match
    match levelId with
    | Js.Num n =>
        match Js.asInt n with
        | Some i => if bool_decide (i ∈ levelIds cfg) then Some i else None
        | None => None
        end
    | _ => None
    end
  with
  | Some i => i
  | None =>
      let sorted := sortedIds cfg in
      match sorted with
      | [] => 1
      | min :: _ =>
          let max := default min (last sorted) in
          let n := Js.toNumber co levelId in
          if Js.lt n (Js.int min) then min
          else if Js.lt (Js.int max) n then max
          else
            fst (foldl
                   (fun (acc : Z * Js.number) (i : Z) =>
                      let d := Js.distance i n in
                      if Js.lt d (snd acc) then (i, d) else acc)
                   (min, Js.distance min n) sorted)
      end
  end.

(** [now] is the clock reading, [uuid] the identifier [uuid()] draws and
    [trim] the platform's [String.prototype.trim]. *)
Definition normalizeWord (co : Js.Coercions) (now : Date) (uuid : string)
    (trim : string -> string) (w : RawWord) (cfg : Normalize.Config) : Word :=
  let nowIso := toISO now in
  let firstLevelId := prevSafeFirstLevelId cfg in
  let levelId :=
    clampToExistingLevel co
      (Js.orDefault (levelId w) (Js.Num (Js.int firstLevelId))) cfg in
  let dueAt := default nowIso (dueAt w) in
  mkWord
    (Js.toString co (Js.orElse (id w) (Js.Str uuid)))
    (trim (Js.toString co (Js.orElse (word w) (Js.Str ""))))
    (trim (Js.toString co (Js.orElse (hint w) (Js.Str ""))))
    (trim (Js.toString co (Js.orElse (definition w) (Js.Str ""))))
    (default nowIso (createdAt w))
    (default nowIso (updatedAt w))
    levelId
    (Js.clampInt
       (Js.toNumber co (Js.orDefault (streakCorrect w) (Js.Num (Js.int 0))))
       0 9999)
    (Js.clampInt
       (Js.toNumber co (Js.orDefault (totalRight w) (Js.Num (Js.int 0))))
       0 999999)
    (Js.clampInt
       (Js.toNumber co (Js.orDefault (totalWrong w) (Js.Num (Js.int 0))))
       0 999999)
    (lastReviewedAt w)
    dueAt
    (match lastResult w with
     | Js.Str r =>
         if bool_decide (r = "right") then Some Right
         else if bool_decide (r = "wrong") then Some Wrong
         else None
     | _ => None
     end).

(** A word of the scheduler among the normalised words. *)
Definition ofTyped (w : WordItem.t) : Word :=
  mkWord (WordItem.id w) (WordItem.word w) (WordItem.hint w)
    (WordItem.definition w) (WordItem.createdAt w) (WordItem.updatedAt w)
    (WordItem.levelId w) (Js.int (WordItem.streakCorrect w))
    (Js.int (WordItem.totalRight w)) (Js.int (WordItem.totalWrong w))
    (WordItem.lastReviewedAt w) (WordItem.dueAt w) (WordItem.lastResult w).

(** A stored word read back as raw input. *)
Definition toRaw (w : WordItem.t) : RawWord :=
  mkRaw (Js.Str (WordItem.id w)) (Js.Str (WordItem.word w))
    (Js.Str (WordItem.hint w)) (Js.Str (WordItem.definition w))
    (Some (WordItem.createdAt w)) (Some (WordItem.updatedAt w))
    (Js.Num (Js.int (WordItem.levelId w)))
    (Js.Num (Js.int (WordItem.streakCorrect w)))
    (Js.Num (Js.int (WordItem.totalRight w)))
    (Js.Num (Js.int (WordItem.totalWrong w)))
    (WordItem.lastReviewedAt w)
    (Some (WordItem.dueAt w))
    (match WordItem.lastResult w with
     | Some Right => Js.Str "right"
     | Some Wrong => Js.Str "wrong"
     | None => Js.Undefined
     end).
End Schedule.

(** ** The platform's coercions on the values of the examples

    [Number(s)] and [String(n)] are the platform's and stay parameters of
    the model.  The examples need them on a few values only: [Number] on
    the empty string, on strings of at most fifteen decimal digits and on
    strings that hold a character no numeric literal has; [String] on the
    integers, on [NaN] and on the infinities.  [coercions] gives the
    platform's answers on these; no example reads it elsewhere. *)

Module Platform.

Definition digit (a : Ascii.ascii) : option Z :=
  let n := Z.of_N (Ascii.N_of_ascii a) in
  if (48 <=? n) && (n <=? 57) then Some (n - 48) else None.

Fixpoint readDigits (acc : Z) (s : string) : option Z :=
  match s with
  | EmptyString => Some acc
  | String a s' => d ← digit a; readDigits (10 * acc + d) s'
  end.

Definition stringToNumber (s : string) : Js.number :=
  match readDigits 0 s with
  | Some z => Js.int z
  | None => Js.NaN
  end.

Definition numberToString (n : Js.number) : string :=
  match n with
  | Js.Fin q => pretty (Qnum q ÷ Zpos (Qden q))
  | Js.NaN => "NaN"
  | Js.PosInf => "Infinity"
  | Js.NegInf => "-Infinity"
  end.

Definition coercions : Js.Coercions :=
  {| Js.stringToNumber := stringToNumber;
     Js.numberToString := numberToString |}.
End Platform.

(** ** Word selection and distractor generation (reverse mode)

    A word's text is a JavaScript string: a sequence of 16-bit code units,
    whose number is its [length].  [String.prototype.toLowerCase] is the
    platform's; the functions that use it take it as [toLowerCase]. *)

Module WordSelection.

Definition text := list N.

(** [hay.includes(needle)]. *)
Fixpoint includes (hay needle : text) : bool :=
  bool_decide (needle `prefix_of` hay) ||
  match hay with
  | [] => false
  | _ :: hay' => includes hay' needle
  end.

(** [s.substring(i, i + n)] for [i] within the string. *)
Definition substring (i n : nat) (s : text) : text := take n (drop i s).

(** The environment's random choices: [draws i] is what the [i]-th
    [score += Math.random() * 2] adds to the score, and [shuffled] the
    order in which a sort driven by a random comparator leaves an array. *)
Record RandomSource := {
  draws : nat -> Q;
  shuffled : forall A : Type, list A -> list A
}.

Record WordRef := mkWord {
  id : string;
  word : text;
  hint : string;
  definition : string;
  imageUrl : option string
}.

Record WordOption := mkOption { optId : string; optWord : text }.

Record Question := mkQuestion {
  wordId : string;
  qWord : text;
  qDefinition : string;
  options : list WordOption
}.

(** The integer part of the score; [None] where the source dereferences
    [undefined]. *)
Definition scoreBase (toLowerCase : text -> text) (candidate correct : text)
    : option Z :=
  let lengthDiff :=
    Z.abs (Z.of_nat (length candidate) - Z.of_nat (length correct)) in
  let s1 := if lengthDiff <=? 2 then 3 else 0 in
  match head candidate, head correct with
  | Some c0, Some k0 =>
      let s2 :=
        if bool_decide (toLowerCase [c0] = toLowerCase [k0]) then 2 else 0 in
      let s3 :=
        Z.of_nat
          (length
             (filter
                (fun i : nat =>
                   includes (toLowerCase candidate)
                     (toLowerCase (substring i 3 correct)) = true)
                (seq 0 (length correct - 2)))) in
      let s4 := if (length candidate <=? 3)%nat then -1 else 0 in
      Some (s1 + s2 + s3 + s4)
  | _, _ => None
  end.

(** [random] is what [score += Math.random() * 2] adds in this call. *)
Definition scoreWord (toLowerCase : text -> text) (candidate correct : text)
    (random : Q) : Result Q :=
  match scoreBase toLowerCase candidate correct with
  | Some s => Ok (inject_Z s + random)%Q
  | None => Throw TypeError
  end.

Definition generateWrongAnswers (toLowerCase : text -> text)
    (rnd : RandomSource) (correctWord : WordRef) (allWords : list WordRef)
    (count : nat) : Result (list WordOption) :=
  let candidateWords :=
    filter (fun w => id w <> id correctWord) allWords in
  if (length candidateWords <? count)%nat then
    Throw (Error "Not enough words to generate wrong answers")
  else
    scoredCandidates ←
      mapResult
        (fun i w =>
           s ← scoreWord toLowerCase (word w) (word correctWord) (draws rnd i);
           Ok (w, s))
        0%nat candidateWords;
    let sorted :=
      stableSort (fun a b => Qle_bool (snd b) (snd a)) scoredCandidates in
    Ok (map (fun sc => mkOption (id (fst sc)) (word (fst sc)))
            (take count sorted)).

(** [correctWord] is [undefined] when the caller indexed past the end of
    its array; reading [correctWord.id] then raises. *)
Definition generateQuestion (toLowerCase : text -> text) (rnd : RandomSource)
    (correctWord : option WordRef) (allWords : list WordRef) : Result Question :=
  match correctWord with
  | None => Throw TypeError
  | Some cw =>
      wrongAnswers ← generateWrongAnswers toLowerCase rnd cw allWords 2;
      let opts :=
        shuffled rnd _ (mkOption (id cw) (word cw) :: wrongAnswers) in
      Ok (mkQuestion (id cw) (word cw) (definition cw) opts)
  end.

Definition selectRandomWords {T : Type} (rnd : RandomSource) (words : list T)
    (count : nat) : Result (list T) :=
  if (length words <? count)%nat then Throw (Error "Not enough words")
  else Ok (take count (shuffled rnd _ words)).
End WordSelection.

(** ** Reverse mode: room store and operations

    The three tables of the reverse mode.  [answers] carries the constraint
    [UNIQUE(room_id, question_index, user_id)]: an insert that would break it
    is refused with error code 23505. *)

Module Reverse.
Import WordSelection.

Inductive ReverseRoomStatus := waiting | active | question | results | finished.

Record RoomRow := mkRoom {
  room_code : string;
  host_id : string;
  status : ReverseRoomStatus;
  total_questions : Z;
  current_question_index : Z;
  current_question : option Question;
  game_words : list WordRef;
  question_start_time : option Date;
  question_duration_ms : Z;
  updated_at : Date
}.

Record PlayerRow := mkPlayer {
  p_room_id : string;
  p_user_id : string;
  player_name : string;
  join_order : Z;
  total_score : Z;
  is_connected : bool
}.

Record AnswerRow := mkAnswer {
  a_room_id : string;
  question_index : Z;
  a_user_id : string;
  selected_word_id : string;
  is_correct : bool;
  was_only_correct : bool;
  points_earned : Z;
  answer_time_ms : Z
}.

Record Db := mkDb {
  rooms : gmap string RoomRow;
  players : list PlayerRow;
  answers : list AnswerRow
}.

(** The client's view of a room: its row and its players by join order. *)
Record ReverseRoom := mkReverseRoom {
  row : RoomRow;
  roomPlayers : list PlayerRow
}.

Definition getReverseRoom (db : Db) (roomId : string) : option ReverseRoom :=
  r ← rooms db !! roomId;
  Some (mkReverseRoom r
          (stableSort (fun a b => join_order a <=? join_order b)
             (filter (fun p => p_room_id p = roomId) (players db)))).

Definition setRooms (f : RoomRow -> RoomRow) (roomId : string) (db : Db) : Db :=
  mkDb (alter f roomId (rooms db)) (players db) (answers db).

Definition startReverseGame (now : Date) (db : Db) (roomId : string)
    (gameWords : list WordRef) : Db :=
  setRooms
    (fun r =>
       mkRoom (room_code r) (host_id r) active (total_questions r) 0
         (current_question r) gameWords (question_start_time r)
         (question_duration_ms r) now)
    roomId db.

(** The partial update accepted by [updateReverseRoom]; [None] is an
    absent ([undefined]) field. *)
Record RoomUpdates := mkUpdates {
  u_status : option ReverseRoomStatus;
  u_currentQuestionIndex : option Z;
  u_currentQuestion : option (option Question);
  u_questionStartTime : option (option Date)
}.

Definition updateReverseRoom (now : Date) (db : Db) (roomId : string)
    (updates : RoomUpdates) : Db :=
  setRooms
    (fun r =>
       mkRoom (room_code r) (host_id r)
         (default (status r) (u_status updates))
         (total_questions r)
         (default (current_question_index r) (u_currentQuestionIndex updates))
         (default (current_question r) (u_currentQuestion updates))
         (game_words r)
         (default (question_start_time r) (u_questionStartTime updates))
         (question_duration_ms r) now)
    roomId db.

Definition finalizeGame (now : Date) (db : Db) (roomId : string) : Db :=
  updateReverseRoom now db roomId (mkUpdates (Some finished) None None None).

(** [gameWords[i]] for a JavaScript index. *)
Definition nthWord (ws : list WordRef) (i : Z) : option WordRef :=
  if i <? 0 then None else ws !! Z.to_nat i.

Definition advanceToNextQuestion (toLowerCase : text -> text)
    (rnd : RandomSource) (now : Date) (db : Db) (roomId : string)
    (allWords : list WordRef) : Result Db :=
  match getReverseRoom db roomId with
  | None => Throw (Error "Room not found")
  | Some room =>
      let nextIndex := current_question_index (row room) + 1 in
      if total_questions (row room) <=? nextIndex then
        Ok (finalizeGame now db roomId)
      else
        let nextWord := nthWord (game_words (row room)) nextIndex in
        q ← generateQuestion toLowerCase rnd nextWord allWords;
        Ok (updateReverseRoom now db roomId
              (mkUpdates (Some question) (Some nextIndex) (Some (Some q))
                 (Some (Some now))))
  end.

Definition sameKey (roomId : string) (questionIndex : Z) (userId : string)
    (a : AnswerRow) : Prop :=
  a_room_id a = roomId /\ question_index a = questionIndex /\ a_user_id a = userId.

Global Instance sameKey_dec roomId questionIndex userId a :
  Decision (sameKey roomId questionIndex userId a).
Proof. unfold sameKey. apply _. Defined.

(** [INSERT] into [answers]: [None] is the unique-violation error 23505. *)
Definition insertAnswer (db : Db) (a : AnswerRow) : option Db :=
  if bool_decide
       (Exists (sameKey (a_room_id a) (question_index a) (a_user_id a))
          (answers db))
  then None
  else Some (mkDb (rooms db) (players db) (answers db ++ [a])).

(** The row update of the stored procedure [increment_reverse_score]. *)
Definition bumpRow (roomId userId : string) (points : Z) (p : PlayerRow)
    : PlayerRow :=
  if bool_decide (p_room_id p = roomId /\ p_user_id p = userId)
  then mkPlayer (p_room_id p) (p_user_id p) (player_name p) (join_order p)
         (total_score p + points) (is_connected p)
  else p.

Definition increment_reverse_score (db : Db) (roomId userId : string)
    (points : Z) : Db :=
  mkDb (rooms db) (bumpRow roomId userId points <$> players db) (answers db).

Definition submitAnswer (db : Db) (roomId : string) (questionIndex : Z)
    (userId selectedWordId : string) (answerTimeMs : Z) : Result Db :=
  match getReverseRoom db roomId ≫= (fun room => current_question (row room)) with
  | None => Throw (Error "No active question")
  | Some currentQuestion =>
      let isCorrect := bool_decide (selectedWordId = wordId currentQuestion) in
      let pointsEarned := if isCorrect then 1 else 0 in
      match insertAnswer db
              (mkAnswer roomId questionIndex userId selectedWordId isCorrect
                 false pointsEarned answerTimeMs) with
      | None => Ok db
      | Some db' =>
          if isCorrect then Ok (increment_reverse_score db' roomId userId 1)
          else Ok db'
      end
  end.

Definition questionAnswers (db : Db) (roomId : string) (questionIndex : Z)
    : list AnswerRow :=
  filter (fun a => a_room_id a = roomId /\ question_index a = questionIndex)
    (answers db).

(** The row update that records the bonus on the answer of [userId]. *)
Definition markRow (roomId : string) (questionIndex : Z) (userId : string)
    (a : AnswerRow) : AnswerRow :=
  if bool_decide (sameKey roomId questionIndex userId a)
  then mkAnswer (a_room_id a) (question_index a) (a_user_id a)
         (selected_word_id a) (is_correct a) true 2 (answer_time_ms a)
  else a.

Definition markOnlyCorrect (db : Db) (roomId : string) (questionIndex : Z)
    (userId : string) : Db :=
  mkDb (rooms db) (players db)
    (markRow roomId questionIndex userId <$> answers db).

Definition checkAllAnswersAndCalculateBonus (now : Date) (db : Db)
    (roomId : string) (questionIndex : Z) : Db * bool :=
  match getReverseRoom db roomId with
  | None => (db, false)
  | Some room =>
      let answers := questionAnswers db roomId questionIndex in
      if (length answers <? length (roomPlayers room))%nat then (db, false)
      else
        let correctAnswers := filter (fun a => is_correct a = true) answers in
        let db1 :=
          match correctAnswers with
          | [a] =>
              let bonusUserId := a_user_id a in
              increment_reverse_score
                (markOnlyCorrect db roomId questionIndex bonusUserId)
                roomId bonusUserId 1
          | _ => db
          end in
        (updateReverseRoom now db1 roomId (mkUpdates (Some results) None None None),
         true)
  end.

(** The host's Start button.  [allWords] is the word pool fetched from the
    store; an exception raised on the way is caught and only reported. *)
Definition handleStartGame (toLowerCase : text -> text) (rnd : RandomSource)
    (now : Date) (db : Db) (roomId currentUserId : string)
    (allWords : list WordRef) : Db :=
  match getReverseRoom db roomId with
  | None => db
  | Some room =>
      if bool_decide (host_id (row room) <> currentUserId) then db
      else if (length allWords <? 13)%nat then db
      else
        match selectRandomWords rnd allWords 10 with
        | Throw _ => db
        | Ok selectedWords =>
            let gameWords :=
              map (fun w => mkWord (id w) (word w) (hint w) (definition w)
                              (imageUrl w)) selectedWords in
            let db1 := startReverseGame now db roomId gameWords in
            match advanceToNextQuestion toLowerCase rnd now db1 roomId allWords with
            | Ok db2 => db2
            | Throw _ => db1
            end
        end
  end.

Definition playerScore (db : Db) (roomId userId : string) : list Z :=
  map total_score
    (filter (fun p => p_room_id p = roomId /\ p_user_id p = userId) (players db)).
End Reverse.

(** ** Versus mode: the end-of-list decision *)

Module Versus.

Inductive VersusRoomStatus := waiting | active | finished.

Record VersusWord := mkWord {
  id : string;
  word : string;
  hint : string;
  definition : string
}.

Record VersusRoom := mkRoom {
  roomId : string;
  roomCode : string;
  playerAId : string;
  playerBId : option string;
  status : VersusRoomStatus;
  currentTurn : option string;
  playerAWords : list VersusWord;
  playerBWords : list VersusWord;
  playerAIndex : Z;
  playerBIndex : Z;
  playerAWrongCount : Z;
  playerBWrongCount : Z;
  playerARightCount : Z;
  playerBRightCount : Z;
  playerATime : Z;
  playerBTime : Z;
  turnStartTime : option Date;
  winnerId : option string;
  updatedAt : Date
}.

(** The fields of [updateVersusRoom]'s partial update that [finishGame]
    sets; an absent field is [None]. *)
Record Updates := mkUpdates {
  u_status : option VersusRoomStatus;
  u_winnerId : option (option string);
  u_currentTurn : option (option string);
  u_turnStartTime : option (option Date)
}.

Definition updateVersusRoom (now : Date) (room : VersusRoom) (u : Updates)
    : VersusRoom :=
  mkRoom (roomId room) (roomCode room) (playerAId room) (playerBId room)
    (default (status room) (u_status u))
    (default (currentTurn room) (u_currentTurn u))
    (playerAWords room) (playerBWords room)
    (playerAIndex room) (playerBIndex room)
    (playerAWrongCount room) (playerBWrongCount room)
    (playerARightCount room) (playerBRightCount room)
    (playerATime room) (playerBTime room)
    (default (turnStartTime room) (u_turnStartTime u))
    (default (winnerId room) (u_winnerId u))
    now.

(** [finishGame] returns the update it sends with [updateVersusRoom];
    [None] when it sends none.  [room.playerBId!] is the stored value of
    [playerBId], whatever it is. *)
Definition finishGame (now : Date) (room : option VersusRoom)
    (playerAFinished : bool) : option Updates :=
  match room with
  | None => None
  | Some room =>
      let otherPlayerIndex :=
        if playerAFinished then playerBIndex room else playerAIndex room in
      let otherPlayerTotal :=
        Z.of_nat (length (if playerAFinished then playerBWords room
                          else playerAWords room)) in
      if otherPlayerTotal <=? otherPlayerIndex then
        let playerAScore := playerARightCount room in
        let playerBScore := playerBRightCount room in
        let winner :=
          if playerBScore <? playerAScore then Some (playerAId room)
          else if playerAScore <? playerBScore then playerBId room
          else if playerATime room <? playerBTime room
               then Some (playerAId room) else playerBId room in
        Some (mkUpdates (Some finished) (Some winner) (Some None) None)
      else
        let currentWrongCount :=
          if playerAFinished then playerAWrongCount room
          else playerBWrongCount room in
        if currentWrongCount =? 0 then
          let nextTurn :=
            if playerAFinished then playerBId room else Some (playerAId room) in
          Some (mkUpdates None None (Some nextTurn) (Some (Some now)))
        else
          let playerAScore := playerARightCount room in
          let playerBScore := playerBRightCount room in
          let winner :=
            if playerBScore <? playerAScore then Some (playerAId room)
            else if playerAScore <? playerBScore then playerBId room
            else if playerAFinished then Some (playerAId room)
                 else playerBId room in
          Some (mkUpdates (Some finished) (Some winner) (Some None) None)
  end.

Definition withTimes (timeA timeB : Z) (room : VersusRoom) : VersusRoom :=
  mkRoom (roomId room) (roomCode room) (playerAId room) (playerBId room)
    (status room) (currentTurn room) (playerAWords room) (playerBWords room)
    (playerAIndex room) (playerBIndex room)
    (playerAWrongCount room) (playerBWrongCount room)
    (playerARightCount room) (playerBRightCount room)
    timeA timeB (turnStartTime room) (winnerId room) (updatedAt room).

(** Whether the side opposite to the one that just finished has used up
    its word list. *)
Definition otherExhausted (room : VersusRoom) (playerAFinished : bool) : Prop :=
  if playerAFinished
  then Z.of_nat (length (playerBWords room)) <= playerBIndex room
  else Z.of_nat (length (playerAWords room)) <= playerAIndex room.

Definition finisherWrongCount (room : VersusRoom) (playerAFinished : bool) : Z :=
  if playerAFinished then playerAWrongCount room else playerBWrongCount room.

Definition opponentId (room : VersusRoom) (playerAFinished : bool)
    : option string :=
  if playerAFinished then playerBId room else Some (playerAId room).

(** The room after [finishGame]'s update, if any, has been stored. *)
Definition afterFinishGame (now : Date) (room : VersusRoom)
    (playerAFinished : bool) : VersusRoom :=
  match finishGame now (Some room) playerAFinished with
  | Some u => updateVersusRoom now room u
  | None => room
  end.
End Versus.

(** ** Reverse mode: what the store is expected to satisfy, and the final
    statistics *)

Module ReverseStats.
Import WordSelection Reverse.

(** The key of the constraint [UNIQUE(room_id, question_index, user_id)]. *)
Definition answerKey (a : AnswerRow) : string * Z * string :=
  (a_room_id a, question_index a, a_user_id a).

Definition uniqueAnswers (db : Db) : Prop := NoDup (answerKey <$> answers db).

(** The points a user's answer rows of a room add up to. *)
Definition earned (db : Db) (roomId userId : string) : Z :=
  foldr Z.add 0
    (points_earned <$>
       filter (fun a => a_room_id a = roomId /\ a_user_id a = userId) (answers db)).

(** Every seat's score is what its answer rows add up to. *)
Definition scoresMatch (db : Db) : Prop :=
  forall p, p ∈ players db -> total_score p = earned db (p_room_id p) (p_user_id p).

Record PlayerStats := mkStats {
  userId : string;
  playerName : string;
  totalScore : Z;
  correctAnswers : Z;
  wrongAnswers : Z;
  bonusPoints : Z;
  averageAnswerTimeMs : Z;
  fastestAnswerMs : Z;
  slowestAnswerMs : Z
}.

(** [Math.round(sum / n)] for an integer sum and a positive count: the
    nearest integer of the quotient, a half rounding up. *)
Definition roundedMean (sum n : Z) : Z := (2 * sum + n) / (2 * n).

Definition minOf (l : list Z) : Z :=
  match l with [] => 0 | t :: ts => foldl Z.min t ts end.

Definition maxOf (l : list Z) : Z :=
  match l with [] => 0 | t :: ts => foldl Z.max t ts end.

Definition statsOf (roomAnswers : list AnswerRow) (player : PlayerRow)
    : PlayerStats :=
  let playerAnswers :=
    filter (fun a => a_user_id a = p_user_id player) roomAnswers in
  let correctCount :=
    Z.of_nat (length (filter (fun a => is_correct a = true) playerAnswers)) in
  let wrongCount := Z.of_nat (length playerAnswers) - correctCount in
  let bonusCount :=
    Z.of_nat (length (filter (fun a => was_only_correct a = true) playerAnswers)) in
  let answerTimes := answer_time_ms <$> playerAnswers in
  let avgTime :=
    match answerTimes with
    | [] => 0
    | _ => roundedMean (foldl Z.add 0 answerTimes) (Z.of_nat (length answerTimes))
    end in
  mkStats (p_user_id player) (player_name player) (total_score player)
    correctCount wrongCount bonusCount avgTime
    (minOf answerTimes) (maxOf answerTimes).

(** Every stored row has its answer time, so the filter on missing times
    keeps all rows. *)
Definition getPlayerStats (db : Db) (roomId : string) : list PlayerStats :=
  let roomAnswers := filter (fun a => a_room_id a = roomId) (answers db) in
  match getReverseRoom db roomId with
  | None => []
  | Some room =>
      stableSort (fun a b => totalScore b <=? totalScore a)
        (statsOf roomAnswers <$> roomPlayers room)
  end.
End ReverseStats.

(** ** Versus mode: picking the words of a match *)

Module Picking.
Import WordSelection.

(** The option shown for a word: its id and its text. *)
Definition toOption (w : WordRef) : WordOption := mkOption (id w) (word w).

(** A sort driven by a random comparator reorders an array, whatever the
    order it leaves: it neither drops nor repeats an element. *)
Definition permutes (rnd : RandomSource) : Prop :=
  forall (A : Type) (l : list A), shuffled rnd A l ≡ₚ l.

Definition attempted (w : WordItem.t) : Prop :=
  is_Some (WordItem.lastReviewedAt w) \/ 0 < WordItem.totalRight w
  \/ 0 < WordItem.totalWrong w.

Definition unattempted (w : WordItem.t) : Prop :=
  WordItem.lastReviewedAt w = None /\ WordItem.totalRight w = 0
  /\ WordItem.totalWrong w = 0.

Global Instance attempted_dec w : Decision (attempted w).
Proof. unfold attempted. apply _. Defined.

Global Instance unattempted_dec w : Decision (unattempted w).
Proof. unfold unattempted. apply _. Defined.

(** [selectWords] of [initializeGame]: the three sorts with a random
    comparator are the three calls of [shuffled]. *)
Definition selectWords (rnd : RandomSource) (allWords : list WordItem.t)
    (count : nat) : list WordItem.t :=
  let attempted := filter attempted allWords in
  let unattempted := filter unattempted allWords in
  let shuffledAttempted := shuffled rnd _ attempted in
  let shuffledUnattempted := shuffled rnd _ unattempted in
  let selected :=
    take count shuffledAttempted
    ++ take (count - length shuffledAttempted) shuffledUnattempted in
  take count (shuffled rnd _ selected).
End Picking.

(** ** Creating and joining rooms (the stored procedures)

    [users] is the table [vocab_users], id to name.  The codes that
    [generate_room_code()] returns and the ids that [gen_random_uuid()]
    returns are given as sequences: attempt [k] of a creation takes the
    [k]-th of each.  An [INSERT] that a constraint of the table refuses
    raises the condition of that name; a procedure that raises leaves the
    tables as they were. *)

Module Lobby.
Import Versus.

Global Instance Exn_eq_dec : EqDecision Exn.
Proof. solve_decision. Defined.

Global Instance VersusRoomStatus_eq_dec : EqDecision VersusRoomStatus.
Proof. solve_decision. Defined.

Global Instance ReverseRoomStatus_eq_dec : EqDecision Reverse.ReverseRoomStatus.
Proof. solve_decision. Defined.

Definition unique_violation : Exn := Error "unique_violation".
Definition check_violation : Exn := Error "check_violation".
Definition foreign_key_violation : Exn := Error "foreign_key_violation".

Definition giveUp : Exn :=
  Error "Could not generate unique room code after 10 attempts".

(** *** Versus rooms *)

(** The row [INSERT INTO vocab_versus_rooms (room_code, player_a_id, status)]
    stores, every other column at its default. *)
Definition newVersusRoom (rid code creator : string) (now : Date) : VersusRoom :=
  mkRoom rid code creator None waiting None [] [] 0 0 0 0 0 0 0 0 None None now.

(** The primary key or [UNIQUE] on [room_code] refuses the row. *)
Definition clashes (table : list VersusRoom) (rid code : string) : Prop :=
  Exists (fun r => roomId r = rid \/ roomCode r = code) table.

Definition insertVersusRoom (users : gmap string string)
    (table : list VersusRoom) (rid code creator : string) (now : Date)
    : Result (list VersusRoom) :=
  if bool_decide (clashes table rid code) then Throw unique_violation
  else if bool_decide (is_Some (users !! creator))
  then Ok (table ++ [newVersusRoom rid code creator now])
  else Throw foreign_key_violation.

(** The [LOOP] of [create_versus_room]; [remaining] is [max_attempts]
    less the attempts made, [attempt] their number. *)
Fixpoint createVersusLoop (users : gmap string string) (table : list VersusRoom)
    (creator : string) (codes ids : nat -> string) (now : Date)
    (remaining attempt : nat) : Result (string * string * list VersusRoom) :=
  match remaining with
  | O => Throw giveUp
  | S remaining' =>
      let new_code := codes attempt in
      let new_room_id := ids attempt in
      match insertVersusRoom users table new_room_id new_code creator now with
      | Ok table' => Ok (new_code, new_room_id, table')
      | Throw e =>
          if bool_decide (e = unique_violation)
          then createVersusLoop users table creator codes ids now remaining'
                 (S attempt)
          else Throw e
      end
  end.

Definition create_versus_room (users : gmap string string)
    (table : list VersusRoom) (creator : string) (codes ids : nat -> string)
    (now : Date) : Result (string * string * list VersusRoom) :=
  createVersusLoop users table creator codes ids now 10 0.

Definition seatB (user : string) (now : Date) (r : VersusRoom) : VersusRoom :=
  mkRoom (roomId r) (roomCode r) (playerAId r) (Some user) (status r)
    (currentTurn r) (playerAWords r) (playerBWords r) (playerAIndex r)
    (playerBIndex r) (playerAWrongCount r) (playerBWrongCount r)
    (playerARightCount r) (playerBRightCount r) (playerATime r) (playerBTime r)
    (turnStartTime r) (winnerId r) now.

(** [join_versus_room] as migration 003 replaces it. *)
Definition join_versus_room (users : gmap string string)
    (table : list VersusRoom) (p_room_code p_user_id : string) (now : Date)
    : Result (string * list VersusRoom) :=
  match List.find (fun r => bool_decide (roomCode r = p_room_code)) table with
  | None => Throw (Error "Room not found")
  | Some room =>
      if bool_decide (playerAId room = p_user_id \/ playerBId room = Some p_user_id)
      then Ok (roomId room, table)
      else if bool_decide (status room <> waiting)
      then Throw (Error "Room is not available")
      else if bool_decide (playerBId room <> None)
      then Throw (Error "Room is full")
      else if bool_decide (is_Some (users !! p_user_id)) then
        Ok (roomId room,
            (fun r => if bool_decide (roomId r = roomId room)
                      then seatB p_user_id now r else r) <$> table)
      else Throw foreign_key_violation
  end.

(** *** Reverse rooms

    The seats are the rows of [vocab_reverse_players], as far as
    [Reverse.PlayerRow] has their columns. *)

Definition roomByCode (db : Reverse.Db) (code : string)
    : option (string * Reverse.RoomRow) :=
  head (filter (fun kv => Reverse.room_code kv.2 = code)
          (map_to_list (Reverse.rooms db))).

Definition seatsOf (db : Reverse.Db) (roomId : string) : list Reverse.PlayerRow :=
  filter (fun p => Reverse.p_room_id p = roomId) (Reverse.players db).

(** [COALESCE(MAX(join_order), 0)]. *)
Definition maxJoinOrder (seats : list Reverse.PlayerRow) : Z :=
  match Reverse.join_order <$> seats with
  | [] => 0
  | o :: os => foldl Z.max o os
  end.

Definition newReverseRoom (code host : string) (now : Date) : Reverse.RoomRow :=
  Reverse.mkRoom code host Reverse.waiting 10 0 None [] None 15000 now.

Definition insertReverseRoom (users : gmap string string) (db : Reverse.Db)
    (rid code host : string) (now : Date) : Result Reverse.Db :=
  if bool_decide (is_Some (Reverse.rooms db !! rid) \/
                  is_Some (roomByCode db code))
  then Throw unique_violation
  else if bool_decide (is_Some (users !! host))
  then Ok (Reverse.mkDb (<[rid := newReverseRoom code host now]> (Reverse.rooms db))
             (Reverse.players db) (Reverse.answers db))
  else Throw foreign_key_violation.

Definition insertSeat (users : gmap string string) (db : Reverse.Db)
    (p : Reverse.PlayerRow) : Result Reverse.Db :=
  if bool_decide (~ (1 <= Reverse.join_order p <= 5))
  then Throw check_violation
  else if bool_decide (Exists (fun q => Reverse.p_room_id q = Reverse.p_room_id p /\
                                        Reverse.p_user_id q = Reverse.p_user_id p)
                         (Reverse.players db))
  then Throw unique_violation
  else if bool_decide (is_Some (Reverse.rooms db !! Reverse.p_room_id p) /\
                       is_Some (users !! Reverse.p_user_id p))
  then Ok (Reverse.mkDb (Reverse.rooms db) (Reverse.players db ++ [p])
             (Reverse.answers db))
  else Throw foreign_key_violation.

Fixpoint createReverseLoop (users : gmap string string) (db : Reverse.Db)
    (creator v_user_name : string) (codes ids : nat -> string) (now : Date)
    (remaining attempt : nat) : Result (string * string * Reverse.Db) :=
  match remaining with
  | O => Throw giveUp
  | S remaining' =>
      let new_code := codes attempt in
      let new_room_id := ids attempt in
      match
        db1 ← insertReverseRoom users db new_room_id new_code creator now;
        insertSeat users db1
          (Reverse.mkPlayer new_room_id creator v_user_name 1 0 true)
      with
      | Ok db' => Ok (new_code, new_room_id, db')
      | Throw e =>
          if bool_decide (e = unique_violation)
          then createReverseLoop users db creator v_user_name codes ids now
                 remaining' (S attempt)
          else Throw e
      end
  end.

Definition create_reverse_room (users : gmap string string) (db : Reverse.Db)
    (creator : string) (codes ids : nat -> string) (now : Date)
    : Result (string * string * Reverse.Db) :=
  match users !! creator with
  | None => Throw (Error "User not found")
  | Some v_user_name =>
      createReverseLoop users db creator v_user_name codes ids now 10 0
  end.

Definition reconnect (roomId user : string) (p : Reverse.PlayerRow)
    : Reverse.PlayerRow :=
  if bool_decide (Reverse.p_room_id p = roomId /\ Reverse.p_user_id p = user)
  then Reverse.mkPlayer (Reverse.p_room_id p) (Reverse.p_user_id p)
         (Reverse.player_name p) (Reverse.join_order p) (Reverse.total_score p)
         true
  else p.

Definition join_reverse_room (users : gmap string string) (db : Reverse.Db)
    (p_room_code p_user_id : string) : Result (string * Reverse.Db) :=
  match roomByCode db p_room_code with
  | None => Throw (Error "Room not found")
  | Some (v_room_id, room) =>
      if bool_decide (Exists (fun s => Reverse.p_room_id s = v_room_id /\
                                       Reverse.p_user_id s = p_user_id)
                        (Reverse.players db))
      then Ok (v_room_id,
               Reverse.mkDb (Reverse.rooms db)
                 (reconnect v_room_id p_user_id <$> Reverse.players db)
                 (Reverse.answers db))
      else if bool_decide (Reverse.status room <> Reverse.waiting)
      then Throw (Error "Room has already started")
      else
        let v_player_count := Z.of_nat (length (seatsOf db v_room_id)) in
        if 5 <=? v_player_count
        then Throw (Error "Room is full (maximum 5 players)")
        else
          let v_next_join_order := maxJoinOrder (seatsOf db v_room_id) + 1 in
          match users !! p_user_id with
          | None => Throw (Error "User not found")
          | Some v_user_name =>
              db' ← insertSeat users db
                      (Reverse.mkPlayer v_room_id p_user_id v_user_name
                         v_next_join_order 0 true);
              Ok (v_room_id, db')
          end
  end.

(** [deleteReverseRoom]: the seats and answers of the room go with it
    ([ON DELETE CASCADE]). *)
Definition deleteReverseRoom (db : Reverse.Db) (roomId : string) : Reverse.Db :=
  Reverse.mkDb (delete roomId (Reverse.rooms db))
    (filter (fun p => Reverse.p_room_id p <> roomId) (Reverse.players db))
    (filter (fun a => Reverse.a_room_id a <> roomId) (Reverse.answers db)).

(** What places a seat: its room, its user and its join order. *)
Definition seatKey (p : Reverse.PlayerRow) : string * string * Z :=
  (Reverse.p_room_id p, Reverse.p_user_id p, Reverse.join_order p).

(** Every seat belongs to a room, and the seats of a room carry the join
    orders 1, 2, ..., one each, for at most five distinct users. *)
Definition seated (db : Reverse.Db) : Prop :=
  (forall p, p ∈ Reverse.players db ->
     is_Some (Reverse.rooms db !! Reverse.p_room_id p)) /\
  forall rid,
    Reverse.join_order <$> seatsOf db rid
      ≡ₚ seqZ 1 (Z.of_nat (length (seatsOf db rid))) /\
    (length (seatsOf db rid) <= 5)%nat /\
    NoDup (Reverse.p_user_id <$> seatsOf db rid).
End Lobby.

(** ** Versus mode: a turn

    [handleAnswer] works on the room of the render in which it was called
    ([room], the value [finishGame] reads too) and writes to the stored
    row ([stored]); the two are the same row unless a change has not
    reached the client yet.

    The indices, the counts and the times are stored in [INTEGER] columns:
    an update that writes a value outside the 32-bit range is refused by
    the store, [updateVersusRoom] throws the store's error and the row
    stays as it was.

    One call reads the clock up to four times; the readings come as a
    [Clock]. *)

Module VersusTurn.
Import Versus.

Record Clock := mkClock {
  (** [Date.now()] in [handleAnswer], from which the elapsed time of the
      turn is taken *)
  atAnswer : Date;
  (** [new Date()] that becomes the next turn's start time, in
      [handleAnswer] or in [finishGame] *)
  atRestart : Date;
  (** [new Date()] in the [updateVersusRoom] that [handleAnswer] calls *)
  atUpdate : Date;
  (** [new Date()] in the [updateVersusRoom] that [finishGame] calls *)
  atFinish : Date
}.

(** The partial update [updateVersusRoom] accepts, all twelve fields; an
    absent field is [None]. *)
Record Patch := mkPatch {
  p_status : option VersusRoomStatus;
  p_currentTurn : option (option string);
  p_playerAIndex : option Z;
  p_playerBIndex : option Z;
  p_playerAWrongCount : option Z;
  p_playerBWrongCount : option Z;
  p_playerARightCount : option Z;
  p_playerBRightCount : option Z;
  p_playerATime : option Z;
  p_playerBTime : option Z;
  p_turnStartTime : option (option Date);
  p_winnerId : option (option string)
}.

(** What an [INTEGER] column holds. *)
Definition fitsInteger (z : Z) : bool :=
  (-2147483648 <=? z) && (z <=? 2147483647).

Definition fitsColumn (z : option Z) : bool :=
  match z with
  | Some z => fitsInteger z
  | None => true
  end.

Definition patchFits (u : Patch) : bool :=
  fitsColumn (p_playerAIndex u) && fitsColumn (p_playerBIndex u) &&
  fitsColumn (p_playerAWrongCount u) && fitsColumn (p_playerBWrongCount u) &&
  fitsColumn (p_playerARightCount u) && fitsColumn (p_playerBRightCount u) &&
  fitsColumn (p_playerATime u) && fitsColumn (p_playerBTime u).

(** The store's error for a number that an [INTEGER] column cannot hold,
    by its SQLSTATE. *)
Definition outOfRange : Exn := Error "22003".

(** [updateVersusRoom] on the stored row [room], at the clock reading
    [now]: the row it leaves, or the store's error. *)
Definition patchVersusRoom (now : Date) (room : VersusRoom) (u : Patch)
    : Result VersusRoom :=
  if patchFits u then
    Ok (mkRoom (roomId room) (roomCode room) (playerAId room) (playerBId room)
          (default (status room) (p_status u))
          (default (currentTurn room) (p_currentTurn u))
          (playerAWords room) (playerBWords room)
          (default (playerAIndex room) (p_playerAIndex u))
          (default (playerBIndex room) (p_playerBIndex u))
          (default (playerAWrongCount room) (p_playerAWrongCount u))
          (default (playerBWrongCount room) (p_playerBWrongCount u))
          (default (playerARightCount room) (p_playerARightCount u))
          (default (playerBRightCount room) (p_playerBRightCount u))
          (default (playerATime room) (p_playerATime u))
          (default (playerBTime room) (p_playerBTime u))
          (default (turnStartTime room) (p_turnStartTime u))
          (default (winnerId room) (p_winnerId u))
          now)
  else Throw outOfRange.

(** [startVersusGame] on a room that exists: its player A gets the first
    turn.  [started] and [now] are its two clock readings. *)
Definition startVersusGame (started now : Date) (room : VersusRoom)
    (playerAWords playerBWords : list VersusWord) : VersusRoom :=
  mkRoom (roomId room) (roomCode room) (playerAId room) (playerBId room)
    active (Some (playerAId room)) playerAWords playerBWords
    0 0 0 0 0 0 0 0 (Some started) None now.

(** The update of [finishGame], if it sends one, stored over [stored].  It
    writes a status, a winner, a turn and a date, which the store takes. *)
Definition thenFinishGame (clock : Clock) (room stored : VersusRoom)
    (playerAFinished : bool) : VersusRoom :=
  match finishGame (atRestart clock) (Some room) playerAFinished with
  | Some u => updateVersusRoom (atFinish clock) stored u
  | None => stored
  end.

(** The stored row after the call, and the error the call throws, if any. *)
Definition handleAnswer (clock : Clock) (currentUserId : string)
    (room : option VersusRoom) (stored : VersusRoom) (correct : bool)
    : VersusRoom * option Exn :=
  match room with
  | None => (stored, None)
  | Some room =>
      if bool_decide (currentTurn room <> Some currentUserId)
      then (stored, None)
      else
        let isPlayerA := bool_decide (currentUserId = playerAId room) in
        let currentIndex :=
          if isPlayerA then playerAIndex room else playerBIndex room in
        let totalWords :=
          Z.of_nat (length (if isPlayerA then playerAWords room
                            else playerBWords room)) in
        let newIndex := currentIndex + 1 in
        let turnElapsed :=
          match turnStartTime room with
          | Some t => Schedule.getTime (atAnswer clock) - Schedule.getTime t
          | None => 0
          end in
        let newTime :=
          if isPlayerA then playerATime room + turnElapsed
          else playerBTime room + turnElapsed in
        let update u :=
          match patchVersusRoom (atUpdate clock) stored u with
          | Ok stored' => (stored', None)
          | Throw e => (stored, Some e)
          end in
        let updateThenFinish u :=
          match patchVersusRoom (atUpdate clock) stored u with
          | Ok stored' => (thenFinishGame clock room stored' isPlayerA, None)
          | Throw e => (stored, Some e)
          end in
        if correct then
          let newRightCount :=
            if isPlayerA then playerBRightCount room + 1
            else playerARightCount room + 1 in
          if totalWords <=? newIndex then
            updateThenFinish
              (if isPlayerA
               then mkPatch None None (Some newIndex) None None None None
                      (Some newRightCount) (Some newTime) None None None
               else mkPatch None None None (Some newIndex) None None
                      (Some newRightCount) None None (Some newTime) None None)
          else
            update
              (if isPlayerA
               then mkPatch None None (Some newIndex) None None None None
                      (Some newRightCount) None None None None
               else mkPatch None None None (Some newIndex) None None
                      (Some newRightCount) None None None None None)
        else
          let newWrongCount :=
            if isPlayerA then playerBWrongCount room + 1
            else playerAWrongCount room + 1 in
          let nextTurn :=
            if isPlayerA then playerBId room else Some (playerAId room) in
          if totalWords <=? newIndex then
            updateThenFinish
              (if isPlayerA
               then mkPatch None None (Some newIndex) None None
                      (Some newWrongCount) None None (Some newTime) None
                      None None
               else mkPatch None None None (Some newIndex)
                      (Some newWrongCount) None None None None (Some newTime)
                      None None)
          else
            update
              (if isPlayerA
               then mkPatch None (Some nextTurn) (Some newIndex) None None
                      (Some newWrongCount) None None (Some newTime) None
                      (Some (Some (atRestart clock))) None
               else mkPatch None (Some nextTurn) None (Some newIndex)
                      (Some newWrongCount) None None None None (Some newTime)
                      (Some (Some (atRestart clock))) None)
  end.

(** A run of calls, each made on the row the store holds at that time (the
    client has seen every earlier change): the row they leave and the
    errors thrown on the way.  A call is its clock, its caller and the
    button pressed. *)
Definition handleAnswers (calls : list (Clock * string * bool))
    (stored : VersusRoom) : VersusRoom * list Exn :=
  foldl (fun (acc : VersusRoom * list Exn) (call : Clock * string * bool) =>
           let out :=
             handleAnswer call.1.1 call.1.2 (Some acc.1) acc.1 call.2 in
           (out.1, acc.2 ++ option_list out.2))
    (stored, []) calls.

(** Every word read so far was answered right or wrong by the listener. *)
Definition tallied (room : VersusRoom) : Prop :=
  playerAIndex room = playerBRightCount room + playerBWrongCount room /\
  playerBIndex room = playerARightCount room + playerAWrongCount room.

(** The words a side has left to read. *)
Definition wordsLeft (room : VersusRoom) (sideA : bool) : Z :=
  if sideA then Z.of_nat (length (playerAWords room)) - playerAIndex room
  else Z.of_nat (length (playerBWords room)) - playerBIndex room.

(** The three numbers a call in turn may write: the caller's next index,
    the listener's next count and the caller's time with the elapsed time
    of the turn added. *)
Definition nextIndex (room : VersusRoom) (isA : bool) : Z :=
  (if isA then playerAIndex room else playerBIndex room) + 1.

Definition nextCount (room : VersusRoom) (isA correct : bool) : Z :=
  (if correct
   then (if isA then playerBRightCount room else playerARightCount room)
   else (if isA then playerBWrongCount room else playerAWrongCount room)) + 1.

Definition elapsed (clock : Clock) (room : VersusRoom) : Z :=
  match turnStartTime room with
  | Some t => Schedule.getTime (atAnswer clock) - Schedule.getTime t
  | None => 0
  end.

Definition nextTime (clock : Clock) (room : VersusRoom) (isA : bool) : Z :=
  (if isA then playerATime room else playerBTime room) + elapsed clock room.

(** Whether the store takes what a call in turn writes; the time is
    written unless the answer is right and the caller has words left. *)
Definition storable (clock : Clock) (room : VersusRoom) (isA correct : bool)
    : bool :=
  fitsInteger (nextIndex room isA) &&
  fitsInteger (nextCount room isA correct) &&
  ((correct && (1 <? wordsLeft room isA)) ||
   fitsInteger (nextTime clock room isA)).
End VersusTurn.

(** ** The practice session

    The lesson state of the main component and its two handlers.  The
    views (hint and definition shown or hidden), the sounds and the
    background save of the progress are left out.  [index n] is the value
    of [Math.floor(Math.random() * n)]. *)

Module Practice.

Record Session := mkSession {
  words : list WordItem.t;
  practiceMode : bool;
  currentId : option string;
  lessonPlan : list string;
  lessonIndex : Z;
  lessonWrongWords : list string;
  isReviewingWrong : bool;
  lastReviewWordId : option string;
  sessionFailedWords : gset string;
  sessionSeenCount : Z;
  sessionRightCount : Z;
  sessionWrongCount : Z
}.

(** A string that is absent or empty is falsy. *)
Definition truthy (s : option string) : option string :=
  match s with
  | Some i => if bool_decide (i = EmptyString) then None else Some i
  | None => None
  end.

(** [l[i]] for a JavaScript index. *)
Definition at_index {A : Type} (l : list A) (i : Z) : option A :=
  if i <? 0 then None else l !! Z.to_nat i.

Definition currentWord (s : Session) : option WordItem.t :=
  match truthy (currentId s) with
  | None => None
  | Some i => List.find (fun w => bool_decide (WordItem.id w = i)) (words s)
  end.

Definition sortByDueThenUpdated (a b : WordItem.t) : Z :=
  let da := Schedule.getTime (WordItem.dueAt a) in
  let db := Schedule.getTime (WordItem.dueAt b) in
  if bool_decide (da <> db) then da - db
  else Schedule.getTime (WordItem.updatedAt b)
       - Schedule.getTime (WordItem.updatedAt a).

Definition dueWords (now : Date) (ws : list WordItem.t) : list WordItem.t :=
  stableSort (fun a b => sortByDueThenUpdated a b <=? 0)
    (filter (fun w => Schedule.isDue w now = true) ws).

Definition startPractice (rnd : WordSelection.RandomSource) (now : Date)
    (s : Session) : Session :=
  let shuffled := WordSelection.shuffled rnd _ (dueWords now (words s)) in
  let plan := WordItem.id <$> take 10 shuffled in
  mkSession (words s) true (truthy (plan !! 0%nat)) plan 0 [] false None ∅
    0 0 0.

Definition stopPractice (s : Session) : Session :=
  mkSession (words s) false None [] 0 [] false None ∅
    (sessionSeenCount s) (sessionRightCount s) (sessionWrongCount s).

(** A card drawn from the candidates. *)
Definition draw (index : nat -> nat) (candidates : list string) : option string :=
  candidates !! index (length candidates).

Definition answer (index : nat -> nat) (now today : Date) (config : AppConfig.t)
    (currentUserId : option string) (s : Session) (right : bool) : Session :=
  match currentWord s, truthy currentUserId with
  | Some cw, Some _ =>
      let wasFailedThisSession :=
        bool_decide (WordItem.id cw ∈ sessionFailedWords s) in
      let failed :=
        if right then sessionFailedWords s
        else sessionFailedWords s ∪ {[WordItem.id cw]} in
      let updated :=
        Srs.applyAnswer now today cw right config (negb wasFailedThisSession) in
      let words' :=
        (fun w => if bool_decide (WordItem.id w = WordItem.id updated)
                  then updated else w) <$> words s in
      let seen := sessionSeenCount s + 1 in
      let rights := sessionRightCount s + (if right then 1 else 0) in
      let wrongs := sessionWrongCount s + (if right then 0 else 1) in
      if isReviewingWrong s then
        if right then
          let nextWrongWords :=
            filter (fun i => i <> WordItem.id updated) (lessonWrongWords s) in
          if bool_decide (length nextWrongWords = 0%nat) then
            stopPractice
              (mkSession words' (practiceMode s) (currentId s) (lessonPlan s)
                 (lessonIndex s) nextWrongWords true
                 (Some (WordItem.id updated)) failed seen rights wrongs)
          else
            let candidates :=
              if bool_decide (1 < length nextWrongWords)%nat
              then filter (fun i => i <> WordItem.id updated) nextWrongWords
              else nextWrongWords in
            mkSession words' (practiceMode s) (draw index candidates)
              (lessonPlan s) (lessonIndex s) nextWrongWords true
              (Some (WordItem.id updated)) failed seen rights wrongs
        else
          let candidates :=
            if bool_decide (1 < length (lessonWrongWords s))%nat
            then filter (fun i => i <> WordItem.id updated) (lessonWrongWords s)
            else lessonWrongWords s in
          mkSession words' (practiceMode s) (draw index candidates)
            (lessonPlan s) (lessonIndex s) (lessonWrongWords s) true
            (Some (WordItem.id updated)) failed seen rights wrongs
      else
        let nextIndex := lessonIndex s + 1 in
        let nextWrongWords :=
          if negb right
             && bool_decide (WordItem.id updated ∉ lessonWrongWords s)
          then lessonWrongWords s ++ [WordItem.id updated]
          else lessonWrongWords s in
        if Z.of_nat (length (lessonPlan s)) <=? nextIndex then
          if bool_decide (0 < length nextWrongWords)%nat then
            let next := draw index nextWrongWords in
            mkSession words' (practiceMode s) next (lessonPlan s) nextIndex
              nextWrongWords true next failed seen rights wrongs
          else
            stopPractice
              (mkSession words' (practiceMode s) (currentId s) (lessonPlan s)
                 (lessonIndex s) nextWrongWords false (lastReviewWordId s)
                 failed seen rights wrongs)
        else
          mkSession words' (practiceMode s) (at_index (lessonPlan s) nextIndex)
            (lessonPlan s) nextIndex nextWrongWords false (lastReviewWordId s)
            failed seen rights wrongs
  | _, _ => s
  end.

(** The lesson is in order: the review pool has no card twice, every card
    of it is a card of the plan that was failed in this session, the seen
    cards are the right and the wrong ones, and the card shown is one of the
    review pool during the review and the plan's card at the index
    before. *)
Definition inOrder (s : Session) : Prop :=
  NoDup (lessonWrongWords s) /\
  (forall i, i ∈ lessonWrongWords s ->
     i ∈ lessonPlan s /\ i ∈ sessionFailedWords s) /\
  sessionSeenCount s = sessionRightCount s + sessionWrongCount s /\
  0 <= lessonIndex s /\
  forall i, truthy (currentId s) = Some i ->
    if isReviewingWrong s then i ∈ lessonWrongWords s
    else at_index (lessonPlan s) (lessonIndex s) = Some i.
End Practice.

(** ** Worked example data *)

Module Fixtures.
Import WordSelection Reverse.

(** The code units of a literal, read as UTF-8. *)
Fixpoint utf16 (s : string) : text :=
  match s with
  | EmptyString => []
  | String a1 s1 =>
      let b1 := Ascii.N_of_ascii a1 in
      if (b1 <? 128)%N then b1 :: utf16 s1
      else
        match s1 with
        | EmptyString => []
        | String a2 s2 =>
            let b2 := (Ascii.N_of_ascii a2 mod 64)%N in
            if (b1 <? 224)%N then ((b1 mod 32) * 64 + b2)%N :: utf16 s2
            else
              match s2 with
              | EmptyString => []
              | String a3 s3 =>
                  let b3 := (Ascii.N_of_ascii a3 mod 64)%N in
                  if (b1 <? 240)%N
                  then ((b1 mod 16) * 4096 + b2 * 64 + b3)%N :: utf16 s3
                  else
                    match s3 with
                    | EmptyString => []
                    | String a4 s4 =>
                        let b4 := (Ascii.N_of_ascii a4 mod 64)%N in
                        let cp :=
                          ((b1 mod 8) * 262144 + b2 * 4096 + b3 * 64 + b4)%N in
                        (55296 + (cp - 65536) / 1024)%N
                        :: (56320 + (cp - 65536) mod 1024)%N :: utf16 s4
                    end
              end
        end
  end.

(** [toLowerCase] on Basic Latin and Latin-1 text, where it acts on each
    code unit by itself; other code units are left alone. *)
Definition lowerLatin (s : text) : text :=
  (fun c : N =>
     if ((65 <=? c) && (c <=? 90) || (192 <=? c) && (c <=? 214)
         || (216 <=? c) && (c <=? 222))%N
     then (c + 32)%N else c) <$> s.

Definition w (i : string) (word : string) : WordRef :=
  mkWord i (utf16 word) "" ("definition of " +:+ word) None.

(** A pool of thirteen words, the least the host may start with. *)
Definition pool : list WordRef :=
  [ w "w00" "apple"; w "w01" "bridge"; w "w02" "candle"; w "w03" "dragon";
    w "w04" "engine"; w "w05" "forest"; w "w06" "garden"; w "w07" "harbor";
    w "w08" "island"; w "w09" "jungle"; w "w10" "kettle"; w "w11" "ladder";
    w "w12" "meadow" ].

(** A random source that leaves every array in its order and draws 0. *)
Definition fixedRandom : RandomSource :=
  {| draws := fun _ => 0%Q; shuffled := fun _ l => l |}.

(** A random source that leaves every array in its order and adds 0 to
    the first score, 1/2 to the second, 1 to the third. *)
Definition risingRandom : RandomSource :=
  {| draws := fun i => (Z.of_nat i # 2)%Q; shuffled := fun _ l => l |}.

(** A target with two candidates of the same integer score, one of them
    outside Basic Latin. *)
Definition chatPool : list WordRef :=
  [ w "t" "chat"; w "a" "ééé"; w "b" "ab" ].

Definition t0 : Date := mkDate 100 0.

Definition lobbyRoom : RoomRow :=
  mkRoom "ABCD" "alice" waiting 10 0 None [] None 15000 t0.

Definition lobby : Db :=
  mkDb {[ "room" := lobbyRoom ]}
    [ mkPlayer "room" "alice" "Alice" 1 0 true;
      mkPlayer "room" "bob" "Bob" 2 0 true ]
    [].

(** The room while question 1 (target "w01") is open. *)
Definition asking : Db :=
  mkDb
    {[ "room" :=
         mkRoom "ABCD" "alice" question 10 1
           (Some (mkQuestion "w01" (utf16 "bridge") "definition of bridge"
                    [ mkOption "w01" (utf16 "bridge");
                      mkOption "w02" (utf16 "candle");
                      mkOption "w03" (utf16 "dragon") ]))
           (take 10 pool) (Some t0) 15000 t0 ]}
    [ mkPlayer "room" "alice" "Alice" 1 0 true;
      mkPlayer "room" "bob" "Bob" 2 0 true ]
    [].

Definition fromResult (d : Db) (r : Result Db) : Db :=
  match r with Ok d' => d' | Throw _ => d end.

(** Alice has answered question 1 correctly ... *)
Definition answeredOnce : Db :=
  fromResult asking (submitAnswer asking "room" 1 "alice" "w01" 3000).

(** ... and Bob wrongly: every seated player has answered. *)
Definition answeredAll : Db :=
  fromResult answeredOnce (submitAnswer answeredOnce "room" 1 "bob" "w02" 4000).

(** [n] successive calls of [advanceToNextQuestion], with the target of
    every question they open. *)
Fixpoint advances (n : nat) (db : Db) : Db * list string :=
  match n with
  | O => (db, [])
  | S n' =>
      let db' := fromResult db
          (advanceToNextQuestion lowerLatin fixedRandom t0 db "room" pool) in
      let asked :=
        match rooms db' !! "room" with
        | Some r =>
            match status r, current_question r with
            | question, Some q => [wordId q]
            | _, _ => []
            end
        | None => []
        end in
      let rest := advances n' db' in
      (rest.1, asked ++ rest.2)
  end.
End Fixtures.

Module VersusFixtures.
Import Versus.

(** Both sides have read their two words. *)
Definition duel : VersusRoom :=
  mkRoom "r1" "QRST" "ann" (Some "ben") active (Some "ann")
    [mkWord "a" "alpha" "" "first"; mkWord "b" "beta" "" "second"]
    [mkWord "c" "gamma" "" "third"; mkWord "d" "delta" "" "fourth"]
    2 2 0 1 2 1 9000 4000 (Some (mkDate 7 100)) None (mkDate 7 100).

(** Side A has read both words without a wrong answer; side B none yet. *)
Definition earlyFinish : VersusRoom :=
  mkRoom "r1" "QRST" "ann" (Some "ben") active (Some "ann")
    [mkWord "a" "alpha" "" "first"; mkWord "b" "beta" "" "second"]
    [mkWord "c" "gamma" "" "third"; mkWord "d" "delta" "" "fourth"]
    2 0 0 0 0 2 5000 0 (Some (mkDate 7 100)) None (mkDate 7 100).

(** The clock readings of a call that [handleAnswer] begins [ms]
    milliseconds into day 7. *)
Definition callAt (ms : Z) : VersusTurn.Clock :=
  VersusTurn.mkClock (mkDate 7 ms) (mkDate 7 (ms + 2)) (mkDate 7 (ms + 1))
    (mkDate 7 (ms + 3)).

(** A room that both players have joined, before the match starts. *)
Definition joined : VersusRoom :=
  mkRoom "r1" "QRST" "ann" (Some "ben") waiting None [] []
    0 0 0 0 0 0 0 0 None None (mkDate 7 0).

(** A match of two words a side.  Ann reads hers first: Ben answers the
    first right and the second wrong.  Then Ben reads his and Ann answers
    both right. *)
Definition started : VersusRoom :=
  VersusTurn.startVersusGame (mkDate 7 100) (mkDate 7 101) joined
    [mkWord "a" "alpha" "" "first"; mkWord "b" "beta" "" "second"]
    [mkWord "c" "gamma" "" "third"; mkWord "d" "delta" "" "fourth"].

Definition fullMatch : list (VersusTurn.Clock * string * bool) :=
  [ (callAt 2000, "ann", true); (callAt 5000, "ann", false);
    (callAt 8000, "ben", true); (callAt 20000, "ben", true) ].

(** The row of that match when Ben is about to read his last word. *)
Definition lastTurn : VersusRoom :=
  (VersusTurn.handleAnswers (take 3 fullMatch) started).1.
End VersusFixtures.

(** * Properties *)

(** ** The stable sort *)

Section StableSortFacts.
Context {A : Type} (leb : A -> A -> bool).

Lemma insertSorted_Permutation (x : A) (l : list A) :
  insertSorted leb x l ≡ₚ x :: l.
Proof.
  induction l as [|y l IH]; simpl; [done|].
  destruct (leb x y); [done|].
  rewrite IH. apply Permutation_swap.
Qed.

Lemma stableSort_Permutation (l : list A) : stableSort leb l ≡ₚ l.
Proof.
  induction l as [|x l IH]; simpl; [done|].
  rewrite insertSorted_Permutation. by rewrite IH.
Qed.

Lemma stableSort_elem_of (l : list A) (x : A) : x ∈ stableSort leb l <-> x ∈ l.
Proof. by rewrite stableSort_Permutation. Qed.

Lemma stableSort_length (l : list A) : length (stableSort leb l) = length l.
Proof. by rewrite stableSort_Permutation. Qed.
End StableSortFacts.

Lemma insertSorted_Z_sorted (x : Z) (l : list Z) :
  StronglySorted Z.le l -> StronglySorted Z.le (insertSorted Z.leb x l).
Proof.
  induction 1 as [|y l Hs IH Hall]; simpl.
  - repeat constructor.
  - destruct (Z.leb_spec x y) as [Hxy|Hxy].
    + constructor; [by constructor|].
      constructor; [done|].
      eapply Forall_impl; [exact Hall|]. intros z Hz. simpl in Hz. lia.
    + constructor; [done|].
      rewrite (insertSorted_Permutation Z.leb x l).
      constructor; [lia | done].
Qed.

Lemma stableSort_Z_sorted (l : list Z) :
  StronglySorted Z.le (stableSort Z.leb l).
Proof.
  induction l as [|x l IH]; simpl; [constructor|].
  by apply insertSorted_Z_sorted.
Qed.

(** The first element above [c] in a sorted list is the least one. *)
Lemma find_above_least (c : Z) (l : list Z) (x : Z) :
  StronglySorted Z.le l ->
  List.find (fun i => c <? i) l = Some x ->
  x ∈ l /\ c < x /\ forall i, i ∈ l -> c < i -> x <= i.
Proof.
  induction 1 as [|y l Hs IH Hall]; simpl; [done|].
  destruct (Z.ltb_spec c y) as [Hcy|Hcy].
  - intros [= <-]. split; [left|]. split; [done|].
    intros i [->|Hi]%elem_of_cons _; [lia|].
    rewrite Forall_forall in Hall. by apply Hall.
  - intros Hf. destruct (IH Hf) as (Hx & Hcx & Hmin).
    split; [by right|]. split; [done|].
    intros i [->|Hi]%elem_of_cons Hci; [lia | by apply Hmin].
Qed.

Lemma find_above_none (c : Z) (l : list Z) :
  List.find (fun i => c <? i) l = None -> forall i, i ∈ l -> i <= c.
Proof.
  intros Hf i Hi%list_elem_of_In.
  pose proof (find_none _ _ Hf i Hi) as H. simpl in H. lia.
Qed.

(** ** The scheduler *)

Module SrsFacts.
Import AppConfig Srs.

Lemma foldl_max_ge (l : list Z) (a : Z) :
  a <= foldl Z.max a l /\ forall i, i ∈ l -> i <= foldl Z.max a l.
Proof.
  revert a. induction l as [|x l IH]; intros a; simpl.
  - split; [lia|]. intros i Hi. by apply elem_of_nil in Hi.
  - destruct (IH (Z.max a x)) as [H1 H2]. split; [lia|].
    intros i [->|Hi]%elem_of_cons; [lia | by apply H2].
Qed.

Lemma foldl_max_elem (l : list Z) (a : Z) : foldl Z.max a l ∈ a :: l.
Proof.
  revert a. induction l as [|x l IH]; intros a; simpl; [left|].
  specialize (IH (Z.max a x)).
  apply elem_of_cons in IH as [->|IH].
  - destruct (Z.max_spec a x) as [[_ ->]|[_ ->]]; [right; left | left].
  - right. by right.
Qed.

Lemma maxLevel_ge (cfg : AppConfig.t) (i : Z) :
  i ∈ levelIds cfg -> i <= maxLevel cfg.
Proof.
  unfold maxLevel. destruct (levelIds cfg) as [|a l].
  - intros H. by apply elem_of_nil in H.
  - destruct (foldl_max_ge l a) as [H1 H2].
    intros [->|Hi]%elem_of_cons; [done | by apply H2].
Qed.

Lemma maxLevel_elem (cfg : AppConfig.t) :
  levelIds cfg <> [] -> maxLevel cfg ∈ levelIds cfg.
Proof.
  unfold maxLevel. destruct (levelIds cfg) as [|a l]; [done|].
  intros _. apply foldl_max_elem.
Qed.

Lemma findLevel_Some (cfg : AppConfig.t) (i : Z) (l : LevelConfig.t) :
  findLevel cfg i = Some l -> l ∈ levels cfg /\ LevelConfig.id l = i.
Proof.
  intros [Hin Heq]%find_some. split; [by apply list_elem_of_In | lia].
Qed.

Lemma findLevel_elem (cfg : AppConfig.t) (i : Z) :
  i ∈ levelIds cfg -> is_Some (findLevel cfg i).
Proof.
  unfold levelIds. intros (l & -> & Hl)%list_elem_of_fmap.
  destruct (findLevel cfg (LevelConfig.id l)) as [l'|] eqn:Hf; [by eexists|].
  apply list_elem_of_In in Hl.
  pose proof (find_none _ _ Hf l Hl) as H. simpl in H. lia.
Qed.

Lemma findLevel_ids (cfg : AppConfig.t) (i : Z) (l : LevelConfig.t) :
  findLevel cfg i = Some l -> i ∈ levelIds cfg.
Proof.
  intros [Hin <-]%findLevel_Some. unfold levelIds.
  apply list_elem_of_fmap. by exists l.
Qed.

Lemma config_in_bounds_level (cfg : AppConfig.t) (i : Z) (l : LevelConfig.t) :
  config_in_bounds cfg -> findLevel cfg i = Some l -> level_in_bounds l.
Proof.
  intros Hb [Hin _]%findLevel_Some.
  unfold config_in_bounds in Hb. rewrite Forall_forall in Hb. by apply Hb.
Qed.

Lemma clampInt_id (n lo hi : Z) : lo <= n <= hi -> clampInt n lo hi = n.
Proof. unfold clampInt. lia. Qed.

Lemma clampInt_range (n lo hi : Z) : lo <= hi -> lo <= clampInt n lo hi <= hi.
Proof. unfold clampInt. lia. Qed.

(** The id returned by [nextHigherLevelId] is the smallest configured id
    above [current], as soon as one exists. *)
Lemma nextHigherLevelId_least (current : Z) (cfg : AppConfig.t) :
  current < maxLevel cfg -> levelIds cfg <> [] ->
  is_next_higher cfg current (nextHigherLevelId current cfg).
Proof.
  intros Hlt Hne. unfold nextHigherLevelId, is_next_higher.
  destruct (List.find _ (sortedIds cfg)) as [x|] eqn:Hf.
  - destruct (find_above_least current (sortedIds cfg) x) as (Hx & Hcx & Hmin);
      [apply stableSort_Z_sorted | done |].
    unfold sortedIds in Hx. rewrite stableSort_elem_of in Hx.
    split; [done|]. split; [done|].
    intros i Hi. apply Hmin. unfold sortedIds. by rewrite stableSort_elem_of.
  - pose proof (find_above_none _ _ Hf (maxLevel cfg)) as H.
    assert (maxLevel cfg <= current); [|lia].
    apply H. unfold sortedIds. rewrite stableSort_elem_of.
    by apply maxLevel_elem.
Qed.

Lemma sorted_head_least (x : Z) (l : list Z) :
  StronglySorted Z.le (x :: l) -> forall i, i ∈ x :: l -> x <= i.
Proof.
  intros Hs i [->|Hi]%elem_of_cons; [lia|].
  apply StronglySorted_inv in Hs as [_ Hall].
  rewrite Forall_forall in Hall. by apply Hall.
Qed.

Lemma sorted_last_greatest (l : list Z) (m : Z) :
  StronglySorted Z.le l -> last l = Some m -> forall i, i ∈ l -> i <= m.
Proof.
  induction 1 as [|x l Hs IH Hall]; [done|].
  destruct l as [|y l'].
  - simpl. intros [= <-] i [->|Hi]%elem_of_cons; [lia|].
    by apply elem_of_nil in Hi.
  - change (last (x :: y :: l')) with (last (y :: l')).
    intros Hl i [->|Hi]%elem_of_cons; [|by apply IH].
    rewrite Forall_forall in Hall.
    specialize (IH Hl y ltac:(left)). specialize (Hall y ltac:(left)). lia.
Qed.

(** The loop of [clampToExistingLevel] keeps a closest id seen so far. *)
Lemma closest_fold (target : Z) (l : list Z) (best : Z) :
  let r :=
    foldl (fun (acc : Z * Z) (i : Z) =>
             let d := Z.abs (i - target) in
             if d <? snd acc then (i, d) else acc)
      (best, Z.abs (best - target)) l in
  fst r ∈ best :: l /\
  forall i, i ∈ best :: l -> Z.abs (fst r - target) <= Z.abs (i - target).
Proof.
  revert best. induction l as [|x l IH]; intros best; simpl.
  - split; [left|]. intros i [->|Hi]%elem_of_cons; [lia|].
    by apply elem_of_nil in Hi.
  - cbv zeta in IH.
    destruct (Z.ltb_spec (Z.abs (x - target)) (Z.abs (best - target)))
      as [Hlt|Hge]; simpl.
    + destruct (IH x) as [Hin Hmin]. split.
      * apply elem_of_cons in Hin as [->|Hin]; [right; left | right; by right].
      * intros i [->|[->|Hi]%elem_of_cons]%elem_of_cons.
        -- specialize (Hmin x ltac:(left)). lia.
        -- apply Hmin. left.
        -- apply Hmin. by right.
    + destruct (IH best) as [Hin Hmin]. split.
      * apply elem_of_cons in Hin as [->|Hin]; [left | right; by right].
      * intros i [->|[->|Hi]%elem_of_cons]%elem_of_cons.
        -- apply Hmin. left.
        -- specialize (Hmin best ltac:(left)). lia.
        -- apply Hmin. by right.
Qed.

(** [clampToExistingLevel] returns a configured id at the least distance
    from the id it is given. *)
Lemma clampToExistingLevel_nearest (levelId : Z) (cfg : AppConfig.t) :
  levelIds cfg <> [] ->
  clampToExistingLevel levelId cfg ∈ levelIds cfg /\
  forall i, i ∈ levelIds cfg ->
    Z.abs (clampToExistingLevel levelId cfg - levelId) <= Z.abs (i - levelId).
Proof.
  intros Hne. unfold clampToExistingLevel.
  case_bool_decide as Hin; [split; [done | intros; lia]|].
  pose proof (stableSort_Z_sorted (levelIds cfg)) as Hs.
  pose proof (stableSort_elem_of Z.leb (levelIds cfg)) as Hel.
  fold (sortedIds cfg) in Hs, Hel.
  destruct (sortedIds cfg) as [|mn rest] eqn:Hsorted.
  { destruct (levelIds cfg) as [|a l]; [done|].
    assert (a ∈ @nil Z) as Ha by (apply Hel; left).
    by apply elem_of_nil in Ha. }
  pose proof (sorted_head_least _ _ Hs) as Hleast.
  destruct (Z.ltb_spec levelId mn) as [Hlo|Hlo].
  { split; [apply Hel; left|].
    intros i Hi%Hel. specialize (Hleast i Hi). lia. }
  destruct (last (mn :: rest)) as [mx|] eqn:Hlast; simpl.
  - pose proof (sorted_last_greatest _ _ Hs Hlast) as Hgreatest.
    destruct (Z.ltb_spec mx levelId) as [Hhi|Hhi].
    + split; [apply Hel; by eapply last_Some_elem_of|].
      intros i Hi%Hel. specialize (Hgreatest i Hi). lia.
    + destruct (closest_fold levelId (mn :: rest) mn) as [Hc Hmin].
      split.
      * apply Hel. apply elem_of_cons in Hc as [Hc|Hc]; [|exact Hc].
        apply elem_of_cons. left. exact Hc.
      * intros i Hi%Hel. apply Hmin. by right.
  - by apply last_None in Hlast.
Qed.
End SrsFacts.

(** ** Normalisation establishes the bounds the scheduler relies on *)

Module NormalizeFacts.
Import AppConfig Srs SrsFacts.

Lemma defaultConfig_in_bounds : config_in_bounds defaultConfig.
Proof. repeat constructor; simpl; lia. Qed.
End NormalizeFacts.

Module SrsSpec.
Import AppConfig Srs SrsFacts.

(** One right answer at the highest configured level. *)
Lemma applyAnswer_right_at_max (now today : Date) (w : WordItem.t)
    (cfg : AppConfig.t) (lvl : LevelConfig.t) (clean : bool) :
  WordItem.levelId w = maxLevel cfg ->
  findLevel cfg (WordItem.levelId w) = Some lvl ->
  0 <= LevelConfig.intervalDays lvl <= 3650 ->
  let w' := applyAnswer now today w true cfg clean in
  WordItem.levelId w' = WordItem.levelId w /\
  WordItem.dueAt w' =
    toISO (addDays (todayStartLocal today) (LevelConfig.intervalDays lvl)).
Proof.
  intros Hmax Hf Hb. unfold applyAnswer. rewrite Hf. simpl.
  rewrite (clampInt_id (LevelConfig.intervalDays lvl) 0 3650) by done.
  assert ((WordItem.levelId w <? maxLevel cfg) = false) as ->
    by (apply Z.ltb_ge; lia).
  rewrite andb_false_r. simpl. done.
Qed.

(** C1: on a right answer in a clean run, with a configuration within the
    normalisation bounds and a word whose level is configured, [applyAnswer]
    adds one to totalRight; it promotes exactly when the incremented streak
    reaches the level's promoteAfterCorrect and the level is not the
    maximum: then the new level is the smallest configured id above the
    old one, the streak is 0 and dueAt is midnight of the local day that
    lies the new level's intervalDays after today; otherwise the level is
    kept, the streak grows by one and dueAt is midnight of the local day
    that lies the current level's intervalDays after today.  With the
    levels 3/2/1 and 1/7/30, a word at level 1 with streak 0 is at level 2
    with streak 0 and due at midnight seven days on after three such
    answers, and not before. *)
Theorem applyAnswer_right_clean :
  (forall (now today : Date) (w : WordItem.t) (cfg : AppConfig.t)
          (lvl : LevelConfig.t),
      config_in_bounds cfg ->
      findLevel cfg (WordItem.levelId w) = Some lvl ->
      let w' := applyAnswer now today w true cfg true in
      WordItem.totalRight w' = WordItem.totalRight w + 1 /\
      (LevelConfig.promoteAfterCorrect lvl <= WordItem.streakCorrect w + 1 /\
       WordItem.levelId w <> maxLevel cfg ->
       exists lvl',
         findLevel cfg (WordItem.levelId w') = Some lvl' /\
         is_next_higher cfg (WordItem.levelId w) (WordItem.levelId w') /\
         WordItem.streakCorrect w' = 0 /\
         WordItem.dueAt w' =
           mkDate (day today + LevelConfig.intervalDays lvl') 0) /\
      (~ (LevelConfig.promoteAfterCorrect lvl <= WordItem.streakCorrect w + 1 /\
          WordItem.levelId w <> maxLevel cfg) ->
       WordItem.levelId w' = WordItem.levelId w /\
       WordItem.streakCorrect w' = WordItem.streakCorrect w + 1 /\
       WordItem.dueAt w' =
         mkDate (day today + LevelConfig.intervalDays lvl) 0)) /\
  (forall (n1 t1 n2 t2 n3 t3 : Date) (w : WordItem.t),
      WordItem.levelId w = 1 -> WordItem.streakCorrect w = 0 ->
      let w1 := applyAnswer n1 t1 w true defaultConfig true in
      let w2 := applyAnswer n2 t2 w1 true defaultConfig true in
      let w3 := applyAnswer n3 t3 w2 true defaultConfig true in
      (WordItem.levelId w1 = 1 /\ WordItem.streakCorrect w1 = 1 /\
       WordItem.dueAt w1 = mkDate (day t1 + 1) 0) /\
      (WordItem.levelId w2 = 1 /\ WordItem.streakCorrect w2 = 2 /\
       WordItem.dueAt w2 = mkDate (day t2 + 1) 0) /\
      WordItem.levelId w3 = 2 /\ WordItem.streakCorrect w3 = 0 /\
      WordItem.dueAt w3 = mkDate (day t3 + 7) 0).
Proof.
  split.
  - intros now today w cfg lvl Hb Hf w'.
    pose proof (config_in_bounds_level _ _ _ Hb Hf) as [Hp Hi].
    pose proof (findLevel_ids _ _ _ Hf) as Hin.
    pose proof (maxLevel_ge _ _ Hin) as Hle.
    assert (levelIds cfg <> []) as Hne.
    { intros E. rewrite E in Hin. by apply elem_of_nil in Hin. }
    subst w'. unfold applyAnswer. rewrite Hf. simpl.
    rewrite (clampInt_id (LevelConfig.intervalDays lvl) 0 3650) by done.
    rewrite (clampInt_id (LevelConfig.promoteAfterCorrect lvl) 1 99) by done.
    destruct (Z.ltb_spec (WordItem.levelId w) (maxLevel cfg)) as [Hlt|Hlt];
      destruct (Z.leb_spec (LevelConfig.promoteAfterCorrect lvl)
                  (WordItem.streakCorrect w + 1)) as [Hthr|Hthr];
      simpl; (split; [done|]); split.
    + intros _.
      pose proof (nextHigherLevelId_least (WordItem.levelId w) cfg Hlt Hne)
        as Hnext.
      destruct (findLevel_elem cfg _ (proj1 Hnext)) as [lvl' Hf'].
      exists lvl'. rewrite Hf'. simpl.
      pose proof (config_in_bounds_level _ _ _ Hb Hf') as [_ Hi'].
      rewrite (clampInt_id (LevelConfig.intervalDays lvl') 0 3650) by done.
      done.
    + intros Hn. exfalso. apply Hn. lia.
    + intros [? _]. lia.
    + done.
    + intros [_ ?]. lia.
    + done.
    + intros [? _]. lia.
    + done.
  - intros n1 t1 n2 t2 n3 t3 [] Hl Hs. simpl in Hl, Hs. subst.
    cbv. done.
Qed.

Lemma applyAnswer_right_clean_witness :
  let w := sampleWord 1 2 (mkDate 100 0) in
  let w' :=
    applyAnswer (mkDate 100 5000) (mkDate 100 5001) w true defaultConfig true in
  config_in_bounds defaultConfig /\
  findLevel defaultConfig (WordItem.levelId w)
    = Some (LevelConfig.mk 1 "Level 1" 3 1) /\
  WordItem.totalRight w' = WordItem.totalRight w + 1 /\
  WordItem.levelId w' = 2 /\
  WordItem.streakCorrect w' = 0 /\
  WordItem.dueAt w' = mkDate 107 0.
Proof.
  cbv zeta.
  set (w := sampleWord 1 2 (mkDate 100 0)).
  assert (config_in_bounds defaultConfig) as Hb.
  { repeat constructor; simpl; lia. }
  split; [exact Hb|]. split; [reflexivity|].
  pose proof (proj1 applyAnswer_right_clean (mkDate 100 5000) (mkDate 100 5001)
                w defaultConfig _ Hb eq_refl) as H.
  cbv zeta in H.
  set (w' := applyAnswer (mkDate 100 5000) (mkDate 100 5001) w true
               defaultConfig true) in *.
  destruct H as (Ht & Hp & _).
  split; [exact Ht|].
  destruct Hp as (lvl' & Hf' & (Hin & Hgt & Hleast) & Hs & Hd).
  { split; [simpl; lia | vm_compute; discriminate]. }
  assert (WordItem.levelId w' = 2) as Hl.
  { assert (WordItem.levelId w' <= 2) by (apply Hleast; [apply (bool_decide_unpack _); vm_compute; exact I
        | change (WordItem.levelId w) with 1; lia]).
    change (WordItem.levelId w) with 1 in Hgt. lia. }
  split; [exact Hl|]. split; [exact Hs|].
  rewrite Hd. rewrite Hl in Hf'.
  injection Hf' as <-. reflexivity.
Defined.

(** A word whose level id lies above every configured id (its level was
    removed from the top of the ladder) is scheduled, on a right answer, by
    the first level of the configuration, and keeps its level id. *)
Lemma applyAnswer_above_max_uses_first (now today : Date) (w : WordItem.t)
    (cfg : AppConfig.t) (l0 : LevelConfig.t) (ls : list LevelConfig.t)
    (clean : bool) :
  levels cfg = l0 :: ls ->
  maxLevel cfg < WordItem.levelId w ->
  let w' := applyAnswer now today w true cfg clean in
  WordItem.levelId w' = WordItem.levelId w /\
  WordItem.dueAt w' =
    toISO (addDays (todayStartLocal today)
             (clampInt (LevelConfig.intervalDays l0) 0 3650)).
Proof.
  intros Hl Hmax. unfold applyAnswer.
  destruct (findLevel cfg (WordItem.levelId w)) as [l|] eqn:Hf.
  { apply findLevel_ids, maxLevel_ge in Hf. lia. }
  rewrite Hl. simpl.
  assert ((WordItem.levelId w <? maxLevel cfg) = false) as ->
    by (apply Z.ltb_ge; lia).
  rewrite andb_false_r. simpl. done.
Qed.

(** C2: a word whose level id is absent from the configuration is not
    scheduled by the nearest configured level.  With the levels 1, 2, 3
    (intervals 1, 7, 30) and a word at level 5, the nearest configured id
    is 3, as [clampToExistingLevel] computes, yet [applyAnswer] takes the
    first configured level: the word is due the next day, not in 30 days,
    and stays at level 5. *)
Theorem applyAnswer_missing_level_uses_first (now today dueAt : Date) :
  let w := sampleWord 5 0 dueAt in
  let w' := applyAnswer now today w true defaultConfig true in
  findLevel defaultConfig (WordItem.levelId w) = None /\
  clampToExistingLevel (WordItem.levelId w) defaultConfig = 3 /\
  (LevelConfig.intervalDays <$> findLevel defaultConfig 3) = Some 30 /\
  WordItem.dueAt w' = toISO (addDays (todayStartLocal today) 1) /\
  WordItem.dueAt w' <> toISO (addDays (todayStartLocal today) 30) /\
  WordItem.levelId w' = 5.
Proof.
  cbv -[Z.add]. repeat split; try reflexivity.
  intros [= H]. lia.
Qed.

(** C9: a word at the maximum configured level keeps its level under any
    number of right answers, clean run or not, and after each of them
    dueAt is the start of that local day plus the level's intervalDays. *)
Theorem applyAnswer_max_level_terminal (cfg : AppConfig.t) (lvl : LevelConfig.t)
    (w : WordItem.t) (runs : list (Date * Date * bool)) (r : Date * Date * bool) :
  WordItem.levelId w = maxLevel cfg ->
  findLevel cfg (WordItem.levelId w) = Some lvl ->
  0 <= LevelConfig.intervalDays lvl <= 3650 ->
  let w' := answerRightRepeatedly cfg (runs ++ [r]) w in
  WordItem.levelId w' = WordItem.levelId w /\
  WordItem.dueAt w' =
    toISO (addDays (todayStartLocal r.1.2) (LevelConfig.intervalDays lvl)).
Proof.
  intros Hmax Hf Hb. simpl. revert w Hmax Hf.
  induction runs as [|r0 runs IH]; intros w Hmax Hf; simpl.
  - by apply applyAnswer_right_at_max.
  - destruct (applyAnswer_right_at_max r0.1.1 r0.1.2 w cfg lvl r0.2 Hmax Hf Hb)
      as [Hl _].
    unfold answerRightRepeatedly in IH.
    destruct (IH (applyAnswer r0.1.1 r0.1.2 w true cfg r0.2)) as [IHl IHd].
    + by rewrite Hl.
    + by rewrite Hl.
    + split; [exact (eq_trans IHl Hl) | exact IHd].
Qed.

Lemma applyAnswer_max_level_terminal_witness :
  let w := sampleWord 3 0 (mkDate 100 0) in
  let runs := [ (mkDate 100 10, mkDate 100 11, true);
                (mkDate 131 10, mkDate 131 11, false) ] in
  let r := (mkDate 170 10, mkDate 170 11, true) in
  let w' := answerRightRepeatedly defaultConfig (runs ++ [r]) w in
  WordItem.levelId w' = 3 /\ WordItem.dueAt w' = mkDate 200 0.
Proof.
  intros w runs r.
  exact (applyAnswer_max_level_terminal defaultConfig
           (LevelConfig.mk 3 "Level 3" 1 30) w runs r
           eq_refl eq_refl ltac:(simpl; lia)).
Defined.

(** C10: whatever the answer, [applyAnswer] keeps id, word, hint,
    definition and createdAt, and adds exactly one to totalRight on a right
    answer, to totalWrong on a wrong one, leaving the other counter as it
    was. *)
Theorem applyAnswer_frame (now today : Date) (w : WordItem.t) (right : bool)
    (cfg : AppConfig.t) (isCleanRun : bool) :
  let w' := applyAnswer now today w right cfg isCleanRun in
  WordItem.id w' = WordItem.id w /\
  WordItem.word w' = WordItem.word w /\
  WordItem.hint w' = WordItem.hint w /\
  WordItem.definition w' = WordItem.definition w /\
  WordItem.createdAt w' = WordItem.createdAt w /\
  if right
  then WordItem.totalRight w' = WordItem.totalRight w + 1 /\
       WordItem.totalWrong w' = WordItem.totalWrong w
  else WordItem.totalWrong w' = WordItem.totalWrong w + 1 /\
       WordItem.totalRight w' = WordItem.totalRight w.
Proof.
  unfold applyAnswer.
  destruct right; simpl.
  - destruct (isCleanRun && _ && _); simpl; repeat split; lia.
  - destruct (wrongResetsStreak cfg), (wrongMakesImmediatelyDue cfg);
      simpl; repeat split; lia.
Qed.
End SrsSpec.

(** ** Versus mode *)

Module VersusSpec.
Import Versus VersusFixtures.

(** [finishGame] on the room it is given: when the side that just finished
    finds the other side's list exhausted too, it finishes the match for
    the side with the strictly higher right-answer count in that room,
    whatever the two cumulative times are; with equal counts the strictly
    lower cumulative time wins. *)
Lemma finishGame_both_done_winner (now : Date) (room : VersusRoom)
    (playerAFinished : bool) (timeA timeB : Z) :
  otherExhausted room playerAFinished ->
  let room' :=
    afterFinishGame now (withTimes timeA timeB room) playerAFinished in
  status room' = finished /\
  (playerBRightCount room < playerARightCount room ->
   winnerId room' = Some (playerAId room)) /\
  (playerARightCount room < playerBRightCount room ->
   winnerId room' = playerBId room) /\
  (playerARightCount room = playerBRightCount room ->
   (timeA < timeB -> winnerId room' = Some (playerAId room)) /\
   (timeB < timeA -> winnerId room' = playerBId room)).
Proof.
  intros Hex. unfold afterFinishGame, finishGame. simpl.
  assert ((Z.of_nat (length (if playerAFinished then playerBWords room
                             else playerAWords room))
           <=? (if playerAFinished then playerBIndex room
                else playerAIndex room)) = true) as ->.
  { apply Z.leb_le. destruct playerAFinished; exact Hex. }
  simpl. split; [done|].
  destruct (Z.ltb_spec (playerBRightCount room) (playerARightCount room));
    destruct (Z.ltb_spec (playerARightCount room) (playerBRightCount room));
    destruct (Z.ltb_spec timeA timeB);
    repeat (split || intro); first [done | lia].
Qed.

Lemma finishGame_both_done_winner_witness :
  otherExhausted duel true /\
  winnerId (afterFinishGame (mkDate 7 900) (withTimes 9000 4000 duel) true)
    = Some "ann".
Proof.
  assert (otherExhausted duel true) as Hex by (simpl; lia).
  split; [exact Hex|].
  destruct (finishGame_both_done_winner (mkDate 7 900) duel true 9000 4000 Hex)
    as (_ & HA & _).
  apply HA. simpl. lia.
Defined.

(** C6: the winner of a match need not be the player with the strictly
    higher right-answer count.  [handleAnswer] books the answer to the last
    word in the store, and [finishGame] then decides on the room of the
    render in which [handleAnswer] was called, where that answer and the
    time of the last turn are missing.  In the match [fullMatch], played
    without an error on the row the store holds at every call, both lists
    are exhausted at the end, Ann has two right answers and the lower
    cumulative time, Ben has one right answer, and Ben is stored as the
    winner. *)
Theorem handleAnswer_winner_misses_last_answer :
  let out := VersusTurn.handleAnswers fullMatch started in
  out.2 = [] /\
  status out.1 = finished /\
  VersusTurn.wordsLeft out.1 true = 0 /\
  VersusTurn.wordsLeft out.1 false = 0 /\
  playerAId out.1 = "ann" /\ playerBId out.1 = Some "ben" /\
  playerARightCount out.1 = 2 /\ playerBRightCount out.1 = 1 /\
  playerATime out.1 = 4900 /\ playerBTime out.1 = 14998 /\
  winnerId out.1 = Some "ben".
Proof. vm_compute. repeat split. Qed.

(** C7: when the side that just finished has a wrong count of exactly 0
    and the other side still has words left, no winner is declared and
    the status is left alone: the turn goes to the other side and the turn
    start time is the current time. *)
Theorem finishGame_flawless_hands_turn (now : Date) (room : VersusRoom)
    (playerAFinished : bool) :
  ~ otherExhausted room playerAFinished ->
  finisherWrongCount room playerAFinished = 0 ->
  finishGame now (Some room) playerAFinished
    = Some (mkUpdates None None (Some (opponentId room playerAFinished))
              (Some (Some now))) /\
  let room' := afterFinishGame now room playerAFinished in
  status room' = status room /\
  winnerId room' = winnerId room /\
  currentTurn room' = opponentId room playerAFinished /\
  turnStartTime room' = Some now.
Proof.
  intros Hne Hw.
  assert (finishGame now (Some room) playerAFinished
          = Some (mkUpdates None None (Some (opponentId room playerAFinished))
                    (Some (Some now)))) as Hfg.
  { unfold finishGame, otherExhausted, finisherWrongCount, opponentId in *.
    destruct playerAFinished.
    - destruct (Z.leb_spec (Z.of_nat (length (playerBWords room)))
                  (playerBIndex room)); [done|].
      by rewrite Hw.
    - destruct (Z.leb_spec (Z.of_nat (length (playerAWords room)))
                  (playerAIndex room)); [done|].
      by rewrite Hw. }
  split; [exact Hfg|].
  unfold afterFinishGame. rewrite Hfg. done.
Qed.

Lemma finishGame_flawless_hands_turn_witness :
  ~ otherExhausted earlyFinish true /\
  finisherWrongCount earlyFinish true = 0 /\
  let room' := afterFinishGame (mkDate 7 900) earlyFinish true in
  status room' = active /\ winnerId room' = None /\
  currentTurn room' = Some "ben" /\ turnStartTime room' = Some (mkDate 7 900).
Proof.
  assert (~ otherExhausted earlyFinish true) as Hne by (simpl; lia).
  split; [exact Hne|]. split; [reflexivity|].
  exact (proj2 (finishGame_flawless_hands_turn (mkDate 7 900) earlyFinish true
                  Hne eq_refl)).
Defined.
End VersusSpec.

(** ** Word selection *)

Module WordSelectionSpec.
Import WordSelection Fixtures.

Lemma generateQuestion_wordId (lc : text -> text) (rnd : RandomSource) (cw : option WordRef)
    (allWords : list WordRef) (q : Question) :
  generateQuestion lc rnd cw allWords = Ok q ->
  exists wd, cw = Some wd /\ wordId q = id wd.
Proof.
  unfold generateQuestion. destruct cw as [wd|]; [|done].
  destruct (generateWrongAnswers lc rnd wd allWords 2) as [wrong|e]; simpl; [|done].
  intros [= <-]. by exists wd.
Qed.

(** Scoring succeeds as soon as both texts have a first character. *)
Lemma scoreWord_nonempty_ok (lc : text -> text) (c k : N) (cs ks : text)
    (random : Q) :
  exists score, scoreWord lc (c :: cs) (k :: ks) random = Ok score.
Proof. unfold scoreWord, scoreBase. simpl. by eexists. Qed.

(** C5: scoring a candidate whose text is empty raises a TypeError,
    whatever the target word and the random draw; with it
    [generateWrongAnswers] and [generateQuestion] raise too, although two
    other words are there to choose from. *)
Theorem scoreWord_empty_candidate_throws (lc : text -> text) (correct : text)
    (random : Q) :
  scoreWord lc [] correct random = Throw TypeError /\
  (let allWords := [w "t" "cat"; w "a" ""; w "b" "dog"; w "c" "cow"] in
   generateWrongAnswers lowerLatin fixedRandom (w "t" "cat") allWords 2 = Throw TypeError /\
   generateQuestion lowerLatin fixedRandom (Some (w "t" "cat")) allWords = Throw TypeError).
Proof.
  split; [reflexivity|]. split; vm_compute; reflexivity.
Qed.
End WordSelectionSpec.

(** ** Reverse mode *)

Module ReverseSpec.
Import WordSelection Reverse Fixtures WordSelectionSpec.

Lemma getReverseRoom_row (db : Db) (roomId : string) (room : ReverseRoom) :
  getReverseRoom db roomId = Some room -> rooms db !! roomId = Some (row room).
Proof.
  unfold getReverseRoom. destruct (rooms db !! roomId) as [r|]; simpl; [|done].
  by intros [= <-].
Qed.

(** The question opened by [advanceToNextQuestion] is built from the game
    word one past the stored question index. *)
Lemma advanceToNextQuestion_target (lc : text -> text) (rnd : RandomSource) (now : Date)
    (db db' : Db) (roomId : string) (allWords : list WordRef) (r r' : RoomRow) :
  rooms db !! roomId = Some r ->
  advanceToNextQuestion lc rnd now db roomId allWords = Ok db' ->
  rooms db' !! roomId = Some r' ->
  status r' = question ->
  current_question_index r' = current_question_index r + 1 /\
  exists wd q,
    nthWord (game_words r) (current_question_index r + 1) = Some wd /\
    current_question r' = Some q /\ wordId q = id wd.
Proof.
  intros Hr. unfold advanceToNextQuestion, getReverseRoom. rewrite Hr. simpl.
  destruct (total_questions r <=? current_question_index r + 1).
  - intros [= <-]. unfold finalizeGame, updateReverseRoom, setRooms. simpl.
    rewrite lookup_alter_eq, Hr. simpl. by intros [= <-].
  - destruct (generateQuestion lc rnd _ allWords) as [q|e] eqn:Hq; simpl; [|done].
    intros [= <-]. unfold updateReverseRoom, setRooms. simpl.
    rewrite lookup_alter_eq, Hr. simpl. intros [= <-] _. simpl.
    split; [done|].
    destruct (generateQuestion_wordId _ _ _ _ _ Hq) as (wd & Hwd & Hid).
    by exists wd, q.
Qed.

(** Whatever the words and the random choices, the question opened by the
    first Advance after Start has index 1 and targets the second game word. *)
Lemma first_advance_after_start (lc : text -> text) (rnd : RandomSource)
    (now : Date) (db db' : Db)
    (roomId : string) (gameWords allWords : list WordRef) (r' : RoomRow) :
  is_Some (rooms db !! roomId) ->
  advanceToNextQuestion lc rnd now (startReverseGame now db roomId gameWords)
    roomId allWords = Ok db' ->
  rooms db' !! roomId = Some r' ->
  status r' = question ->
  current_question_index r' = 1 /\
  exists wd q,
    gameWords !! 1%nat = Some wd /\
    current_question r' = Some q /\ wordId q = id wd.
Proof.
  intros [r Hr] Hadv Hr' Hst.
  assert (exists r0, rooms (startReverseGame now db roomId gameWords) !! roomId
                     = Some r0 /\
                     current_question_index r0 = 0 /\ game_words r0 = gameWords)
    as (r0 & Hr0 & Hidx & Hgw).
  { unfold startReverseGame, setRooms. simpl. rewrite lookup_alter_eq, Hr. simpl.
    by eexists. }
  destruct (advanceToNextQuestion_target _ _ _ _ _ _ _ _ _ Hr0 Hadv Hr' Hst)
    as (Hi & wd & q & Hwd & Hq & Hid).
  rewrite Hidx in Hi, Hwd. rewrite Hgw in Hwd.
  split; [done|]. by exists wd, q.
Qed.

(** C3: after the host's Start and the first Advance the room shows
    question index 1, built from the second word of the game word list;
    nine further Advances open questions on the third to the tenth word
    and end the game, so the first sampled word is never a target. *)
Theorem handleStartGame_opens_second_word :
  let started := handleStartGame lowerLatin fixedRandom t0 lobby "room" "alice" pool in
  let later := advances 9 started in
  (exists r q,
      rooms started !! "room" = Some r /\
      status r = question /\
      map id (game_words r)
        = ["w00"; "w01"; "w02"; "w03"; "w04"; "w05"; "w06"; "w07"; "w08"; "w09"] /\
      total_questions r = 10 /\
      current_question_index r = 1 /\
      current_question r = Some q /\ wordId q = "w01") /\
  (status <$> rooms later.1 !! "room") = Some finished /\
  later.2 = ["w02"; "w03"; "w04"; "w05"; "w06"; "w07"; "w08"; "w09"].
Proof.
  split; [|split; vm_compute; reflexivity].
  eexists _, _. repeat split; vm_compute; reflexivity.
Qed.

Lemma insertAnswer_dup (db : Db) (a : AnswerRow) :
  Exists (sameKey (a_room_id a) (question_index a) (a_user_id a)) (answers db) ->
  insertAnswer db a = None.
Proof.
  intros H. unfold insertAnswer. by rewrite bool_decide_eq_true_2.
Qed.


(** Two submissions for the same key, the first one into a store without a
    row for it: one row is stored, and the second submission changes
    nothing, whatever it selects. *)
Lemma submitAnswer_twice_one_row (db db1 : Db) (roomId : string)
    (questionIndex : Z) (userId sel1 sel2 : string) (time1 time2 : Z) :
  ~ Exists (sameKey roomId questionIndex userId) (answers db) ->
  submitAnswer db roomId questionIndex userId sel1 time1 = Ok db1 ->
  length (filter (sameKey roomId questionIndex userId) (answers db1)) = 1%nat /\
  submitAnswer db1 roomId questionIndex userId sel2 time2 = Ok db1.
Proof.
  intros Hfresh. unfold submitAnswer at 1.
  destruct (getReverseRoom db roomId ≫= _) as [cq|] eqn:Hcq; [|done].
  unfold insertAnswer. simpl. rewrite bool_decide_eq_false_2 by done.
  set (row1 := mkAnswer roomId questionIndex userId sel1 _ false _ time1).
  intros Hdb1.
  assert (rooms db1 = rooms db /\ answers db1 = answers db ++ [row1])
    as (Hrooms & Hanswers).
  { destruct (bool_decide (sel1 = wordId cq)); injection Hdb1 as <-; done. }
  assert (sameKey roomId questionIndex userId row1) as Hkey by done.
  split.
  - rewrite Hanswers, filter_app, length_app.
    assert (filter (sameKey roomId questionIndex userId) (answers db) = [])
      as ->.
    { apply elem_of_nil_inv. intros a [Hk Ha]%list_elem_of_filter.
      apply Hfresh, Exists_exists. by exists a. }
    rewrite filter_cons, decide_True by done. done.
  - assert (getReverseRoom db1 roomId ≫= (fun room => current_question (row room))
            = Some cq) as Hcq1.
    { unfold getReverseRoom in *. rewrite Hrooms.
      destruct (rooms db !! roomId); simpl in *; done. }
    unfold submitAnswer. rewrite Hcq1.
    rewrite insertAnswer_dup; [done|]. simpl.
    rewrite Hanswers. apply Exists_app. right. by constructor.
Qed.


Lemma filter_fmap_stable {A : Type} (P : A -> Prop) `{!forall x, Decision (P x)}
    (f : A -> A) (l : list A) :
  (forall x, P (f x) <-> P x) -> filter P (f <$> l) = f <$> filter P l.
Proof.
  intros Hf. induction l as [|x l IH]; [done|].
  rewrite fmap_cons, !filter_cons.
  destruct (decide (P (f x))) as [Hy|Hn], (decide (P x)) as [Hy'|Hn'];
    rewrite ?fmap_cons, IH; try done.
  - destruct Hn'. by apply (Hf x).
  - destruct Hn. by apply (Hf x).
Qed.

Lemma markRow_keeps (roomId : string) (questionIndex : Z) (userId : string)
    (a : AnswerRow) :
  let a' := markRow roomId questionIndex userId a in
  a_room_id a' = a_room_id a /\ question_index a' = question_index a /\
  a_user_id a' = a_user_id a /\ is_correct a' = is_correct a.
Proof. unfold markRow. by case_bool_decide. Qed.

Lemma bumpRow_keeps (roomId userId : string) (points : Z) (p : PlayerRow) :
  let p' := bumpRow roomId userId points p in
  p_room_id p' = p_room_id p /\ p_user_id p' = p_user_id p.
Proof. unfold bumpRow. by case_bool_decide. Qed.

(** The answers to a question after the bonus has been recorded: the same
    rows, one of them marked. *)
Lemma questionAnswers_mark (db : Db) (roomId : string) (questionIndex : Z)
    (userId : string) :
  questionAnswers (markOnlyCorrect db roomId questionIndex userId)
    roomId questionIndex
  = markRow roomId questionIndex userId <$>
      questionAnswers db roomId questionIndex.
Proof.
  unfold questionAnswers, markOnlyCorrect. simpl.
  apply (filter_fmap_stable _ (markRow roomId questionIndex userId)).
  intros a. destruct (markRow_keeps roomId questionIndex userId a)
    as (-> & -> & _). done.
Qed.

Lemma correct_mark (roomId : string) (questionIndex : Z) (userId : string)
    (l : list AnswerRow) :
  filter (fun a => is_correct a = true) (markRow roomId questionIndex userId <$> l)
  = markRow roomId questionIndex userId <$> filter (fun a => is_correct a = true) l.
Proof.
  apply (filter_fmap_stable _ (markRow roomId questionIndex userId)).
  intros a. destruct (markRow_keeps roomId questionIndex userId a)
    as (_ & _ & _ & ->). done.
Qed.

Lemma seated_after_bump (l : list PlayerRow) (roomId userId : string) (points : Z) :
  length (filter (fun p => p_room_id p = roomId) (bumpRow roomId userId points <$> l))
  = length (filter (fun p => p_room_id p = roomId) l).
Proof.
  rewrite (filter_fmap_stable _ (bumpRow roomId userId points)).
  - by rewrite length_fmap.
  - intros p. destruct (bumpRow_keeps roomId userId points p) as [-> _]. done.
Qed.

Lemma playerScore_bump (db : Db) (roomId userId : string) (points : Z) :
  playerScore (increment_reverse_score db roomId userId points) roomId userId
  = (fun s => s + points) <$> playerScore db roomId userId.
Proof.
  unfold playerScore, increment_reverse_score. simpl.
  rewrite (filter_fmap_stable _ (bumpRow roomId userId points)).
  - rewrite <- !list_fmap_compose. apply Forall_fmap_ext_1, Forall_forall.
    intros p [Hp _]%list_elem_of_filter. simpl. unfold bumpRow.
    by rewrite bool_decide_eq_true_2.
  - intros p. destruct (bumpRow_keeps roomId userId points p) as [-> ->]. done.
Qed.

(** What one call does, by the number of answers and of correct ones. *)
Lemma checkAllAnswers_waits (now : Date) (db : Db) (roomId : string)
    (questionIndex : Z) (room : ReverseRoom) :
  getReverseRoom db roomId = Some room ->
  (length (questionAnswers db roomId questionIndex) < length (roomPlayers room))%nat ->
  checkAllAnswersAndCalculateBonus now db roomId questionIndex = (db, false).
Proof.
  intros Hroom Hlen. unfold checkAllAnswersAndCalculateBonus. rewrite Hroom.
  by rewrite (proj2 (Nat.ltb_lt _ _) Hlen).
Qed.

Lemma checkAllAnswers_bonus (now : Date) (db : Db) (roomId : string)
    (questionIndex : Z) (room : ReverseRoom) (a : AnswerRow) :
  getReverseRoom db roomId = Some room ->
  (length (roomPlayers room) <= length (questionAnswers db roomId questionIndex))%nat ->
  filter (fun a => is_correct a = true) (questionAnswers db roomId questionIndex)
    = [a] ->
  checkAllAnswersAndCalculateBonus now db roomId questionIndex
  = (updateReverseRoom now
       (increment_reverse_score
          (markOnlyCorrect db roomId questionIndex (a_user_id a))
          roomId (a_user_id a) 1)
       roomId (mkUpdates (Some results) None None None),
     true).
Proof.
  intros Hroom Hlen Hone. unfold checkAllAnswersAndCalculateBonus.
  rewrite Hroom, (proj2 (Nat.ltb_ge _ _) Hlen). by rewrite Hone.
Qed.

Lemma checkAllAnswers_no_bonus (now : Date) (db : Db) (roomId : string)
    (questionIndex : Z) (room : ReverseRoom) :
  getReverseRoom db roomId = Some room ->
  (length (roomPlayers room) <= length (questionAnswers db roomId questionIndex))%nat ->
  length (filter (fun a => is_correct a = true)
            (questionAnswers db roomId questionIndex)) <> 1%nat ->
  checkAllAnswersAndCalculateBonus now db roomId questionIndex
  = (updateReverseRoom now db roomId (mkUpdates (Some results) None None None),
     true).
Proof.
  intros Hroom Hlen Hone. unfold checkAllAnswersAndCalculateBonus.
  rewrite Hroom, (proj2 (Nat.ltb_ge _ _) Hlen).
  by destruct (filter _ _) as [|a [|b l]].
Qed.

(** Once the bonus has been given, every condition for giving it holds
    again: a second call gives it again. *)
Lemma checkAllAnswers_bonus_repeats (now1 now2 : Date) (db : Db) (roomId : string)
    (questionIndex : Z) (room : ReverseRoom) (a : AnswerRow) :
  getReverseRoom db roomId = Some room ->
  (length (roomPlayers room) <= length (questionAnswers db roomId questionIndex))%nat ->
  filter (fun a => is_correct a = true) (questionAnswers db roomId questionIndex)
    = [a] ->
  let first := checkAllAnswersAndCalculateBonus now1 db roomId questionIndex in
  let second := checkAllAnswersAndCalculateBonus now2 first.1 roomId questionIndex in
  first.2 = true /\ second.2 = true /\
  playerScore first.1 roomId (a_user_id a)
    = (fun s => s + 1) <$> playerScore db roomId (a_user_id a) /\
  playerScore second.1 roomId (a_user_id a)
    = (fun s => s + 1) <$> playerScore first.1 roomId (a_user_id a).
Proof.
  intros Hroom Hlen Hone first second.
  pose proof (getReverseRoom_row _ _ _ Hroom) as Hrow.
  assert (first = (updateReverseRoom now1
                     (increment_reverse_score
                        (markOnlyCorrect db roomId questionIndex (a_user_id a))
                        roomId (a_user_id a) 1)
                     roomId (mkUpdates (Some results) None None None), true))
    as Hfirst by (by apply (checkAllAnswers_bonus _ _ _ _ room)).
  set (db1 := first.1).
  assert (players db1 = bumpRow roomId (a_user_id a) 1 <$> players db) as Hp1
    by (subst db1; by rewrite Hfirst).
  assert (answers db1
          = markRow roomId questionIndex (a_user_id a) <$> answers db) as Ha1
    by (subst db1; by rewrite Hfirst).
  assert (exists room1,
             getReverseRoom db1 roomId = Some room1 /\
             length (roomPlayers room1) = length (roomPlayers room))
    as (room1 & Hroom1 & Hseats).
  { unfold getReverseRoom in *. subst db1. rewrite Hfirst. simpl.
    rewrite lookup_alter_eq, Hrow. simpl. eexists. split; [done|]. simpl.
    rewrite Hrow in Hroom. simpl in Hroom. injection Hroom as <-. simpl.
    rewrite !stableSort_length. apply seated_after_bump. }
  assert (questionAnswers db1 roomId questionIndex
          = markRow roomId questionIndex (a_user_id a) <$>
              questionAnswers db roomId questionIndex) as Hq1.
  { rewrite <- questionAnswers_mark. unfold questionAnswers.
    by rewrite Ha1. }
  assert (second = (updateReverseRoom now2
                      (increment_reverse_score
                         (markOnlyCorrect db1 roomId questionIndex (a_user_id a))
                         roomId (a_user_id a) 1)
                      roomId (mkUpdates (Some results) None None None), true))
    as Hsecond.
  { subst second. fold db1.
    destruct (markRow_keeps roomId questionIndex (a_user_id a) a)
      as (_ & _ & Hu & _). rewrite <- Hu.
    apply (checkAllAnswers_bonus _ _ _ _ room1); [done| |].
    - by rewrite Hseats, Hq1, length_fmap.
    - by rewrite Hq1, correct_mark, Hone. }
  split; [by rewrite Hfirst|]. split; [by rewrite Hsecond|]. split.
  - fold db1. unfold playerScore. rewrite Hp1.
    apply (playerScore_bump db roomId (a_user_id a) 1).
  - rewrite Hsecond. simpl.
    apply (playerScore_bump
             (markOnlyCorrect db1 roomId questionIndex (a_user_id a))).
Qed.

(** C4: with two seated players who have both answered question 1, one of
    them correctly, [checkAllAnswersAndCalculateBonus] sets that player's
    answer row to 2 points and adds one to the score (1 to 2); run again for
    the same question it adds one more (2 to 3). *)
Theorem checkAllAnswers_rerun_awards_again :
  let first := checkAllAnswersAndCalculateBonus t0 answeredAll "room" 1 in
  let second := checkAllAnswersAndCalculateBonus t0 first.1 "room" 1 in
  playerScore answeredAll "room" "alice" = [1] /\
  first.2 = true /\
  playerScore first.1 "room" "alice" = [2] /\
  map (fun a => (a_user_id a, is_correct a, was_only_correct a, points_earned a))
    (answers first.1)
    = [("alice", true, true, 2); ("bob", false, false, 0)] /\
  (status <$> rooms first.1 !! "room") = Some results /\
  second.2 = true /\
  playerScore second.1 "room" "alice" = [3] /\
  playerScore second.1 "room" "bob" = [0].
Proof.
  repeat split; vm_compute; reflexivity.
Qed.
End ReverseSpec.

(** * Further properties of the code *)

(** ** Order and stability of the stable sort *)

Section StableSortOrder.
Context {A : Type} (leb : A -> A -> bool).
Hypothesis leb_total : forall a b, leb a b = true \/ leb b a = true.
Hypothesis leb_trans :
  forall a b c, leb a b = true -> leb b c = true -> leb a c = true.

Lemma insertSorted_sorted (x : A) (l : list A) :
  StronglySorted (fun a b => leb a b = true) l ->
  StronglySorted (fun a b => leb a b = true) (insertSorted leb x l).
Proof.
  induction 1 as [|y l Hs IH Hall]; simpl.
  - repeat constructor.
  - destruct (leb x y) eqn:Hxy.
    + constructor; [by constructor|].
      constructor; [done|].
      eapply Forall_impl; [exact Hall|]. intros z Hz. by eapply leb_trans.
    + constructor; [done|].
      rewrite (insertSorted_Permutation leb x l).
      constructor; [|done].
      destruct (leb_total x y) as [Hc|Hc]; [congruence | done].
Qed.

Lemma stableSort_sorted (l : list A) :
  StronglySorted (fun a b => leb a b = true) (stableSort leb l).
Proof.
  induction l as [|x l IH]; simpl; [constructor|].
  by apply insertSorted_sorted.
Qed.
End StableSortOrder.

Section StableSortStable.
Context {A : Type} (leb : A -> A -> bool) (P : A -> Prop) `{!forall x, Decision (P x)}.
Hypothesis same_class : forall x y, P x -> P y -> leb x y = true.

(** Elements that the comparator does not tell apart keep their order. *)
Lemma insertSorted_filter (x : A) (l : list A) :
  filter P (insertSorted leb x l) = filter P (x :: l).
Proof.
  induction l as [|y l IH]; simpl; [done|].
  destruct (leb x y) eqn:Hxy; [done|].
  rewrite filter_cons, IH, !filter_cons.
  destruct (decide (P y)) as [Hy|Hy]; [|done].
  destruct (decide (P x)) as [Hx|Hx]; [|done].
  rewrite (same_class x y Hx Hy) in Hxy. done.
Qed.

Lemma stableSort_filter (l : list A) : filter P (stableSort leb l) = filter P l.
Proof.
  induction l as [|x l IH]; simpl; [done|].
  by rewrite insertSorted_filter, !filter_cons, IH.
Qed.
End StableSortStable.

Lemma stableSort_sorted_id {A : Type} (leb : A -> A -> bool) (l : list A) :
  StronglySorted (fun a b => leb a b = true) l -> stableSort leb l = l.
Proof.
  induction 1 as [|x l Hs IH Hall]; simpl; [done|].
  rewrite IH. destruct l as [|y l']; simpl; [done|].
  apply Forall_cons in Hall as [Hxy _]. by rewrite Hxy.
Qed.

Lemma StronglySorted_weaken {A : Type} (R S : A -> A -> Prop) (l : list A) :
  (forall a b, R a b -> S a b) -> StronglySorted R l -> StronglySorted S l.
Proof.
  intros HRS. induction 1 as [|x l Hs IH Hall]; constructor; [done|].
  eapply Forall_impl; [exact Hall|]. intros y. apply HRS.
Qed.

Lemma find_head_filter {A : Type} (f : A -> bool) (l : list A) :
  List.find f l = head (filter (fun x => f x = true) l).
Proof.
  induction l as [|x l IH]; simpl; [done|].
  rewrite filter_cons. destruct (decide (f x = true)) as [Hf|Hf].
  - by rewrite Hf.
  - destruct (f x); [done | exact IH].
Qed.

(** ** The level ladder *)

Module LadderProps.
Import AppConfig Srs SrsFacts.

Lemma sortedIds_nil (cfg : AppConfig.t) : levelIds cfg = [] -> sortedIds cfg = [].
Proof. unfold sortedIds. by intros ->. Qed.

Lemma sortedIds_last (cfg : AppConfig.t) :
  levelIds cfg <> [] -> last (sortedIds cfg) = Some (maxLevel cfg).
Proof.
  intros Hne.
  pose proof (stableSort_Z_sorted (levelIds cfg)) as Hs.
  pose proof (stableSort_elem_of Z.leb (levelIds cfg)) as Hel.
  fold (sortedIds cfg) in Hs, Hel.
  destruct (last (sortedIds cfg)) as [m|] eqn:Hlast.
  - f_equal. apply Z.le_antisymm.
    + apply maxLevel_ge, Hel. by eapply last_Some_elem_of.
    + apply (sorted_last_greatest _ _ Hs Hlast), Hel. by apply maxLevel_elem.
  - apply last_None in Hlast. destruct (levelIds cfg) as [|a l]; [done|].
    assert (a ∈ @nil Z) as Ha by (rewrite <- Hlast; apply Hel; left).
    by apply elem_of_nil in Ha.
Qed.

(** X1: [nextHigherLevelId] returns the least configured id above the
    current one when there is one, the greatest configured id when there is
    none, and the current id itself when no level is configured. *)
Theorem nextHigherLevelId_spec (current : Z) (cfg : AppConfig.t) :
  let next := nextHigherLevelId current cfg in
  ((exists i, i ∈ levelIds cfg /\ current < i) ->
   is_next_higher cfg current next) /\
  (levelIds cfg <> [] -> (forall i, i ∈ levelIds cfg -> i <= current) ->
   next = maxLevel cfg) /\
  (levelIds cfg = [] -> next = current).
Proof.
  simpl. split; [|split].
  - intros (i & Hi & Hlt). apply nextHigherLevelId_least.
    + pose proof (maxLevel_ge cfg i Hi). lia.
    + intros E. rewrite E in Hi. by apply elem_of_nil in Hi.
  - intros Hne Hall. unfold nextHigherLevelId.
    destruct (List.find _ (sortedIds cfg)) as [x|] eqn:Hf.
    + destruct (find_above_least current (sortedIds cfg) x) as (Hx & Hcx & _);
        [apply stableSort_Z_sorted | done |].
      unfold sortedIds in Hx. rewrite stableSort_elem_of in Hx.
      specialize (Hall x Hx). lia.
    + by rewrite sortedIds_last.
  - intros Hnil. unfold nextHigherLevelId. by rewrite (sortedIds_nil _ Hnil).
Qed.

(** Among the ids at the least distance, the loop of
    [clampToExistingLevel] keeps the first one it meets. *)
Lemma closest_fold_low (target : Z) (l : list Z) (best : Z) :
  StronglySorted Z.le (best :: l) ->
  let r :=
    foldl (fun (acc : Z * Z) (i : Z) =>
             let d := Z.abs (i - target) in
             if d <? snd acc then (i, d) else acc)
      (best, Z.abs (best - target)) l in
  (fst r = best \/ Z.abs (fst r - target) < Z.abs (best - target)) /\
  forall i, i ∈ best :: l ->
    Z.abs (i - target) = Z.abs (fst r - target) -> fst r <= i.
Proof.
  revert best. induction l as [|x l IH]; intros best Hs; simpl.
  - split; [by left|]. intros i [->|Hi]%elem_of_cons _; [lia|].
    by apply elem_of_nil in Hi.
  - cbv zeta in IH.
    apply StronglySorted_inv in Hs as [Hs Hbest].
    apply Forall_cons in Hbest as [Hbx Hbl].
    destruct (Z.ltb_spec (Z.abs (x - target)) (Z.abs (best - target)))
      as [Hlt|Hge]; simpl.
    + destruct (IH x Hs) as [Hr Htie]. split.
      * right. destruct Hr as [Hr|Hr]; [rewrite Hr|]; lia.
      * intros i [->|Hi]%elem_of_cons Hd; [|by apply Htie].
        destruct Hr as [Hr|Hr]; [rewrite Hr in Hd|]; lia.
    + assert (StronglySorted Z.le (best :: l)) as Hs'.
      { apply StronglySorted_inv in Hs as [Hs _]. by constructor. }
      destruct (IH best Hs') as [Hr Htie]. split; [exact Hr|].
      intros i [->|[->|Hi]%elem_of_cons]%elem_of_cons Hd.
      * apply Htie; [left | done].
      * destruct Hr as [Hr|Hr]; [rewrite Hr; lia | lia].
      * apply Htie; [by right | done].
Qed.

(** X2: [clampToExistingLevel] leaves a configured id alone; otherwise it
    returns a configured id at the least distance from the given one, the
    lower one when two are equally near; with no level configured it
    returns 1. *)
Theorem clampToExistingLevel_spec (levelId : Z) (cfg : AppConfig.t) :
  let c := clampToExistingLevel levelId cfg in
  (levelIds cfg = [] -> c = 1) /\
  (levelId ∈ levelIds cfg -> c = levelId) /\
  (levelIds cfg <> [] ->
   c ∈ levelIds cfg /\
   forall i, i ∈ levelIds cfg ->
     Z.abs (c - levelId) <= Z.abs (i - levelId) /\
     (Z.abs (i - levelId) = Z.abs (c - levelId) -> c <= i)).
Proof.
  simpl. split; [|split].
  - intros Hnil. unfold clampToExistingLevel.
    rewrite bool_decide_eq_false_2, (sortedIds_nil _ Hnil); [done|].
    rewrite Hnil. apply not_elem_of_nil.
  - intros Hin. unfold clampToExistingLevel. by rewrite bool_decide_eq_true_2.
  - intros Hne.
    destruct (clampToExistingLevel_nearest levelId cfg Hne) as [Hc Hmin].
    split; [exact Hc|]. intros i Hi. split; [by apply Hmin|].
    revert Hc Hmin. unfold clampToExistingLevel.
    case_bool_decide as Hin; [intros; lia|].
    pose proof (stableSort_Z_sorted (levelIds cfg)) as Hs.
    pose proof (stableSort_elem_of Z.leb (levelIds cfg)) as Hel.
    fold (sortedIds cfg) in Hs, Hel.
    apply Hel in Hi.
    destruct (sortedIds cfg) as [|mn rest] eqn:Hsorted;
      [by apply elem_of_nil in Hi|].
    pose proof (sorted_head_least _ _ Hs) as Hleast.
    destruct (Z.ltb_spec levelId mn) as [Hlo|Hlo].
    { intros _ _ _. by apply Hleast. }
    destruct (last (mn :: rest)) as [mx|] eqn:Hlast; simpl.
    + pose proof (sorted_last_greatest _ _ Hs Hlast) as Hgreatest.
      destruct (Z.ltb_spec mx levelId) as [Hhi|Hhi].
      * intros _ _ Hd. specialize (Hgreatest i Hi). lia.
      * intros _ _ Hd.
        assert (StronglySorted Z.le (mn :: mn :: rest)) as Hs2.
        { constructor; [done|]. constructor; [lia|].
          apply StronglySorted_inv in Hs as [_ Hall]. exact Hall. }
        destruct (closest_fold_low levelId (mn :: rest) mn Hs2) as [_ Htie].
        apply Htie; [by right | exact Hd].
    + by apply last_None in Hlast.
Qed.
End LadderProps.

(** ** JavaScript numbers *)

Module JsFacts.

Lemma Qle_bool_int (a b : Z) : Qle_bool (inject_Z a) (inject_Z b) = (a <=? b).
Proof. unfold Qle_bool. simpl. by rewrite !Z.mul_1_r. Qed.

Lemma trunc_int (z : Z) : Js.trunc (Js.int z) = Js.int z.
Proof. unfold Js.trunc, Js.int. simpl. by rewrite Z.quot_1_r. Qed.

Lemma asInt_int (z : Z) : Js.asInt (Js.int z) = Some z.
Proof. unfold Js.asInt, Js.int. simpl. by rewrite Z.mod_1_r, Z.div_1_r. Qed.

Lemma max_int (a b : Z) : Js.max (Js.int a) (Js.int b) = Js.int (Z.max a b).
Proof.
  unfold Js.max, Js.int. rewrite Qle_bool_int.
  destruct (Z.leb_spec a b); f_equal; f_equal; lia.
Qed.

Lemma min_int (a b : Z) : Js.min (Js.int a) (Js.int b) = Js.int (Z.min a b).
Proof.
  unfold Js.min, Js.int. rewrite Qle_bool_int.
  destruct (Z.leb_spec a b); f_equal; f_equal; lia.
Qed.

(** [Js.clampInt] at an integer is the integer clamp. *)
Lemma clampInt_int (z lo hi : Z) :
  Js.clampInt (Js.int z) lo hi = Js.int (clampInt z lo hi).
Proof.
  unfold Js.clampInt, clampInt. by rewrite trunc_int, max_int, min_int.
Qed.

(** [Js.clampInt] gives [Js.NaN] for [Js.NaN] and for nothing else; every other
    result is an integer between the bounds. *)
Lemma clampInt_cases (n : Js.number) (lo hi : Z) :
  lo <= hi ->
  (n = Js.NaN /\ Js.clampInt n lo hi = Js.NaN) \/
  (n <> Js.NaN /\ exists z, Js.clampInt n lo hi = Js.int z /\ lo <= z <= hi).
Proof.
  intros Hle. destruct n as [q| | |].
  - right. split; [done|]. unfold Js.clampInt. simpl Js.trunc.
    rewrite max_int, min_int. eexists. split; [done|]. lia.
  - by left.
  - right. split; [done|]. exists hi. split; [done | lia].
  - right. split; [done|]. exists lo. unfold Js.clampInt. simpl Js.trunc.
    change (Js.max (Js.int lo) Js.NegInf) with (Js.int lo). rewrite min_int.
    split; [f_equal; f_equal; lia | lia].
Qed.

Lemma clampInt_fixed (n : Js.number) (lo hi : Z) :
  lo <= hi ->
  n = Js.NaN \/ (exists z, n = Js.int z /\ lo <= z <= hi) ->
  Js.clampInt n lo hi = n.
Proof.
  intros Hle [->|(z & -> & Hz)]; [done|].
  rewrite clampInt_int. unfold clampInt. f_equal. lia.
Qed.
End JsFacts.

(** ** Normalising a configuration *)

Module NormalizeProps.
Import Normalize.

Lemma normalizeLevel_normal (co : Js.Coercions) (i : nat) (l : RawLevel) :
  normal (normalizeLevel co i l).
Proof.
  split; simpl.
  - destruct (JsFacts.clampInt_cases
                (Js.toNumber co
                   (Js.orDefault (rawPromoteAfterCorrect l) (Js.Num (Js.int 1))))
                1 99) as [[_ ->]|(_ & z & -> & Hz)]; [lia | by left | right; eauto].
  - destruct (JsFacts.clampInt_cases
                (Js.toNumber co
                   (Js.orDefault (rawIntervalDays l) (Js.Num (Js.int 0))))
                0 3650) as [[_ ->]|(_ & z & -> & Hz)]; [lia | by left | right; eauto].
Qed.

Lemma normalizeLevels_spec (co : Js.Coercions) (i : nat)
    (ls : list (option RawLevel)) :
  match normalizeLevels co i ls with
  | Ok out =>
      exists raws, ls = Some <$> raws /\
        out = imap (fun j => normalizeLevel co (i + j)) raws
  | Throw e => e = TypeError /\ None ∈ ls
  end.
Proof.
  revert i. induction ls as [|[l|] ls IH]; intros i; simpl.
  - by exists [].
  - specialize (IH (S i)).
    destruct (normalizeLevels co (S i) ls) as [rest|e]; simpl.
    + destruct IH as (raws & -> & ->). exists (l :: raws). split; [done|].
      simpl. rewrite Nat.add_0_r. f_equal. apply imap_ext.
      intros j x _. simpl. f_equal. lia.
    + destruct IH as [-> Hin]. split; [done | by right].
  - split; [done | left].
Qed.

Lemma uniqueLevels_sublist (seen : gset Z) (ls : list Level) :
  uniqueLevels seen ls ⊆ ls.
Proof.
  revert seen. induction ls as [|l ls IH]; intros seen; simpl; [done|].
  case_bool_decide.
  - intros x Hx. right. by apply (IH seen).
  - intros x [->|Hx]%elem_of_cons; [left | right; by eapply IH].
Qed.

Lemma uniqueLevels_fresh (seen : gset Z) (ls : list Level) (l : Level) :
  l ∈ uniqueLevels seen ls -> id l ∉ seen.
Proof.
  revert seen. induction ls as [|l0 ls IH]; intros seen; simpl.
  - intros H. by apply elem_of_nil in H.
  - case_bool_decide as Hseen.
    + apply IH.
    + intros [->|Hx]%elem_of_cons; [done|].
      apply IH in Hx. intros Hin. apply Hx. by apply elem_of_union_r.
Qed.

Lemma uniqueLevels_NoDup (seen : gset Z) (ls : list Level) :
  NoDup (id <$> uniqueLevels seen ls).
Proof.
  revert seen. induction ls as [|l ls IH]; intros seen; simpl; [constructor|].
  case_bool_decide as Hseen; [apply IH|].
  rewrite fmap_cons. constructor; [|apply IH].
  intros (l' & Hid & Hl')%list_elem_of_fmap.
  apply uniqueLevels_fresh in Hl'. apply Hl'.
  apply elem_of_union_l, elem_of_singleton. done.
Qed.

Lemma uniqueLevels_sorted (R : relation Level) (seen : gset Z) (ls : list Level) :
  StronglySorted R ls -> StronglySorted R (uniqueLevels seen ls).
Proof.
  intros Hs. revert seen.
  induction Hs as [|l ls Hs IH Hall]; intros seen; simpl; [constructor|].
  case_bool_decide; [apply IH|].
  constructor; [apply IH|].
  apply Forall_forall. intros x Hx%uniqueLevels_sublist.
  rewrite Forall_forall in Hall. by apply Hall.
Qed.

Lemma uniqueLevels_fixed (seen : gset Z) (ls : list Level) :
  NoDup (id <$> ls) ->
  (forall l, l ∈ ls -> id l ∉ seen) ->
  uniqueLevels seen ls = ls.
Proof.
  revert seen. induction ls as [|l ls IH]; intros seen Hnd Hfresh; simpl; [done|].
  rewrite fmap_cons in Hnd. apply NoDup_cons in Hnd as [Hl Hnd].
  rewrite bool_decide_eq_false_2 by (apply Hfresh; left).
  f_equal. apply IH; [done|].
  intros l' Hl'.
  assert (id l' ∉ seen) by (apply Hfresh; by right).
  assert (id l' <> id l).
  { intros E. apply Hl. rewrite <- E. apply list_elem_of_fmap. by exists l'. }
  intros [?%elem_of_singleton|?]%elem_of_union; done.
Qed.

Lemma uniqueLevels_nonempty (ls : list Level) :
  ls <> [] -> uniqueLevels ∅ ls <> [].
Proof.
  destruct ls as [|l ls]; [done|]. intros _. simpl.
  rewrite bool_decide_eq_false_2; [done|]. apply not_elem_of_empty.
Qed.

Lemma idLeb_total (a b : Level) :
  (id a <=? id b) = true \/ (id b <=? id a) = true.
Proof. lia. Qed.

Lemma idLeb_trans (a b c : Level) :
  (id a <=? id b) = true -> (id b <=? id c) = true -> (id a <=? id c) = true.
Proof. lia. Qed.

Lemma defaultLevels_normal : Forall normal defaultLevels.
Proof.
  unfold defaultLevels. simpl.
  repeat (apply Forall_cons_2;
          [split; right; eexists; (split; [reflexivity | simpl; lia])|]).
  apply Forall_nil_2.
Qed.

(** Sorted by id without a repeated id is sorted strictly. *)
Lemma sorted_NoDup_lt (ls : list Level) :
  StronglySorted (fun a b => (id a <=? id b) = true) ls ->
  NoDup (id <$> ls) -> StronglySorted Z.lt (id <$> ls).
Proof.
  intros Hs. induction Hs as [|l ls Hs IH Hall]; intros Hnd; simpl; [constructor|].
  rewrite fmap_cons in Hnd. apply NoDup_cons in Hnd as [Hl Hnd].
  constructor; [by apply IH|].
  apply Forall_fmap, Forall_forall. intros x Hx.
  rewrite Forall_forall in Hall. specialize (Hall x Hx). simpl in Hall.
  assert (id x <> id l).
  { intros E. apply Hl. rewrite <- E. apply list_elem_of_fmap. by exists x. }
  simpl. lia.
Qed.

(** What [normalizeConfig] returns, step by step. *)
Lemma normalizeConfig_Ok (co : Js.Coercions) (raw : RawConfig) (c : Config) :
  normalizeConfig co raw = Ok c ->
  exists raws,
    default ((fun l => Some (toRawLevel l)) <$> defaultLevels) (rawLevels raw)
      = Some <$> raws /\
    let mapped := imap (normalizeLevel co) raws in
    let unique :=
      uniqueLevels ∅ (stableSort (fun a b => id a <=? id b) mapped) in
    levels c = (if bool_decide (raws = []) then defaultLevels else unique) /\
    (raws <> [] -> unique <> []) /\
    wrongMakesImmediatelyDue c = Js.truthy (rawWrongMakesImmediatelyDue raw) /\
    wrongResetsStreak c = Js.truthy (rawWrongResetsStreak raw).
Proof.
  unfold normalizeConfig.
  set (given := match rawLevels raw with Some ls => ls | None => _ end).
  pose proof (normalizeLevels_spec co 0 given) as H.
  destruct (normalizeLevels co 0 given) as [mapped|e]; simpl; [|done].
  destruct H as (raws & Hgiven & ->). intros [= <-]. exists raws.
  split; [by destruct (rawLevels raw)|]. simpl.
  assert (raws <> [] ->
          uniqueLevels ∅ (stableSort (fun a b => id a <=? id b)
                            (imap (normalizeLevel co) raws)) <> []) as Hne.
  { intros Hraws. apply uniqueLevels_nonempty. intros E.
    apply (f_equal length) in E. rewrite stableSort_length, length_imap in E.
    by destruct raws. }
  split; [|done].
  case_bool_decide as Hraws.
  - subst raws. done.
  - specialize (Hne Hraws). by destruct (uniqueLevels _ _).
Qed.

(** A level within the bounds is normalised to itself, at any position. *)
Lemma normalizeLevel_fixed (co : Js.Coercions) (i : nat) (l : Level) :
  normal l -> normalizeLevel co i (toRawLevel l) = l.
Proof.
  intros [Hp Hd]. destruct l as [n s p d]. unfold normalizeLevel. simpl in *.
  rewrite Z.quot_1_r.
  rewrite (JsFacts.clampInt_fixed p 1 99), (JsFacts.clampInt_fixed d 0 3650);
    [done | lia | done | lia | done].
Qed.

Lemma normalizeLevels_Some (co : Js.Coercions) (i : nat) (raws : list RawLevel) :
  normalizeLevels co i (Some <$> raws)
  = Ok (imap (fun j => normalizeLevel co (i + j)) raws).
Proof.
  pose proof (normalizeLevels_spec co i (Some <$> raws)) as H.
  destruct (normalizeLevels co i (Some <$> raws)) as [out|e].
  - destruct H as (raws' & E & ->). by apply (inj (fmap Some)) in E as <-.
  - destruct H as [_ (x & E & _)%list_elem_of_fmap]. done.
Qed.

Lemma typedLevel_Some (l : Level) (t : LevelConfig.t) :
  normal l -> typedLevel l = Some t ->
  LevelConfig.id t = id l /\ Srs.level_in_bounds t.
Proof.
  intros [Hp Hd]. unfold typedLevel.
  destruct Hp as [->|(p & -> & Hp)]; [done|].
  destruct Hd as [->|(d & -> & Hd)]; [by rewrite JsFacts.asInt_int|].
  rewrite !JsFacts.asInt_int. simpl. intros [= <-]. by split.
Qed.

Lemma typedLevel_normal (l : Level) :
  normal l -> promoteAfterCorrect l <> Js.NaN -> intervalDays l <> Js.NaN ->
  exists t, typedLevel l = Some t.
Proof.
  intros [Hp Hd] Hp' Hd'. unfold typedLevel.
  destruct Hp as [?|(p & -> & Hp)]; [done|].
  destruct Hd as [?|(d & -> & Hd)]; [done|].
  rewrite !JsFacts.asInt_int. simpl. eauto.
Qed.

Lemma typedLevels_Some (ls : list Level) (tls : list LevelConfig.t) :
  Forall normal ls -> mapM typedLevel ls = Some tls ->
  Forall Srs.level_in_bounds tls /\ LevelConfig.id <$> tls = id <$> ls.
Proof.
  intros Hall H2%mapM_Some. induction H2 as [|l t ls tls Hl H2 IH]; [done|].
  apply Forall_cons in Hall as [Hn Hall].
  destruct (typedLevel_Some l t Hn Hl) as [Hid Hb].
  destruct (IH Hall) as [Hbs Hids].
  split; [by constructor|]. by rewrite !fmap_cons, Hid, Hids.
Qed.

Lemma typedLevels_normal (ls : list Level) :
  Forall normal ls ->
  (forall l, l ∈ ls -> promoteAfterCorrect l <> Js.NaN /\
                       intervalDays l <> Js.NaN) ->
  exists tls, mapM typedLevel ls = Some tls.
Proof.
  intros Hall Hnan. apply mapM_is_Some, Forall_forall. intros l Hl.
  rewrite Forall_forall in Hall. destruct (Hnan l Hl) as [Hp Hd].
  destruct (typedLevel_normal l (Hall l Hl) Hp Hd) as [t Ht].
  simpl. by rewrite Ht.
Qed.

(** What every normalised configuration satisfies. *)
Lemma normalizeConfig_levels (co : Js.Coercions) (raw : RawConfig) (c : Config) :
  normalizeConfig co raw = Ok c ->
  levels c <> [] /\
  StronglySorted (fun a b => (id a <=? id b) = true) (levels c) /\
  NoDup (id <$> levels c) /\
  Forall normal (levels c).
Proof.
  intros (raws & _ & Hlevels & Hne & _)%normalizeConfig_Ok. simpl in *.
  rewrite Hlevels. case_bool_decide as Hraws.
  - split; [done|]. split; [|split].
    + unfold defaultLevels. simpl. repeat constructor.
    + apply (bool_decide_unpack _). vm_compute. exact I.
    + apply defaultLevels_normal.
  - split; [by apply Hne|]. split; [|split].
    + apply uniqueLevels_sorted, (stableSort_sorted _ idLeb_total idLeb_trans).
    + apply uniqueLevels_NoDup.
    + apply Forall_forall. intros l Hl%uniqueLevels_sublist.
      rewrite stableSort_elem_of in Hl.
      apply elem_of_lookup_imap in Hl as (j & r & -> & _).
      apply normalizeLevel_normal.
Qed.

(** Every configuration that went through [normalizeConfig] and holds no
    [NaN] has at least one level, pairwise distinct level ids, thresholds
    within 1..99 and intervals within 0..3650. *)
Lemma normalizeConfig_in_bounds (co : Js.Coercions) (raw : RawConfig)
    (c : Config) (cfg : AppConfig.t) :
  normalizeConfig co raw = Ok c -> typed c = Some cfg ->
  Srs.config_in_bounds cfg /\ AppConfig.levels cfg <> [] /\
  NoDup (Srs.levelIds cfg).
Proof.
  intros (Hne & _ & Hnd & Hall)%normalizeConfig_levels. unfold typed.
  destruct (mapM typedLevel (levels c)) as [tls|] eqn:Htls; simpl; [|done].
  intros [= <-]. unfold Srs.config_in_bounds, Srs.levelIds. simpl.
  destruct (typedLevels_Some _ _ Hall Htls) as [Hb Hids].
  split; [exact Hb|]. split.
  - intros ->. by destruct (levels c).
  - change (map LevelConfig.id tls) with (LevelConfig.id <$> tls).
    by rewrite Hids.
Qed.

(** X3: [normalizeConfig] throws a [TypeError] exactly on a level array
    that holds [null] or [undefined].  Otherwise its configuration has at
    least one level and level ids in strictly increasing order; every
    threshold is [NaN] or within 1..99 and every interval [NaN] or within
    0..3650; every level is a default level or the normalisation of a level
    of the input at its position; and when no level holds [NaN] the
    configuration is one of the scheduler, within its bounds and with the
    same ids. *)
Theorem normalizeConfig_wellformed (co : Js.Coercions) (raw : RawConfig) :
  match normalizeConfig co raw with
  | Ok c =>
      levels c <> [] /\
      StronglySorted Z.lt (id <$> levels c) /\
      Forall normal (levels c) /\
      (forall l, l ∈ levels c ->
         l ∈ defaultLevels \/
         exists ls i r, rawLevels raw = Some ls /\ ls !! i = Some (Some r) /\
                        l = normalizeLevel co i r) /\
      ((forall l, l ∈ levels c ->
          promoteAfterCorrect l <> Js.NaN /\ intervalDays l <> Js.NaN) ->
       exists cfg, typed c = Some cfg /\ Srs.config_in_bounds cfg /\
                   Srs.levelIds cfg = id <$> levels c) /\
      (forall ls, rawLevels raw = Some ls -> None ∉ ls)
  | Throw e =>
      e = TypeError /\ exists ls, rawLevels raw = Some ls /\ None ∈ ls
  end.
Proof.
  destruct (normalizeConfig co raw) as [c|e] eqn:Hc.
  - destruct (normalizeConfig_levels co raw c Hc) as (Hne & Hs & Hnd & Hall).
    split; [exact Hne|]. split; [by apply sorted_NoDup_lt|].
    split; [exact Hall|].
    split; [|split; [|destruct (normalizeConfig_Ok co raw c Hc)
                        as (raws & Hgiven & _); intros ls Hls;
                      rewrite Hls in Hgiven;
                      cbv [default from_option Datatypes.id] in Hgiven;
                      rewrite Hgiven;
                      by intros (? & ? & _)%list_elem_of_fmap]].
    + apply normalizeConfig_Ok in Hc as (raws & Hgiven & Hlevels & _).
      simpl in Hlevels. intros l Hl. rewrite Hlevels in Hl.
      case_bool_decide as Hraws; [by left|].
      apply uniqueLevels_sublist in Hl. rewrite stableSort_elem_of in Hl.
      apply elem_of_lookup_imap in Hl as (j & r & -> & Hj).
      destruct (rawLevels raw) as [ls|] eqn:Hraw;
        cbv [default from_option Datatypes.id] in Hgiven.
      * right. exists ls, j, r. split; [done|]. split; [|done].
        by rewrite Hgiven, list_lookup_fmap, Hj.
      * left. apply (f_equal (fun l => l !! j)) in Hgiven.
        rewrite !list_lookup_fmap, Hj in Hgiven.
        destruct (defaultLevels !! j) as [d|] eqn:Hd; simpl in Hgiven; [|done].
        injection Hgiven as <-.
        rewrite normalizeLevel_fixed.
        -- by eapply list_elem_of_lookup_2.
        -- pose proof defaultLevels_normal as Hdn.
           rewrite Forall_forall in Hdn. apply Hdn.
           by eapply list_elem_of_lookup_2.
    + intros Hnan. destruct (typedLevels_normal (levels c) Hall Hnan)
        as [tls Htls].
      destruct (typedLevels_Some _ _ Hall Htls) as [Hb Hids].
      exists (AppConfig.mk tls (wrongMakesImmediatelyDue c) (wrongResetsStreak c)).
      split; [unfold typed; by rewrite Htls|]. split; [exact Hb | exact Hids].
  - unfold normalizeConfig in Hc.
    set (given := match rawLevels raw with Some ls => ls | None => _ end) in Hc.
    pose proof (normalizeLevels_spec co 0 given) as H.
    destruct (normalizeLevels co 0 given) as [mapped|e']; simpl in Hc; [done|].
    injection Hc as <-. destruct H as [-> Hin]. split; [done|].
    destruct (rawLevels raw) as [ls|] eqn:Hraw; [by exists ls|].
    subst given. apply list_elem_of_fmap in Hin as (? & ? & _). done.
Qed.

Lemma imap_normalizeLevel_fixed (co : Js.Coercions) (f : nat -> nat)
    (ls : list Level) :
  Forall normal ls ->
  imap (fun j => normalizeLevel co (f j)) (toRawLevel <$> ls) = ls.
Proof.
  intros Hall. revert f. induction Hall as [|l ls Hl Hall IH]; intros f; [done|].
  rewrite fmap_cons. simpl. rewrite normalizeLevel_fixed by done. f_equal.
  apply (IH (f ∘ S)).
Qed.

Lemma normalizeConfig_fixed (co : Js.Coercions) (c : Config) :
  levels c <> [] ->
  StronglySorted (fun a b => (id a <=? id b) = true) (levels c) ->
  NoDup (id <$> levels c) -> Forall normal (levels c) ->
  normalizeConfig co (toRaw c) = Ok c.
Proof.
  intros Hne Hs Hnd Hall. destruct c as [ls imm rst]. simpl in *.
  unfold normalizeConfig, toRaw. cbn [rawLevels rawWrongMakesImmediatelyDue
    rawWrongResetsStreak levels wrongMakesImmediatelyDue wrongResetsStreak].
  change ((fun l => Some (toRawLevel l)) <$> ls) with (Some ∘ toRawLevel <$> ls).
  rewrite (list_fmap_compose toRawLevel Some ls), normalizeLevels_Some.
  cbn [mbind Result_bind].
  rewrite (imap_normalizeLevel_fixed co (fun j => (0 + j)%nat) ls Hall).
  rewrite (stableSort_sorted_id _ ls Hs).
  rewrite (uniqueLevels_fixed ∅ ls Hnd) by set_solver.
  destruct ls; [done|]. by destruct imm, rst.
Qed.

(** X4: normalising twice is normalising once: a configuration that
    [normalizeConfig] returned, read back as raw input, is returned
    unchanged, [NaN] thresholds included. *)
Theorem normalizeConfig_idempotent (co : Js.Coercions) (raw : RawConfig)
    (c : Config) :
  normalizeConfig co raw = Ok c -> normalizeConfig co (toRaw c) = Ok c.
Proof.
  intros (Hne & Hs & Hnd & Hall)%normalizeConfig_levels.
  by apply normalizeConfig_fixed.
Qed.
Lemma normalizeConfig_idempotent_witness :
  let raw :=
    mkRawConfig
      (Some [ Some (mkRawLevel (Js.Str "2") (Js.Str "late")
                      (Js.Num (Js.int 500)) (Js.Str "soon"));
              Some (mkRawLevel (Js.Num (Js.Fin (3 # 2))) Js.Undefined
                      (Js.Str "7") Js.Null) ])
      (Js.Num (Js.int 1)) Js.Undefined in
  let c :=
    mkConfig [ mkLevel 1 "late" (Js.int 99) Js.NaN ] true false in
  normalizeConfig Platform.coercions raw = Ok c /\
  normalizeConfig Platform.coercions (toRaw c) = Ok c.
Proof.
  split; [reflexivity|].
  apply (normalizeConfig_idempotent Platform.coercions
           (mkRawConfig
              (Some [ Some (mkRawLevel (Js.Str "2") (Js.Str "late")
                              (Js.Num (Js.int 500)) (Js.Str "soon"));
                      Some (mkRawLevel (Js.Num (Js.Fin (3 # 2))) Js.Undefined
                              (Js.Str "7") Js.Null) ])
              (Js.Num (Js.int 1)) Js.Undefined)).
  reflexivity.
Defined.

Lemma find_uniqueLevels (i : Z) (seen : gset Z) (ls : list Level) :
  i ∉ seen ->
  List.find (fun l => id l =? i) (uniqueLevels seen ls)
  = List.find (fun l => id l =? i) ls.
Proof.
  revert seen. induction ls as [|l ls IH]; intros seen Hi; simpl; [done|].
  case_bool_decide as Hseen.
  - rewrite IH by done.
    destruct (Z.eqb_spec (id l) i) as [E|E]; [|done].
    by rewrite E in Hseen.
  - simpl. destruct (Z.eqb_spec (id l) i) as [E|E]; [done|].
    apply IH. intros [?%elem_of_singleton|?]%elem_of_union; done.
Qed.

Lemma find_typedLevels (i : Z) (ls : list Level) (tls : list LevelConfig.t) :
  mapM typedLevel ls = Some tls ->
  List.find (fun t => LevelConfig.id t =? i) tls
  = List.find (fun l => id l =? i) ls ≫= typedLevel.
Proof.
  intros H2%mapM_Some. induction H2 as [|l t ls tls Hl H2 IH]; [done|].
  assert (LevelConfig.id t = id l) as Hid.
  { revert Hl. unfold typedLevel.
    destruct (Js.asInt (promoteAfterCorrect l)); [|done].
    destruct (Js.asInt (intervalDays l)); [|done]. simpl. by intros [= <-]. }
  simpl. rewrite Hid. destruct (id l =? i); [by rewrite <- Hl | exact IH].
Qed.

(** X5: on a non-empty array of levels, looking a level up by id after
    normalisation gives the first level of the input whose normalisation
    has this id (an id that is not a finite number counts as the position
    plus one, a fractional id as its integer part), with its threshold and
    interval clamped; an id that no level normalises to has none.  The
    scheduler's [findLevel] reads the same level when the configuration
    holds no [NaN]. *)
Theorem findLevel_normalizeConfig (co : Js.Coercions) (raw : RawConfig)
    (raws : list RawLevel) (i : Z) :
  rawLevels raw = Some (Some <$> raws) -> raws <> [] ->
  exists c, normalizeConfig co raw = Ok c /\
    List.find (fun l => id l =? i) (levels c)
    = List.find (fun l => id l =? i) (imap (normalizeLevel co) raws) /\
    forall cfg, typed c = Some cfg ->
      Srs.findLevel cfg i
      = List.find (fun l => id l =? i) (imap (normalizeLevel co) raws)
        ≫= typedLevel.
Proof.
  intros Hraw Hne.
  assert (exists c, normalizeConfig co raw = Ok c) as [c Hc].
  { unfold normalizeConfig. rewrite Hraw, normalizeLevels_Some. simpl. eauto. }
  exists c. split; [exact Hc|].
  assert (List.find (fun l => id l =? i) (levels c)
          = List.find (fun l => id l =? i) (imap (normalizeLevel co) raws)) as Hfind.
  { apply normalizeConfig_Ok in Hc as (raws' & Hgiven & Hlevels & _).
    simpl in Hlevels. rewrite Hraw in Hgiven. simpl in Hgiven.
    apply (inj (fmap Some)) in Hgiven as <-.
    rewrite Hlevels, bool_decide_eq_false_2 by done.
    rewrite find_uniqueLevels by set_solver.
    rewrite !find_head_filter.
    rewrite (stableSort_filter _ (fun x => (id x =? i) = true)); [done|].
    intros x y Hx Hy. lia. }
  split; [exact Hfind|].
  intros cfg. unfold typed.
  destruct (mapM typedLevel (levels c)) as [tls|] eqn:Htls; simpl; [|done].
  intros [= <-]. unfold Srs.findLevel. simpl.
  by rewrite (find_typedLevels i _ _ Htls), Hfind.
Qed.

Lemma findLevel_normalizeConfig_witness :
  let raws :=
    [ mkRawLevel (Js.Str "2") (Js.Str "late") (Js.Num (Js.int 500))
        (Js.Num (Js.int (-4)));
      mkRawLevel (Js.Num (Js.Fin (3 # 2))) Js.Undefined (Js.Str "7") Js.Null;
      mkRawLevel (Js.Num (Js.int 5)) (Js.Str "far") Js.Undefined
        (Js.Str "9000") ] in
  let raw := mkRawConfig (Some (Some <$> raws)) Js.Null (Js.Str "yes") in
  exists c, normalizeConfig Platform.coercions raw = Ok c /\
    levels c = [ mkLevel 1 "late" (Js.int 99) (Js.int 0);
                 mkLevel 5 "far" (Js.int 1) (Js.int 3650) ] /\
    forall cfg, typed c = Some cfg ->
      Srs.findLevel cfg 1 = Some (LevelConfig.mk 1 "late" 99 0).
Proof.
  pose (raws :=
    [ mkRawLevel (Js.Str "2") (Js.Str "late") (Js.Num (Js.int 500))
        (Js.Num (Js.int (-4)));
      mkRawLevel (Js.Num (Js.Fin (3 # 2))) Js.Undefined (Js.Str "7") Js.Null;
      mkRawLevel (Js.Num (Js.int 5)) (Js.Str "far") Js.Undefined
        (Js.Str "9000") ]).
  destruct (findLevel_normalizeConfig Platform.coercions
              (mkRawConfig (Some (Some <$> raws)) Js.Null (Js.Str "yes"))
              raws 1 eq_refl ltac:(done)) as (c & Hc & _ & Htyped).
  exists c. split; [exact Hc|]. split.
  - vm_compute in Hc. by injection Hc as <-.
  - exact Htyped.
Defined.
End NormalizeProps.

(** ** Answers, levels and due dates *)

Module SchedulerProps.
Import AppConfig Schedule Srs SrsFacts.

Lemma nextHigherLevelId_ge (current : Z) (cfg : AppConfig.t) :
  current < maxLevel cfg ->
  current <= nextHigherLevelId current cfg /\
  (levelIds cfg <> [] -> nextHigherLevelId current cfg ∈ levelIds cfg).
Proof.
  intros Hlt. destruct (levelIds cfg) as [|a l] eqn:Hids.
  - split; [|done]. unfold nextHigherLevelId.
    rewrite (LadderProps.sortedIds_nil _ Hids). simpl. lia.
  - assert (levelIds cfg <> []) as Hne by (by rewrite Hids).
    destruct (nextHigherLevelId_least current cfg Hlt Hne) as (Hin & Hgt & _).
    rewrite Hids in Hin. split; [lia | done].
Qed.

(** X6: an answer never lowers the level of a word and never takes it off
    the configured ids; the level changes only on a right answer in a clean
    run, below the highest configured id. *)
Theorem applyAnswer_level_monotone (now today : Date) (w : WordItem.t)
    (right : bool) (cfg : AppConfig.t) (isCleanRun : bool) :
  let w' := applyAnswer now today w right cfg isCleanRun in
  WordItem.levelId w <= WordItem.levelId w' /\
  (WordItem.levelId w ∈ levelIds cfg -> WordItem.levelId w' ∈ levelIds cfg) /\
  (WordItem.levelId w' <> WordItem.levelId w ->
   right = true /\ isCleanRun = true /\ WordItem.levelId w < maxLevel cfg).
Proof.
  unfold applyAnswer. destruct right; simpl.
  - destruct isCleanRun; simpl; [|split; [lia | done]].
    destruct (Z.ltb_spec (WordItem.levelId w) (maxLevel cfg)) as [Hlt|Hge];
      simpl; [|split; [lia | done]].
    destruct (_ <=? _); simpl; [|split; [lia | done]].
    destruct (nextHigherLevelId_ge _ cfg Hlt) as [Hle Hin].
    split; [exact Hle|]. split; [|done].
    intros Hw. apply Hin. intros E. rewrite E in Hw. by apply elem_of_nil in Hw.
  - destruct (wrongResetsStreak cfg), (wrongMakesImmediatelyDue cfg); simpl;
      (split; [lia | done]).
Qed.

(** X7: after a right answer the word is due at a local midnight, between
    today and 3650 days from today, whatever the configuration holds; it is
    due at an instant exactly when that instant's day has reached that
    midnight's day. *)
Theorem applyAnswer_right_due_window (now today : Date) (w : WordItem.t)
    (cfg : AppConfig.t) (isCleanRun : bool) :
  let w' := applyAnswer now today w true cfg isCleanRun in
  exists k,
    0 <= k <= 3650 /\
    WordItem.dueAt w' = mkDate (day today + k) 0 /\
    forall at_ : Date, 0 <= msOfDay at_ < 86400000 ->
      (isDue w' at_ = true <-> day today + k <= day at_).
Proof.
  unfold applyAnswer. simpl.
  set (promoted := clampInt _ 0 3650).
  set (interval := clampInt _ 0 3650).
  assert (0 <= interval <= 3650) by (apply clampInt_range; lia).
  assert (0 <= promoted <= 3650) by (apply clampInt_range; lia).
  assert (forall k (at_ : Date), 0 <= msOfDay at_ < 86400000 ->
            ((getTime (mkDate (day today + k) 0) <=? getTime at_) = true
             <-> day today + k <= day at_)) as Hdue.
  { intros k at_ Hms. unfold getTime. simpl. rewrite Z.leb_le. lia. }
  destruct (isCleanRun && _ && _); simpl.
  - exists promoted. split; [done|]. split; [done|]. apply Hdue.
  - exists interval. split; [done|]. split; [done|]. apply Hdue.
Qed.

Lemma step_keep (now today : Date) (w : WordItem.t) (cfg : AppConfig.t)
    (lvl : LevelConfig.t) :
  config_in_bounds cfg ->
  findLevel cfg (WordItem.levelId w) = Some lvl ->
  WordItem.streakCorrect w + 1 < LevelConfig.promoteAfterCorrect lvl ->
  let w' := applyAnswer now today w true cfg true in
  WordItem.levelId w' = WordItem.levelId w /\
  WordItem.streakCorrect w' = WordItem.streakCorrect w + 1.
Proof.
  intros Hb Hf Hlt.
  destruct (config_in_bounds_level _ _ _ Hb Hf) as [Hp _].
  unfold applyAnswer. rewrite Hf. simpl.
  rewrite (clampInt_id (LevelConfig.promoteAfterCorrect lvl) 1 99) by done.
  destruct (Z.leb_spec (LevelConfig.promoteAfterCorrect lvl)
              (WordItem.streakCorrect w + 1)); [lia|].
  by rewrite andb_false_r.
Qed.

Lemma step_promote (now today : Date) (w : WordItem.t) (cfg : AppConfig.t)
    (lvl : LevelConfig.t) :
  config_in_bounds cfg ->
  findLevel cfg (WordItem.levelId w) = Some lvl ->
  WordItem.levelId w <> maxLevel cfg ->
  LevelConfig.promoteAfterCorrect lvl <= WordItem.streakCorrect w + 1 ->
  let w' := applyAnswer now today w true cfg true in
  is_next_higher cfg (WordItem.levelId w) (WordItem.levelId w') /\
  WordItem.streakCorrect w' = 0.
Proof.
  intros Hb Hf Hmax Hge.
  destruct (config_in_bounds_level _ _ _ Hb Hf) as [Hp _].
  pose proof (findLevel_ids _ _ _ Hf) as Hin.
  pose proof (maxLevel_ge _ _ Hin) as Hle.
  assert (levelIds cfg <> []) as Hne.
  { intros E. rewrite E in Hin. by apply elem_of_nil in Hin. }
  unfold applyAnswer. rewrite Hf. simpl.
  rewrite (clampInt_id (LevelConfig.promoteAfterCorrect lvl) 1 99) by done.
  destruct (Z.ltb_spec (WordItem.levelId w) (maxLevel cfg)); [|lia].
  destruct (Z.leb_spec (LevelConfig.promoteAfterCorrect lvl)
              (WordItem.streakCorrect w + 1)); [|lia].
  simpl. split; [|done]. by apply nextHigherLevelId_least.
Qed.

Lemma climb_below (cfg : AppConfig.t) (lvl : LevelConfig.t)
    (clocks : list (Date * Date)) (w : WordItem.t) :
  config_in_bounds cfg ->
  findLevel cfg (WordItem.levelId w) = Some lvl ->
  Z.of_nat (length clocks)
    < LevelConfig.promoteAfterCorrect lvl - WordItem.streakCorrect w ->
  let w' :=
    answerRightRepeatedly cfg ((fun c => (c.1, c.2, true)) <$> clocks) w in
  WordItem.levelId w' = WordItem.levelId w /\
  WordItem.streakCorrect w' = WordItem.streakCorrect w + Z.of_nat (length clocks).
Proof.
  intros Hb. revert w. unfold answerRightRepeatedly.
  induction clocks as [|c clocks IH]; intros w Hf Hlen; simpl.
  - split; [done | lia].
  - simpl in Hlen.
    destruct (step_keep c.1 c.2 w cfg lvl Hb Hf ltac:(lia)) as [Hl Hs].
    destruct (IH (applyAnswer c.1 c.2 w true cfg true)) as [IHl IHs].
    + by rewrite Hl.
    + rewrite Hs. lia.
    + split; [exact (eq_trans IHl Hl)|].
      etrans; [exact IHs|]. rewrite Hs. lia.
Qed.

(** X8: a word on a configured level below the highest one, with a streak
    below that level's threshold, keeps its level while it has had fewer
    clean right answers than the threshold asks for, each one adding one to
    the streak; the answer that completes the threshold moves it to the
    next higher configured level with streak 0. *)
Theorem applyAnswer_climbs_one_level (cfg : AppConfig.t) (lvl : LevelConfig.t)
    (w : WordItem.t) (clocks : list (Date * Date)) :
  config_in_bounds cfg ->
  findLevel cfg (WordItem.levelId w) = Some lvl ->
  WordItem.levelId w <> maxLevel cfg ->
  WordItem.streakCorrect w < LevelConfig.promoteAfterCorrect lvl ->
  let needed := LevelConfig.promoteAfterCorrect lvl - WordItem.streakCorrect w in
  let w' :=
    answerRightRepeatedly cfg ((fun c => (c.1, c.2, true)) <$> clocks) w in
  (Z.of_nat (length clocks) < needed ->
   WordItem.levelId w' = WordItem.levelId w /\
   WordItem.streakCorrect w' = WordItem.streakCorrect w + Z.of_nat (length clocks)) /\
  (Z.of_nat (length clocks) = needed ->
   is_next_higher cfg (WordItem.levelId w) (WordItem.levelId w') /\
   WordItem.streakCorrect w' = 0).
Proof.
  intros Hb Hf Hmax Hs. simpl. split; [by apply climb_below|].
  intros Hlen.
  destruct clocks as [|c0 clocks0] using rev_ind; [simpl in Hlen; lia|].
  clear IHclocks0. rewrite length_app in Hlen. simpl in Hlen.
  rewrite fmap_app. unfold answerRightRepeatedly. rewrite foldl_app. simpl.
  destruct (climb_below cfg lvl clocks0 w Hb Hf ltac:(lia)) as [Hl Hst].
  unfold answerRightRepeatedly in Hl, Hst.
  set (w1 := foldl _ w _) in *.
  destruct (step_promote c0.1 c0.2 w1 cfg lvl Hb) as [Hnext Hzero].
  - by rewrite Hl.
  - by rewrite Hl.
  - rewrite Hst. lia.
  - split; [|exact Hzero]. rewrite <- Hl. exact Hnext.
Qed.

Lemma applyAnswer_climbs_one_level_witness :
  let w := sampleWord 2 0 (mkDate 100 0) in
  let clocks := [ (mkDate 100 10, mkDate 100 11); (mkDate 108 10, mkDate 108 11) ] in
  let w' :=
    answerRightRepeatedly defaultConfig ((fun c => (c.1, c.2, true)) <$> clocks) w in
  is_next_higher defaultConfig (WordItem.levelId w) (WordItem.levelId w') /\
  WordItem.streakCorrect w' = 0.
Proof.
  intros w clocks.
  apply (applyAnswer_climbs_one_level defaultConfig
           (LevelConfig.mk 2 "Level 2" 2 7) w clocks).
  - apply NormalizeFacts.defaultConfig_in_bounds.
  - reflexivity.
  - vm_compute. discriminate.
  - simpl. lia.
  - reflexivity.
Defined.
End SchedulerProps.

(** ** Normalising a word *)

Module NormalizeWordProps.
Import Schedule.

Lemma closest_fold_elem (n : Js.number) (l : list Z) (acc : Z * Js.number) :
  fst (foldl (fun (acc : Z * Js.number) (i : Z) =>
                let d := Js.distance i n in
                if Js.lt d (snd acc) then (i, d) else acc) acc l)
  ∈ fst acc :: l.
Proof.
  revert acc. induction l as [|x l IH]; intros acc; simpl; [left|].
  specialize (IH (if Js.lt (Js.distance x n) (snd acc)
                  then (x, Js.distance x n) else acc)).
  cbv zeta in IH |- *.
  apply elem_of_cons in IH as [E|IH]; [|right; by right].
  rewrite E. destruct (Js.lt _ _); [right; left | left].
Qed.

(** [clampToExistingLevel] returns a configured id, whatever it is given,
    as soon as there is one. *)
Lemma clampToExistingLevel_elem_of (co : Js.Coercions) (v : Js.Value)
    (cfg : Normalize.Config) :
  levelIds cfg <> [] -> clampToExistingLevel co v cfg ∈ levelIds cfg.
Proof.
  intros Hne. unfold clampToExistingLevel.
  set (has := match v with Js.Num n => _ | _ => None end).
  assert (forall i, has = Some i -> i ∈ levelIds cfg) as Hhas.
  { subst has. intros i. destruct v as [| | |n| |]; try done.
    destruct (Js.asInt n) as [j|]; [|done].
    case_bool_decide; [|done]. by intros [= <-]. }
  destruct has as [i|]; [by apply Hhas|].
  pose proof (stableSort_elem_of Z.leb (levelIds cfg)) as Hel.
  fold (sortedIds cfg) in Hel.
  destruct (sortedIds cfg) as [|mn rest] eqn:Hsorted.
  { destruct (levelIds cfg) as [|a l]; [done|].
    assert (a ∈ @nil Z) as Ha by (apply Hel; left).
    by apply elem_of_nil in Ha. }
  destruct (Js.lt _ _); [apply Hel; left|].
  destruct (Js.lt _ _).
  - apply Hel. destruct (last (mn :: rest)) as [mx|] eqn:Hlast; simpl; [|left].
    by eapply last_Some_elem_of.
  - apply Hel.
    pose proof (closest_fold_elem (Js.toNumber co v) (mn :: rest)
                  (mn, Js.distance mn (Js.toNumber co v))) as Hc.
    apply elem_of_cons in Hc as [Hc|Hc]; [|exact Hc].
    cbv zeta in Hc |- *. rewrite Hc. left.
Qed.

(** X9: whatever the level and the counters of the input hold, a
    normalised word has a streak that is an integer within 0..9999 and
    totals that are integers within 0..999999, except that a counter whose
    value [Number()] reads as [NaN] stays [NaN]; and its level id is a
    configured one as soon as the configuration has a level. *)
Theorem normalizeWord_bounds (co : Js.Coercions) (now : Date) (uuid : string)
    (trim : string -> string) (w : RawWord) (cfg : Normalize.Config) :
  let n := normalizeWord co now uuid trim w cfg in
  let read v := Js.toNumber co (Js.orDefault v (Js.Num (Js.int 0))) in
  let clamped x hi r :=
    (x = Js.NaN /\ r = Js.NaN) \/
    (x <> Js.NaN /\ exists z, r = Js.int z /\ 0 <= z <= hi) in
  clamped (read (streakCorrect w)) 9999 (w_streakCorrect n) /\
  clamped (read (totalRight w)) 999999 (w_totalRight n) /\
  clamped (read (totalWrong w)) 999999 (w_totalWrong n) /\
  (levelIds cfg <> [] -> w_levelId n ∈ levelIds cfg).
Proof.
  cbv zeta. unfold normalizeWord.
  cbn [w_streakCorrect w_totalRight w_totalWrong w_levelId].
  split; [apply JsFacts.clampInt_cases; lia|].
  split; [apply JsFacts.clampInt_cases; lia|].
  split; [apply JsFacts.clampInt_cases; lia|].
  apply clampToExistingLevel_elem_of.
Qed.

Lemma orElse_Str (s fallback : string) :
  s <> "" -> Js.orElse (Js.Str s) (Js.Str fallback) = Js.Str s.
Proof.
  intros Hs. unfold Js.orElse. simpl. by rewrite bool_decide_eq_false_2.
Qed.

Lemma trim_orElse (co : Js.Coercions) (trim : string -> string) (t : string) :
  trim t = t -> trim (Js.toString co (Js.orElse (Js.Str t) (Js.Str ""))) = t.
Proof.
  intros Ht. destruct (decide (t = "")) as [->|Hne].
  - exact Ht.
  - by rewrite orElse_Str.
Qed.

(** X10: a word that is already normal (non-empty id, texts that [trim]
    leaves alone, a configured level, counters within the bounds) comes back
    unchanged when it is read as raw input and normalised again. *)
Theorem normalizeWord_fixed (co : Js.Coercions) (now : Date) (uuid : string)
    (trim : string -> string) (w : WordItem.t) (cfg : Normalize.Config) :
  WordItem.id w <> "" ->
  trim (WordItem.word w) = WordItem.word w ->
  trim (WordItem.hint w) = WordItem.hint w ->
  trim (WordItem.definition w) = WordItem.definition w ->
  WordItem.levelId w ∈ levelIds cfg ->
  0 <= WordItem.streakCorrect w <= 9999 ->
  0 <= WordItem.totalRight w <= 999999 ->
  0 <= WordItem.totalWrong w <= 999999 ->
  normalizeWord co now uuid trim (toRaw w) cfg = ofTyped w.
Proof.
  intros Hid Hw Hh Hd Hl Hs Hr Hwr.
  destruct w as [i wd h d ca ua l s tr tw lr da res]. simpl in *.
  unfold normalizeWord, toRaw, ofTyped.
  cbn [id word hint definition createdAt updatedAt levelId streakCorrect
       totalRight totalWrong lastReviewedAt dueAt lastResult
       WordItem.id WordItem.word WordItem.hint WordItem.definition
       WordItem.createdAt WordItem.updatedAt WordItem.levelId
       WordItem.streakCorrect WordItem.totalRight WordItem.totalWrong
       WordItem.lastReviewedAt WordItem.dueAt WordItem.lastResult
       Js.orDefault Js.toNumber default].
  unfold clampToExistingLevel. rewrite JsFacts.asInt_int.
  rewrite (bool_decide_eq_true_2 (l ∈ levelIds cfg)) by done.
  rewrite !JsFacts.clampInt_int, !SrsFacts.clampInt_id by done.
  rewrite !trim_orElse by done. rewrite orElse_Str by done.
  by destruct res as [[|]|].
Qed.
Lemma normalizeWord_fixed_witness :
  normalizeWord Platform.coercions (mkDate 300 5) "fresh-id" (fun s => s)
    (toRaw (Srs.sampleWord 2 1 (mkDate 100 0)))
    (Normalize.ofTypedConfig Srs.defaultConfig)
  = ofTyped (Srs.sampleWord 2 1 (mkDate 100 0)).
Proof.
  apply (normalizeWord_fixed Platform.coercions (mkDate 300 5) "fresh-id"
           (fun s => s) (Srs.sampleWord 2 1 (mkDate 100 0))
           (Normalize.ofTypedConfig Srs.defaultConfig));
    first [done | reflexivity | simpl; lia | idtac].
  apply (bool_decide_unpack _). vm_compute. exact I.
Defined.
End NormalizeWordProps.

(** ** Choosing words and distractors *)

Module WordSelectionProps.
Import WordSelection Fixtures Picking.

Lemma scoreWord_throws (lc : text -> text) (candidate correct : text)
    (random : Q) (e : Exn) :
  scoreWord lc candidate correct random = Throw e ->
  e = TypeError /\ (candidate = [] \/ correct = []).
Proof.
  unfold scoreWord, scoreBase.
  destruct candidate as [|c cs]; [intros [= <-]; split; [done | by left]|].
  destruct correct as [|k ks]; [intros [= <-]; split; [done | by right]|].
  done.
Qed.

Lemma mapResult_Ok {A B : Type} (f : nat -> A -> Result B) (i : nat)
    (l : list A) (r : list (A * B)) :
  mapResult (fun j a => b ← f j a; Ok (a, b)) i l = Ok r ->
  fst <$> r = l /\ forall a, a ∈ l -> exists j b, f j a = Ok b.
Proof.
  revert i r. induction l as [|a l IH]; intros i r; simpl.
  - intros [= <-]. split; [done|]. intros a Ha. by apply elem_of_nil in Ha.
  - destruct (f i a) as [b|e] eqn:Hf; simpl; [|done].
    destruct (mapResult _ (S i) l) as [bs|e] eqn:Hm; simpl; [|done].
    intros [= <-]. destruct (IH _ _ Hm) as [Hfst Hall].
    split; [by rewrite fmap_cons, Hfst|].
    intros a' [->|Ha']%elem_of_cons; [by exists i, b | by apply Hall].
Qed.

Lemma mapResult_Throw {A B : Type} (f : nat -> A -> Result B) (i : nat)
    (l : list A) (e : Exn) :
  mapResult (fun j a => b ← f j a; Ok (a, b)) i l = Throw e ->
  exists j a, a ∈ l /\ f j a = Throw e.
Proof.
  revert i. induction l as [|a l IH]; intros i; simpl; [done|].
  destruct (f i a) as [b|e'] eqn:Hf; simpl.
  - destruct (mapResult _ (S i) l) as [bs|e'] eqn:Hm; simpl; [done|].
    intros [= <-]. destruct (IH _ Hm) as (j & a' & Ha' & Hj).
    exists j, a'. split; [by right | done].
  - intros [= <-]. exists i, a. split; [left | done].
Qed.

Lemma Qle_bool_total (a b : Q) : Qle_bool a b = true \/ Qle_bool b a = true.
Proof.
  rewrite !Qle_bool_iff. destruct (Qlt_le_dec a b) as [H|H]; [left | by right].
  by apply Qlt_le_weak.
Qed.

Lemma Qle_bool_trans (a b c : Q) :
  Qle_bool a b = true -> Qle_bool b c = true -> Qle_bool a c = true.
Proof. rewrite !Qle_bool_iff. apply Qle_trans. Qed.

(** The options [generateWrongAnswers] returns are taken from the pool
    words other than the target. *)
Lemma generateWrongAnswers_from_pool (lc : text -> text) (rnd : RandomSource)
    (correctWord : WordRef) (allWords : list WordRef) (count : nat)
    (opts : list WordOption) :
  generateWrongAnswers lc rnd correctWord allWords count = Ok opts ->
  length opts = count /\
  opts ⊆+ toOption <$> filter (fun w => id w <> id correctWord) allWords /\
  forall o, o ∈ opts -> optId o <> id correctWord.
Proof.
  unfold generateWrongAnswers.
  set (cands := filter _ allWords).
  destruct (Nat.ltb_spec (length cands) count) as [Hlt|Hge]; [done|].
  destruct (mapResult _ 0%nat cands) as [scored|e] eqn:Hm; simpl; [|done].
  intros [= <-].
  destruct (mapResult_Ok _ _ _ _ Hm) as [Hfst _].
  set (sorted := stableSort _ scored).
  assert (fst <$> take count sorted ⊆+ cands) as Hsub.
  { rewrite <- Hfst. apply fmap_submseteq.
    etrans; [apply sublist_submseteq, sublist_take|].
    subst sorted. by rewrite stableSort_Permutation. }
  assert (map (fun sc : WordRef * Q => mkOption (id sc.1) (word sc.1))
              (take count sorted)
          = toOption <$> (fst <$> take count sorted)) as ->.
  { by rewrite <- list_fmap_compose. }
  split; [|split].
  - rewrite !length_fmap, length_take_le; [done|].
    subst sorted. rewrite stableSort_length.
    rewrite <- (length_fmap fst), Hfst. lia.
  - by apply fmap_submseteq.
  - intros o (w & -> & Hw)%list_elem_of_fmap. simpl.
    assert (w ∈ cands) as Hc by (by eapply elem_of_submseteq).
    subst cands. by apply list_elem_of_filter in Hc as [Hc _].
Qed.

(** X11: when [generateWrongAnswers] returns, it returns exactly [count]
    options, each the id and text of a pool word other than the target, no
    pool entry being used twice. *)
Theorem generateWrongAnswers_shape (lc : text -> text) (rnd : RandomSource)
    (correctWord : WordRef) (allWords : list WordRef) (count : nat)
    (opts : list WordOption) :
  generateWrongAnswers lc rnd correctWord allWords count = Ok opts ->
  length opts = count /\
  opts ⊆+ toOption <$> filter (fun w => id w <> id correctWord) allWords /\
  forall o, o ∈ opts -> optId o <> id correctWord.
Proof. apply generateWrongAnswers_from_pool. Qed.

Lemma generateWrongAnswers_shape_witness :
  exists opts,
    generateWrongAnswers lowerLatin fixedRandom (w "w01" "bridge") pool 2 = Ok opts /\
    length opts = 2%nat.
Proof.
  eexists. split; [vm_compute; reflexivity|].
  apply (generateWrongAnswers_shape lowerLatin fixedRandom (w "w01" "bridge") pool 2).
  vm_compute. reflexivity.
Defined.

(** X12: [generateWrongAnswers] fails with its own error exactly when the
    pool has fewer than [count] words other than the target; with enough
    of them it raises a TypeError exactly when there is such a word to score
    and the target's text or the text of one of them is empty; otherwise it
    returns. *)
Theorem generateWrongAnswers_outcome (lc : text -> text) (rnd : RandomSource)
    (correctWord : WordRef) (allWords : list WordRef) (count : nat) :
  let cands := filter (fun w => id w <> id correctWord) allWords in
  match generateWrongAnswers lc rnd correctWord allWords count with
  | Ok _ =>
      (count <= length cands)%nat /\
      (cands = [] \/
       (word correctWord <> [] /\ forall c, c ∈ cands -> word c <> []))
  | Throw TypeError =>
      (count <= length cands)%nat /\ cands <> [] /\
      (word correctWord = [] \/ exists c, c ∈ cands /\ word c = [])
  | Throw (Error _) => (length cands < count)%nat
  end.
Proof.
  unfold generateWrongAnswers. simpl.
  set (cands := filter _ allWords).
  destruct (Nat.ltb_spec (length cands) count) as [Hlt|Hge]; [done|].
  destruct (mapResult _ 0%nat cands) as [scored|e] eqn:Hm; simpl.
  - split; [done|]. destruct (mapResult_Ok _ _ _ _ Hm) as [_ Hall].
    destruct cands as [|c0 cands0] eqn:Hc; [by left|]. right.
    assert (forall c, c ∈ c0 :: cands0 ->
              word c <> [] /\ word correctWord <> []) as Hboth.
    { intros c Hin. destruct (Hall c Hin) as (j & s & Hs).
      unfold scoreWord, scoreBase in Hs.
      destruct (word c) as [|? ?]; [done|].
      by destruct (word correctWord) as [|? ?]. }
    split; [apply (Hboth c0); left | intros c Hin; by apply Hboth].
  - destruct (mapResult_Throw _ _ _ _ Hm) as (j & c & Hin & Hs).
    destruct (scoreWord lc (word c) (word correctWord) (draws rnd j))
      as [s|e'] eqn:Hsc; simpl in Hs; [done|].
    injection Hs as ->.
    destruct (scoreWord_throws _ _ _ _ _ Hsc) as [-> Hempty].
    split; [done|]. split.
    + intros E. rewrite E in Hin. by apply elem_of_nil in Hin.
    + destruct Hempty as [Hempty|Hempty]; [right; by exists c | by left].
Qed.

(** X13: the distractors are the first [count] entries of a ranking of the
    scored candidates in which no entry has a lower score than a later
    one. *)
Theorem generateWrongAnswers_ranked (lc : text -> text) (rnd : RandomSource)
    (correctWord : WordRef) (allWords : list WordRef) (count : nat)
    (opts : list WordOption) :
  generateWrongAnswers lc rnd correctWord allWords count = Ok opts ->
  exists scored ranked : list (WordRef * Q),
    fst <$> scored = filter (fun w => id w <> id correctWord) allWords /\
    (forall i (c : WordRef) (s : Q), scored !! i = Some (c, s) ->
       scoreWord lc (word c) (word correctWord) (draws rnd i) = Ok s) /\
    ranked ≡ₚ scored /\
    StronglySorted (fun a b => (snd b <= snd a)%Q) ranked /\
    opts = (fun sc => toOption sc.1) <$> take count ranked.
Proof.
  unfold generateWrongAnswers.
  set (cands := filter _ allWords).
  destruct (Nat.ltb_spec (length cands) count) as [Hlt|Hge]; [done|].
  destruct (mapResult _ 0%nat cands) as [scored|e] eqn:Hm; simpl; [|done].
  intros [= <-].
  exists scored, (stableSort (fun a b => Qle_bool (snd b) (snd a)) scored).
  destruct (mapResult_Ok _ _ _ _ Hm) as [Hfst _].
  split; [exact Hfst|]. split; [|split; [|split]].
  - assert (forall (l : list WordRef) (base : nat) (out : list (WordRef * Q)),
              mapResult
                (fun j a =>
                   b ← scoreWord lc (word a) (word correctWord) (draws rnd j);
                   Ok (a, b)) base l = Ok out ->
              forall i c s, out !! i = Some (c, s) ->
                scoreWord lc (word c) (word correctWord) (draws rnd (base + i)) = Ok s)
      as Hgen.
    { induction l as [|a l IH]; intros base out; simpl.
      - by intros [= <-] i c s.
      - destruct (scoreWord lc (word a) _ _) as [b|e] eqn:Hs; simpl; [|done].
        destruct (mapResult _ (S base) l) as [bs|e] eqn:Hbs; simpl; [|done].
        intros [= <-] [|i] c s; simpl.
        + intros [= <- <-]. by rewrite Nat.add_0_r.
        + intros Hi. specialize (IH _ _ Hbs i c s Hi).
          by replace (base + S i)%nat with (S base + i)%nat by lia. }
    intros i c s Hi.
    exact (Hgen cands 0%nat scored Hm i c s Hi).
  - apply stableSort_Permutation.
  - eapply (StronglySorted_weaken
              (fun a b : WordRef * Q => Qle_bool (snd b) (snd a) = true)).
    + intros a b Hab. by apply Qle_bool_iff.
    + apply stableSort_sorted.
      * intros a b. apply Qle_bool_total.
      * intros a b c Hab Hbc. by eapply Qle_bool_trans.
  - done.
Qed.

Lemma generateWrongAnswers_ranked_witness :
  generateWrongAnswers lowerLatin risingRandom (w "t" "chat") chatPool 1
  = Ok [mkOption "b" (utf16 "ab")] /\
  exists scored ranked : list (WordRef * Q),
    scored !! 0%nat = Some (w "a" "ééé", (4 # 2)%Q) /\
    scored !! 1%nat = Some (w "b" "ab", (5 # 2)%Q) /\
    ranked ≡ₚ scored /\
    StronglySorted (fun a b => (snd b <= snd a)%Q) ranked /\
    [mkOption "b" (utf16 "ab")] = (fun sc => toOption sc.1) <$> take 1 ranked.
Proof.
  split; [vm_compute; reflexivity|].
  destruct (generateWrongAnswers_ranked lowerLatin risingRandom (w "t" "chat")
              chatPool 1 _ ltac:(vm_compute; reflexivity))
    as (scored & ranked & Hfst & Hscores & Hperm & Hsorted & Hopts).
  exists scored, ranked.
  assert (length scored = 2%nat) as Hlen
    by (rewrite <- (length_fmap fst), Hfst; reflexivity).
  destruct scored as [|[c0 s0] [|[c1 s1] [|? ?]]]; try discriminate Hlen.
  injection Hfst as -> ->.
  pose proof (Hscores 0%nat _ _ eq_refl) as H0.
  pose proof (Hscores 1%nat _ _ eq_refl) as H1.
  vm_compute in H0. vm_compute in H1.
  injection H0 as <-. injection H1 as <-.
  split; [reflexivity|]. split; [reflexivity|]. split; [exact Hperm|].
  split; [exact Hsorted|]. exact Hopts.
Defined.

Lemma fixedRandom_permutes : permutes fixedRandom.
Proof. by intros A l. Qed.

(** X14: a question that [generateQuestion] returns carries the target's
    id, text and definition and three options, exactly one of which has the
    target's id: the target itself. *)
Theorem generateQuestion_shape (lc : text -> text) (rnd : RandomSource)
    (cw : WordRef) (allWords : list WordRef) (q : Question) :
  permutes rnd ->
  generateQuestion lc rnd (Some cw) allWords = Ok q ->
  wordId q = id cw /\ qWord q = word cw /\ qDefinition q = definition cw /\
  length (options q) = 3%nat /\
  filter (fun o => optId o = id cw) (options q) = [toOption cw].
Proof.
  intros Hperm. unfold generateQuestion.
  destruct (generateWrongAnswers lc rnd cw allWords 2) as [wrong|e] eqn:Hw;
    simpl; [|done].
  intros [= <-]. simpl.
  destruct (generateWrongAnswers_from_pool _ _ _ _ _ _ Hw) as (Hlen & _ & Hne).
  repeat split; try done.
  - rewrite (Permutation_length (Hperm _ _)). simpl. by rewrite Hlen.
  - apply Permutation_singleton_r. rewrite (Hperm _ _).
    rewrite filter_cons, decide_True by done.
    assert (filter (fun o => optId o = id cw) wrong = []) as ->; [|done].
    apply elem_of_nil_inv. intros o [Ho Hin]%list_elem_of_filter.
    by apply (Hne o Hin).
Qed.

Lemma generateQuestion_shape_witness :
  exists q,
    generateQuestion lowerLatin fixedRandom (Some (w "w01" "bridge")) pool = Ok q /\
    length (options q) = 3%nat.
Proof.
  eexists. split; [vm_compute; reflexivity|].
  apply (generateQuestion_shape lowerLatin fixedRandom (w "w01" "bridge") pool _
           fixedRandom_permutes).
  vm_compute. reflexivity.
Defined.

(** X15: [selectRandomWords] fails exactly when the pool is shorter than
    the count asked for; otherwise it returns that many entries of the
    pool, none taken more often than the pool holds it. *)
Theorem selectRandomWords_spec {T : Type} (rnd : RandomSource) (words : list T)
    (count : nat) :
  permutes rnd ->
  match selectRandomWords rnd words count with
  | Ok selected =>
      (count <= length words)%nat /\ length selected = count /\
      selected ⊆+ words
  | Throw _ => (length words < count)%nat
  end.
Proof.
  intros Hperm. unfold selectRandomWords.
  destruct (Nat.ltb_spec (length words) count) as [Hlt|Hge]; [done|].
  split; [done|]. split.
  - rewrite length_take_le; [done|]. by rewrite (Permutation_length (Hperm _ _)).
  - etrans; [apply sublist_submseteq, sublist_take|]. by rewrite (Hperm _ _).
Qed.

Lemma selectRandomWords_spec_witness :
  match selectRandomWords fixedRandom pool 10 with
  | Ok selected =>
      (10 <= length pool)%nat /\ length selected = 10%nat /\ selected ⊆+ pool
  | Throw _ => (length pool < 10)%nat
  end.
Proof.
  exact (selectRandomWords_spec fixedRandom pool 10 fixedRandom_permutes).
Defined.

Lemma filter_disjoint_submseteq {A : Type} (P Q : A -> Prop)
    `{!forall x, Decision (P x)} `{!forall x, Decision (Q x)} (l : list A) :
  (forall x, P x -> Q x -> False) -> filter P l ++ filter Q l ⊆+ l.
Proof.
  intros Hdis. induction l as [|x l IH]; [done|].
  rewrite !filter_cons.
  destruct (decide (P x)) as [HP|HP], (decide (Q x)) as [HQ|HQ].
  - by destruct (Hdis x).
  - simpl. by apply submseteq_skip.
  - rewrite <- Permutation_middle. by apply submseteq_skip.
  - by apply submseteq_cons.
Qed.

(** X16: [selectWords] returns pool words, none more often than the pool
    holds it, as many as asked for or as many as the pool has that are
    either attempted or never attempted; when the attempted words suffice it
    returns attempted words only, and when they do not it returns all of
    them. *)
Theorem selectWords_spec (rnd : RandomSource) (allWords : list WordItem.t)
    (count : nat) :
  permutes rnd ->
  let selected := selectWords rnd allWords count in
  let nAttempted := length (filter attempted allWords) in
  let nFresh := length (filter unattempted allWords) in
  selected ⊆+ allWords /\
  length selected = (count `min` (nAttempted + nFresh))%nat /\
  ((count <= nAttempted)%nat -> Forall attempted selected) /\
  ((nAttempted <= count)%nat -> filter attempted allWords ⊆+ selected).
Proof.
  intros Hperm. unfold selectWords. simpl.
  set (att := filter attempted allWords).
  set (fresh := filter unattempted allWords).
  set (sAtt := shuffled rnd _ att).
  set (sFresh := shuffled rnd _ fresh).
  set (chosen := take count sAtt ++ take (count - length sAtt) sFresh).
  assert (length sAtt = length att) as Hla
    by (apply Permutation_length, Hperm).
  assert (length sFresh = length fresh) as Hlf
    by (apply Permutation_length, Hperm).
  assert (length chosen = (count `min` (length att + length fresh))%nat) as Hlc.
  { subst chosen. rewrite length_app, !length_take. lia. }
  assert (take count (shuffled rnd _ chosen) ≡ₚ chosen) as Hall.
  { rewrite <- (Hperm _ chosen) at 2. rewrite take_ge; [done|].
    rewrite (Permutation_length (Hperm _ chosen)). lia. }
  rewrite Hall. split; [|split; [|split]].
  - etrans; [|apply (filter_disjoint_submseteq attempted unattempted)].
    + subst chosen. apply submseteq_app.
      * etrans; [apply sublist_submseteq, sublist_take|].
        subst sAtt. by rewrite (Hperm _ att).
      * etrans; [apply sublist_submseteq, sublist_take|].
        subst sFresh. by rewrite (Hperm _ fresh).
    + intros x [Hr|[Hr|Hr]] (Hn & Hr0 & Hw0).
      * rewrite Hn in Hr. by destruct Hr.
      * lia.
      * lia.
  - exact Hlc.
  - intros Hcount. subst chosen.
    rewrite Hla, (proj2 (Nat.sub_0_le _ _) Hcount), take_0, app_nil_r.
    apply Forall_forall. intros x Hx.
    assert (x ∈ att) as Hin.
    { rewrite <- (Hperm _ att). fold sAtt.
      eapply elem_of_submseteq; [exact Hx|].
      apply sublist_submseteq, sublist_take. }
    subst att. by apply list_elem_of_filter in Hin as [Hin _].
  - intros Hcount. subst chosen. rewrite take_ge by lia.
    rewrite <- (Hperm _ att). fold sAtt. by apply submseteq_inserts_r.
Qed.

Lemma selectWords_spec_witness :
  let fresh := Srs.sampleWord 1 0 (mkDate 100 0) in
  let seen :=
    Srs.applyAnswer (mkDate 100 5) (mkDate 100 6) fresh true Srs.defaultConfig true in
  length (selectWords fixedRandom [fresh; seen; fresh] 2) = 2%nat /\
  (filter attempted [fresh; seen; fresh] ⊆+ selectWords fixedRandom [fresh; seen; fresh] 2).
Proof.
  intros fresh seen.
  destruct (selectWords_spec fixedRandom [fresh; seen; fresh] 2
              fixedRandom_permutes) as (_ & Hlen & _ & Hall).
  split; [exact Hlen|]. apply Hall. vm_compute. lia.
Defined.
End WordSelectionProps.

(** ** Reverse mode: invariants of the answer table and of the scores *)

Module ReverseProps.
Import WordSelection Reverse ReverseStats Fixtures ReverseSpec.

Lemma sameKey_answerKey (roomId : string) (questionIndex : Z) (userId : string)
    (a : AnswerRow) :
  sameKey roomId questionIndex userId a <-> answerKey a = (roomId, questionIndex, userId).
Proof.
  unfold sameKey, answerKey. split.
  - by intros (-> & -> & ->).
  - by intros [= -> -> ->].
Qed.

Lemma answerKey_markRow (roomId : string) (questionIndex : Z) (userId : string)
    (l : list AnswerRow) :
  answerKey <$> (markRow roomId questionIndex userId <$> l) = answerKey <$> l.
Proof.
  rewrite <- list_fmap_compose. apply list_fmap_ext. intros i a _. simpl.
  unfold markRow. by case_bool_decide.
Qed.

(** What a call of [checkAllAnswersAndCalculateBonus] leaves in the tables
    of players and answers. *)
Lemma check_tables (now : Date) (db : Db) (roomId : string) (questionIndex : Z) :
  let db' := (checkAllAnswersAndCalculateBonus now db roomId questionIndex).1 in
  (players db' = players db /\ answers db' = answers db) \/
  exists a,
    filter (fun a => is_correct a = true) (questionAnswers db roomId questionIndex)
      = [a] /\
    players db' = bumpRow roomId (a_user_id a) 1 <$> players db /\
    answers db' = markRow roomId questionIndex (a_user_id a) <$> answers db.
Proof.
  unfold checkAllAnswersAndCalculateBonus.
  destruct (getReverseRoom db roomId) as [room|]; [|by left].
  destruct (_ <? _)%nat; [by left|].
  destruct (filter _ _) as [|a [|b l]] eqn:Hc; simpl; [by left | | by left].
  right. by exists a.
Qed.

Lemma uniqueAnswers_witness_data : uniqueAnswers answeredOnce.
Proof. apply (bool_decide_unpack _). vm_compute. exact I. Qed.

(** X17: the answer table keeps at most one row per (room, question,
    user) under [submitAnswer] and under
    [checkAllAnswersAndCalculateBonus]. *)
Theorem uniqueAnswers_preserved (now : Date) (db : Db) (roomId : string)
    (questionIndex : Z) (userId selectedWordId : string) (answerTimeMs : Z) :
  uniqueAnswers db ->
  (forall db',
      submitAnswer db roomId questionIndex userId selectedWordId answerTimeMs
        = Ok db' -> uniqueAnswers db') /\
  uniqueAnswers (checkAllAnswersAndCalculateBonus now db roomId questionIndex).1.
Proof.
  intros Hu. split.
  - intros db'. unfold submitAnswer.
    destruct (getReverseRoom db roomId ≫= _) as [cq|]; [|done].
    unfold insertAnswer. case_bool_decide as Hex; [by intros [= <-]|].
    simpl in Hex.
    assert (uniqueAnswers
              (mkDb (rooms db) (players db)
                 (answers db ++
                  [mkAnswer roomId questionIndex userId selectedWordId
                     (bool_decide (selectedWordId = wordId cq)) false
                     (if bool_decide (selectedWordId = wordId cq) then 1 else 0)
                     answerTimeMs]))) as Hnew.
    { unfold uniqueAnswers in *. simpl. rewrite fmap_app. simpl.
      apply NoDup_app. split; [done|]. split; [|apply NoDup_singleton].
      intros k (a & -> & Ha)%list_elem_of_fmap Hk.
      apply list_elem_of_singleton in Hk.
      apply Hex, Exists_exists. exists a. split; [done|].
      by apply sameKey_answerKey. }
    destruct (bool_decide (selectedWordId = wordId cq)); by intros [= <-].
  - unfold uniqueAnswers in *.
    destruct (check_tables now db roomId questionIndex) as [[_ ->]|(a & _ & _ & ->)];
      [done|].
    by rewrite answerKey_markRow.
Qed.

Lemma uniqueAnswers_preserved_witness :
  uniqueAnswers answeredAll /\
  uniqueAnswers (checkAllAnswersAndCalculateBonus t0 answeredOnce "room" 1).1.
Proof.
  destruct (uniqueAnswers_preserved t0 answeredOnce "room" 1 "bob" "w02" 4000
              uniqueAnswers_witness_data) as [Hs Hc].
  split; [apply Hs; reflexivity | exact Hc].
Defined.

Lemma foldr_add_init (l : list Z) (b : Z) :
  foldr Z.add b l = foldr Z.add 0 l + b.
Proof. induction l as [|x l IH]; simpl; [lia|]. rewrite IH. lia. Qed.

Lemma earned_app (rs : gmap string RoomRow) (ps : list PlayerRow)
    (l : list AnswerRow) (a : AnswerRow) (roomId userId : string) :
  earned (mkDb rs ps (l ++ [a])) roomId userId
  = earned (mkDb rs ps l) roomId userId
    + (if bool_decide (a_room_id a = roomId /\ a_user_id a = userId)
       then points_earned a else 0).
Proof.
  unfold earned. simpl. rewrite filter_app, fmap_app, foldr_app.
  rewrite filter_cons, filter_nil.
  case_bool_decide as Hm.
  - rewrite decide_True by done. simpl. rewrite foldr_add_init. lia.
  - rewrite decide_False by done. simpl. lia.
Qed.

Lemma earned_answers (db1 db2 : Db) (roomId userId : string) :
  answers db1 = answers db2 -> earned db1 roomId userId = earned db2 roomId userId.
Proof. unfold earned. by intros ->. Qed.

(** X18: [submitAnswer] keeps the scores in step with the answer rows:
    if every seat's score is what its answer rows add up to, it is so after
    the call. *)
Theorem submitAnswer_keeps_scores (db db' : Db) (roomId : string)
    (questionIndex : Z) (userId selectedWordId : string) (answerTimeMs : Z) :
  scoresMatch db ->
  submitAnswer db roomId questionIndex userId selectedWordId answerTimeMs = Ok db' ->
  scoresMatch db'.
Proof.
  intros Hm. unfold submitAnswer.
  destruct (getReverseRoom db roomId ≫= _) as [cq|]; [|done].
  unfold insertAnswer. case_bool_decide as Hex; [by intros [= <-]|].
  destruct db as [rs ps l]. simpl in *.
  destruct (bool_decide (selectedWordId = wordId cq)); intros [= <-].
  - intros p' (p & -> & Hp)%list_elem_of_fmap.
    destruct (bumpRow_keeps roomId userId 1 p) as [-> ->].
    rewrite (earned_answers _
               (mkDb rs ps
                  (l ++ [mkAnswer roomId questionIndex userId selectedWordId true
                           false 1 answerTimeMs]))) by done.
    rewrite earned_app, <- (Hm p Hp). simpl.
    unfold bumpRow.
    destruct (decide (p_room_id p = roomId /\ p_user_id p = userId)) as [[E1 E2]|Hb].
    + rewrite !bool_decide_eq_true_2 by done. simpl. lia.
    + rewrite !bool_decide_eq_false_2 by (intros [E1 E2]; by apply Hb). lia.
  - intros p Hp. simpl in Hp.
    rewrite earned_app, <- (Hm p Hp). simpl. destruct (bool_decide _); lia.
Qed.

Lemma scoresMatch_asking : scoresMatch asking.
Proof.
  intros p Hp. unfold asking in Hp. simpl in Hp.
  apply elem_of_cons in Hp as [->|Hp]; [done|].
  apply elem_of_cons in Hp as [->|Hp]; [done|].
  by apply elem_of_nil in Hp.
Qed.

Lemma submitAnswer_keeps_scores_witness : scoresMatch answeredOnce.
Proof.
  apply (submitAnswer_keeps_scores asking answeredOnce "room" 1 "alice" "w01" 3000).
  - exact scoresMatch_asking.
  - reflexivity.
Defined.

Lemma markRow_absent (roomId : string) (questionIndex : Z) (userId : string)
    (l : list AnswerRow) :
  (forall a, a ∈ l -> ~ sameKey roomId questionIndex userId a) ->
  markRow roomId questionIndex userId <$> l = l.
Proof.
  intros Hno. induction l as [|x l IH]; [done|].
  rewrite fmap_cons, IH by (intros a Ha; apply Hno; by right).
  unfold markRow. rewrite bool_decide_eq_false_2; [done|]. apply Hno. left.
Qed.

Lemma earned_cons (rs : gmap string RoomRow) (ps : list PlayerRow)
    (x : AnswerRow) (l : list AnswerRow) (r u : string) :
  earned (mkDb rs ps (x :: l)) r u
  = (if bool_decide (a_room_id x = r /\ a_user_id x = u)
     then points_earned x else 0)
    + earned (mkDb rs ps l) r u.
Proof.
  unfold earned. simpl. rewrite filter_cons.
  case_bool_decide; [by rewrite decide_True | by rewrite decide_False].
Qed.

Lemma earned_mark (rs : gmap string RoomRow) (ps : list PlayerRow)
    (l : list AnswerRow) (a : AnswerRow) (roomId : string) (questionIndex : Z)
    (r u : string) :
  NoDup (answerKey <$> l) -> a ∈ l ->
  a_room_id a = roomId -> question_index a = questionIndex ->
  points_earned a = 1 ->
  earned (mkDb rs ps (markRow roomId questionIndex (a_user_id a) <$> l)) r u
  = earned (mkDb rs ps l) r u
    + (if bool_decide (roomId = r /\ a_user_id a = u) then 1 else 0).
Proof.
  intros Hnd Hin Hroom Hq Hpts.
  induction l as [|x l IH]; [by apply elem_of_nil in Hin|].
  rewrite fmap_cons in Hnd. apply NoDup_cons in Hnd as [Hx Hnd].
  assert (sameKey roomId questionIndex (a_user_id a) a) as Hka by done.
  rewrite fmap_cons, !earned_cons.
  apply elem_of_cons in Hin as [<-|Hin].
  - rewrite markRow_absent.
    + unfold markRow.
      rewrite (bool_decide_eq_true_2 (sameKey roomId questionIndex (a_user_id a) a))
        by done.
      simpl. rewrite Hroom, Hpts. destruct (bool_decide _); lia.
    + intros y Hy Hky. apply Hx. apply list_elem_of_fmap. exists y.
      split; [|done].
      apply sameKey_answerKey in Hky. apply sameKey_answerKey in Hka. congruence.
  - assert (~ sameKey roomId questionIndex (a_user_id a) x) as Hkx.
    { intros Hkx. apply Hx. apply list_elem_of_fmap. exists a. split; [|done].
      apply sameKey_answerKey in Hkx. apply sameKey_answerKey in Hka. congruence. }
    assert (markRow roomId questionIndex (a_user_id a) x = x) as ->
      by (unfold markRow; by rewrite bool_decide_eq_false_2).
    rewrite (IH Hnd Hin). lia.
Qed.

(** X19: the first bonus keeps the scores in step with the answer rows:
    with at most one row per key and every correct answer to the question
    still worth 1 point, scores that match the rows before
    [checkAllAnswersAndCalculateBonus] match them after it. *)
Theorem first_bonus_keeps_scores (now : Date) (db : Db) (roomId : string)
    (questionIndex : Z) :
  scoresMatch db ->
  uniqueAnswers db ->
  (forall a, a ∈ questionAnswers db roomId questionIndex ->
     is_correct a = true -> points_earned a = 1) ->
  scoresMatch (checkAllAnswersAndCalculateBonus now db roomId questionIndex).1.
Proof.
  intros Hm Hu Hone.
  destruct (check_tables now db roomId questionIndex)
    as [[Hp Ha]|(a & Hc & Hp & Ha)].
  - intros p Hpin. rewrite Hp in Hpin.
    rewrite (earned_answers _ db) by done. by apply Hm.
  - assert (a ∈ filter (fun a => is_correct a = true)
                  (questionAnswers db roomId questionIndex)) as Hin
      by (rewrite Hc; left).
    apply list_elem_of_filter in Hin as [Hcorrect Hin].
    pose proof (Hone a Hin Hcorrect) as Hpts.
    unfold questionAnswers in Hin.
    apply list_elem_of_filter in Hin as [[Hroom Hq] Hin].
    intros p'. rewrite Hp. intros (p & -> & Hpin)%list_elem_of_fmap.
    destruct (bumpRow_keeps roomId (a_user_id a) 1 p) as [-> ->].
    rewrite (earned_answers _
               (mkDb (rooms db) (players db)
                  (markRow roomId questionIndex (a_user_id a) <$> answers db)))
      by done.
    rewrite (earned_mark (rooms db) (players db) (answers db) a roomId
               questionIndex (p_room_id p) (p_user_id p) Hu Hin Hroom Hq Hpts).
    rewrite (earned_answers _ db) by done.
    rewrite <- (Hm p Hpin).
    unfold bumpRow.
    destruct (decide (p_room_id p = roomId /\ p_user_id p = a_user_id a))
      as [[E1 E2]|Hb].
    + rewrite !bool_decide_eq_true_2 by done. simpl. lia.
    + rewrite !bool_decide_eq_false_2 by (intros [E1 E2]; by apply Hb). lia.
Qed.

Lemma first_bonus_keeps_scores_witness :
  let out := checkAllAnswersAndCalculateBonus t0 answeredAll "room" 1 in
  out.2 = true /\
  (fun p => (p_user_id p, total_score p)) <$> players out.1
    = [("alice", 2); ("bob", 0)] /\
  (fun a => (a_user_id a, points_earned a)) <$> answers out.1
    = [("alice", 2); ("bob", 0)] /\
  scoresMatch out.1.
Proof.
  cbv zeta. split; [reflexivity|]. split; [reflexivity|].
  split; [reflexivity|].
  apply (first_bonus_keeps_scores t0 answeredAll "room" 1).
  - intros p Hp. vm_compute in Hp.
    apply elem_of_cons in Hp as [->|Hp]; [reflexivity|].
    apply elem_of_cons in Hp as [->|Hp]; [reflexivity|].
    by apply elem_of_nil in Hp.
  - apply (bool_decide_unpack _). vm_compute. exact I.
  - intros a Ha. vm_compute in Ha.
    apply elem_of_cons in Ha as [->|Ha]; [done|].
    apply elem_of_cons in Ha as [->|Ha]; [done|].
    by apply elem_of_nil in Ha.
Defined.

(** X20: [checkAllAnswersAndCalculateBonus] returns true exactly when the
    room exists and has at least as many answers to the question as seated
    players; when it returns false the store is untouched; when it returns
    true the room is in [results], no answer row is added, removed or
    changed in its key, selection, correctness or time, and the other rooms
    are as they were. *)
Theorem checkAllAnswers_outcome (now : Date) (db : Db) (roomId : string)
    (questionIndex : Z) :
  let r := checkAllAnswersAndCalculateBonus now db roomId questionIndex in
  (r.2 = true <->
   exists room, getReverseRoom db roomId = Some room /\
     (length (roomPlayers room)
      <= length (questionAnswers db roomId questionIndex))%nat) /\
  (r.2 = false -> r.1 = db) /\
  (r.2 = true ->
   (status <$> rooms r.1 !! roomId) = Some results /\
   (fun a => (answerKey a, selected_word_id a, is_correct a, answer_time_ms a))
     <$> answers r.1
   = (fun a => (answerKey a, selected_word_id a, is_correct a, answer_time_ms a))
     <$> answers db /\
   forall other, other <> roomId -> rooms r.1 !! other = rooms db !! other).
Proof.
  simpl.
  pose proof (check_tables now db roomId questionIndex) as Htab.
  unfold checkAllAnswersAndCalculateBonus in *.
  destruct (getReverseRoom db roomId) as [room|] eqn:Hroom; simpl.
  2:{ split; [|done]. split; [done|]. by intros (room & ? & _). }
  pose proof (getReverseRoom_row _ _ _ Hroom) as Hrow.
  destruct (Nat.ltb_spec (length (questionAnswers db roomId questionIndex))
              (length (roomPlayers room))) as [Hlt|Hge]; simpl.
  { split; [|done]. split; [done|]. intros (room' & [= <-] & Hle). lia. }
  split; [split; [intros _; by exists room | done]|]. split; [done|]. intros _.
  set (db1 := match filter _ _ with [a] => _ | _ => db end) in *.
  assert (rooms db1 = rooms db) as Hrooms.
  { subst db1. by destruct (filter _ _) as [|a [|b l]]. }
  split; [|split].
  - unfold updateReverseRoom, setRooms. simpl.
    rewrite lookup_alter_eq, Hrooms, Hrow. done.
  - simpl in Htab. destruct Htab as [[_ ->]|(a & _ & _ & ->)]; [done|].
    rewrite <- list_fmap_compose. apply list_fmap_ext. intros i x _. simpl.
    unfold answerKey, markRow. by case_bool_decide.
  - intros other Hne. unfold updateReverseRoom, setRooms. simpl.
    by rewrite lookup_alter_ne, Hrooms.
Qed.

Lemma foldl_min_le (l : list Z) (a : Z) :
  foldl Z.min a l <= a /\ forall i, i ∈ l -> foldl Z.min a l <= i.
Proof.
  revert a. induction l as [|x l IH]; intros a; simpl.
  - split; [lia|]. intros i Hi. by apply elem_of_nil in Hi.
  - destruct (IH (Z.min a x)) as [H1 H2]. split; [lia|].
    intros i [->|Hi]%elem_of_cons; [lia | by apply H2].
Qed.

Lemma foldl_add_bounds (lo hi : Z) (l : list Z) (a : Z) :
  Forall (fun t => lo <= t <= hi) l ->
  a + lo * Z.of_nat (length l) <= foldl Z.add a l <= a + hi * Z.of_nat (length l).
Proof.
  intros Hall. revert a. induction Hall as [|x l Hx Hall IH]; intros a; simpl.
  - lia.
  - specialize (IH (a + x)). lia.
Qed.

(** The mean that [getPlayerStats] reports lies between the extremes. *)
Lemma roundedMean_between (ts : list Z) :
  ts <> [] ->
  minOf ts <= roundedMean (foldl Z.add 0 ts) (Z.of_nat (length ts)) <= maxOf ts.
Proof.
  intros Hne. destruct ts as [|t ts]; [done|].
  assert (Forall (fun x => minOf (t :: ts) <= x <= maxOf (t :: ts)) (t :: ts))
    as Hall.
  { apply Forall_forall. intros x Hx. unfold minOf, maxOf.
    destruct (foldl_min_le ts t) as [Hm1 Hm2].
    destruct (SrsFacts.foldl_max_ge ts t) as [HM1 HM2].
    apply elem_of_cons in Hx as [->|Hx]; [lia|].
    specialize (Hm2 x Hx). specialize (HM2 x Hx). lia. }
  pose proof (foldl_add_bounds _ _ _ 0 Hall) as Hsum.
  set (n := Z.of_nat (length (t :: ts))) in *.
  assert (0 < n) by (subst n; simpl; lia).
  unfold roundedMean. split.
  - apply Z.div_le_lower_bound; [lia|]. nia.
  - assert ((2 * foldl Z.add 0 (t :: ts) + n) / (2 * n) < maxOf (t :: ts) + 1);
      [|lia].
    apply Z.div_lt_upper_bound; [lia|]. nia.
Qed.

(** X21: [getPlayerStats] returns nothing for a room that does not exist
    and otherwise one entry per seated player, highest total score first;
    in every entry the correct and wrong counts are not negative and add up
    to the player's answers in the room, the bonus count is at most that
    number, and the fastest, mean and slowest times are in this order. *)
Theorem getPlayerStats_spec (db : Db) (roomId : string) :
  let stats := getPlayerStats db roomId in
  match getReverseRoom db roomId with
  | None => stats = []
  | Some room =>
      length stats = length (roomPlayers room) /\
      StronglySorted (fun a b => totalScore b <= totalScore a) stats /\
      forall s, s ∈ stats ->
        (exists p, p ∈ roomPlayers room /\ userId s = p_user_id p /\
                   totalScore s = total_score p) /\
        0 <= correctAnswers s /\ 0 <= wrongAnswers s /\
        correctAnswers s + wrongAnswers s
          = Z.of_nat (length (filter (fun a => a_room_id a = roomId /\
                                               a_user_id a = userId s)
                                (answers db))) /\
        0 <= bonusPoints s <= correctAnswers s + wrongAnswers s /\
        fastestAnswerMs s <= averageAnswerTimeMs s <= slowestAnswerMs s
  end.
Proof.
  simpl. unfold getPlayerStats.
  destruct (getReverseRoom db roomId) as [room|]; [|done].
  set (roomAnswers := filter _ (answers db)).
  split; [by rewrite stableSort_length, length_fmap|]. split.
  - eapply (StronglySorted_weaken
              (fun a b : PlayerStats => (totalScore b <=? totalScore a) = true)).
    + intros a b Hab. lia.
    + apply stableSort_sorted; intros; lia.
  - intros s Hs. rewrite stableSort_elem_of in Hs.
    apply list_elem_of_fmap in Hs as (p & -> & Hp).
    unfold statsOf. simpl.
    set (mine := filter (fun a => a_user_id a = p_user_id p) roomAnswers).
    assert (length (filter (fun a => is_correct a = true) mine) <= length mine)%nat
      by apply length_filter.
    assert (length (filter (fun a => was_only_correct a = true) mine)
            <= length mine)%nat by apply length_filter.
    split; [by exists p|]. split; [lia|]. split; [lia|]. split.
    + assert (mine = filter (fun a => a_room_id a = roomId /\
                                       a_user_id a = p_user_id p) (answers db))
        as Hmine.
      { subst mine roomAnswers. rewrite list_filter_filter.
        apply list_filter_iff. intros a. tauto. }
      rewrite <- Hmine. lia.
    + split; [lia|].
      destruct (answer_time_ms <$> mine) as [|t ts] eqn:Hts; [done|].
      apply roundedMean_between. done.
Qed.
End ReverseProps.

(** ** Creating and joining rooms *)

Module LobbyProps.
Import Versus Lobby.

Lemma insertVersusRoom_cases (users : gmap string string)
    (table : list VersusRoom) (rid code creator : string) (now : Date) :
  (clashes table rid code /\
   insertVersusRoom users table rid code creator now = Throw unique_violation) \/
  (~ clashes table rid code /\ users !! creator = None /\
   insertVersusRoom users table rid code creator now
     = Throw foreign_key_violation) \/
  (~ clashes table rid code /\ is_Some (users !! creator) /\
   insertVersusRoom users table rid code creator now
     = Ok (table ++ [newVersusRoom rid code creator now])).
Proof.
  unfold insertVersusRoom.
  destruct (decide (clashes table rid code)) as [Hc|Hc].
  - left. by rewrite bool_decide_eq_true_2.
  - right. rewrite (bool_decide_eq_false_2 _ Hc).
    destruct (users !! creator) as [n|] eqn:Hu.
    + right. rewrite bool_decide_eq_true_2 by eauto. eauto.
    + left. rewrite bool_decide_eq_false_2; [done|]. by intros [? ?].
Qed.

Lemma createVersusLoop_spec (users : gmap string string)
    (table : list VersusRoom) (creator : string) (codes ids : nat -> string)
    (now : Date) (remaining attempt : nat) :
  match createVersusLoop users table creator codes ids now remaining attempt with
  | Ok (code, rid, table') =>
      exists k, (attempt <= k < attempt + remaining)%nat /\
        code = codes k /\ rid = ids k /\
        (forall j, (attempt <= j < k)%nat -> clashes table (ids j) (codes j)) /\
        ~ clashes table rid code /\ is_Some (users !! creator) /\
        table' = table ++ [newVersusRoom rid code creator now]
  | Throw e =>
      (e = giveUp /\
       forall j, (attempt <= j < attempt + remaining)%nat ->
                 clashes table (ids j) (codes j)) \/
      (e = foreign_key_violation /\ users !! creator = None /\
       exists k, (attempt <= k < attempt + remaining)%nat /\
         ~ clashes table (ids k) (codes k) /\
         forall j, (attempt <= j < k)%nat -> clashes table (ids j) (codes j))
  end.
Proof.
  revert attempt. induction remaining as [|n IH]; intros attempt; simpl.
  - left. split; [done|]. intros j Hj. lia.
  - destruct (insertVersusRoom_cases users table (ids attempt) (codes attempt)
                creator now) as [[Hc ->]|[(Hc & Hu & ->)|(Hc & Hu & ->)]].
    + rewrite bool_decide_eq_true_2 by done.
      specialize (IH (S attempt)).
      destruct (createVersusLoop _ _ _ _ _ _ n (S attempt)) as [[[code rid] t']|e].
      * destruct IH as (k & Hk & -> & -> & Hbefore & Hrest).
        exists k. split; [lia|]. split; [done|]. split; [done|].
        split; [|exact Hrest].
        intros j Hj. destruct (decide (j = attempt)) as [->|Hne]; [done|].
        apply Hbefore. lia.
      * destruct IH as [[-> Hall]|(-> & Hu & k & Hk & Hfree & Hbefore)].
        -- left. split; [done|]. intros j Hj.
           destruct (decide (j = attempt)) as [->|Hne]; [done|].
           apply Hall. lia.
        -- right. split; [done|]. split; [done|]. exists k.
           split; [lia|]. split; [done|]. intros j Hj.
           destruct (decide (j = attempt)) as [->|Hne]; [done|].
           apply Hbefore. lia.
    + rewrite bool_decide_eq_false_2 by done. right.
      split; [done|]. split; [done|]. exists attempt.
      split; [lia|]. split; [done|]. intros j Hj. lia.
    + exists attempt. split; [lia|]. repeat split; try done. intros j Hj. lia.
Qed.

(** X22: [create_versus_room] takes the first of its ten draws that no
    room has yet, as code or as id, and appends a waiting room of the
    creator under it, keeping codes and ids unique; it gives up exactly
    when all ten draws clash, and fails otherwise only for a creator who is
    no user. *)
Theorem create_versus_room_spec (users : gmap string string)
    (table : list VersusRoom) (creator : string) (codes ids : nat -> string)
    (now : Date) :
  match create_versus_room users table creator codes ids now with
  | Ok (code, rid, table') =>
      (exists k, (k < 10)%nat /\ code = codes k /\ rid = ids k /\
         forall j, (j < k)%nat -> clashes table (ids j) (codes j)) /\
      is_Some (users !! creator) /\
      table' = table ++ [mkRoom rid code creator None waiting None [] [] 0 0 0 0
                           0 0 0 0 None None now] /\
      (NoDup (roomCode <$> table) -> NoDup (roomCode <$> table')) /\
      (NoDup (roomId <$> table) -> NoDup (roomId <$> table'))
  | Throw e =>
      (e = giveUp /\
       forall j, (j < 10)%nat -> clashes table (ids j) (codes j)) \/
      (e = foreign_key_violation /\ users !! creator = None /\
       exists k, (k < 10)%nat /\ ~ clashes table (ids k) (codes k))
  end.
Proof.
  unfold create_versus_room.
  pose proof (createVersusLoop_spec users table creator codes ids now 10 0) as H.
  destruct (createVersusLoop _ _ _ _ _ _ _ _) as [[[code rid] table']|e].
  - destruct H as (k & Hk & -> & -> & Hbefore & Hfree & Hu & ->).
    split; [exists k; split; [lia|]; repeat split; intros j Hj; apply Hbefore; lia|].
    split; [done|]. split; [done|].
    assert (forall r, r ∈ table -> roomId r <> ids k /\ roomCode r <> codes k) as Hfresh.
    { intros r Hr. split; intros E; apply Hfree, Exists_exists; exists r; auto. }
    split; intros Hnd; rewrite fmap_app; apply NoDup_app; (split; [done|]);
      (split; [|apply NoDup_singleton]);
      intros x (r & -> & Hr)%list_elem_of_fmap E%list_elem_of_singleton;
      simpl in E; by destruct (Hfresh r Hr).
  - destruct H as [[-> Hall]|(-> & Hu & k & Hk & Hfree & _)].
    + left. split; [done|]. intros j Hj. apply Hall. lia.
    + right. split; [done|]. split; [done|]. exists k. split; [lia|done].
Qed.

Lemma NoDup_fmap_eq {A B : Type} (f : A -> B) (l : list A) (x y : A) :
  NoDup (f <$> l) -> x ∈ l -> y ∈ l -> f x = f y -> x = y.
Proof.
  induction l as [|a l IH]; simpl; [by intros _ ?%elem_of_nil|].
  intros [Ha Hnd]%NoDup_cons [->|Hx]%elem_of_cons [->|Hy]%elem_of_cons E; auto.
  - exfalso. apply Ha. rewrite E. by apply list_elem_of_fmap_2.
  - exfalso. apply Ha. rewrite <- E. by apply list_elem_of_fmap_2.
Qed.

Lemma find_fmap_stable {A : Type} (P : A -> bool) (f : A -> A) (l : list A) :
  (forall x, P (f x) = P x) -> List.find P (f <$> l) = f <$> List.find P l.
Proof.
  intros HP. induction l as [|a l IH]; simpl; [done|].
  rewrite HP. by destruct (P a).
Qed.

(** X23: a successful [join_versus_room] returns the id of the room with
    the code; every row of the table is untouched, or is that room, waiting
    and with seat B free, and gets the caller in seat B; afterwards the
    caller holds a seat of the room, and joining again (at any time)
    returns the same id and changes nothing. *)
Theorem join_versus_room_spec (users : gmap string string)
    (table table' : list VersusRoom) (code user rid : string) (now now' : Date) :
  NoDup (roomId <$> table) ->
  join_versus_room users table code user now = Ok (rid, table') ->
  Forall2 (fun r r' =>
             r' = r \/
             (r' = seatB user now r /\ roomId r = rid /\ roomCode r = code /\
              status r = waiting /\ playerBId r = None /\ playerAId r <> user))
    table table' /\
  (exists r', r' ∈ table' /\ roomId r' = rid /\ roomCode r' = code /\
     (playerAId r' = user \/ playerBId r' = Some user)) /\
  join_versus_room users table' code user now' = Ok (rid, table').
Proof.
  intros Hnd. unfold join_versus_room.
  destruct (List.find _ table) as [room|] eqn:Hfind; [|done].
  destruct (find_some _ _ Hfind) as [Hin%list_elem_of_In Hcode%bool_decide_eq_true].
  case_bool_decide as Hseated.
  - intros [= <- <-]. split; [|split].
    + apply Forall_Forall2_diag, Forall_forall. auto.
    + exists room. auto.
    + rewrite Hfind. by rewrite bool_decide_eq_true_2.
  - case_bool_decide as Hst; [done|]. case_bool_decide as Hb; [done|].
    case_bool_decide as Hu; [|done]. intros [= <- <-].
    split; [|split].
    + apply Forall2_fmap_r, Forall_Forall2_diag, Forall_forall.
      intros r Hr. simpl. case_bool_decide as Hid; [|by left]. right.
      assert (r = room) as -> by by eapply (NoDup_fmap_eq roomId).
      repeat split; try done. intros E. apply Hseated. by left.
    + exists (seatB user now room). split; [|by auto].
      apply list_elem_of_fmap. exists room.
      by rewrite bool_decide_eq_true_2.
    + rewrite find_fmap_stable, Hfind;
        [|intros x; by destruct (bool_decide (roomId x = roomId room))].
      simpl. rewrite (bool_decide_eq_true_2 (roomId room = roomId room)) by done.
      rewrite bool_decide_eq_true_2; [done|]. by right.
Qed.

Lemma join_versus_room_spec_witness :
  exists r', r' ∈ [seatB "bob" Fixtures.t0
                     (newVersusRoom "r1" "ABCD" "alice" Fixtures.t0)] /\
    roomId r' = "r1" /\ roomCode r' = "ABCD" /\
    (playerAId r' = "bob" \/ playerBId r' = Some "bob").
Proof.
  destruct (join_versus_room_spec {["bob" := "Bob"]}
              [newVersusRoom "r1" "ABCD" "alice" Fixtures.t0]
              [seatB "bob" Fixtures.t0
                 (newVersusRoom "r1" "ABCD" "alice" Fixtures.t0)]
              "ABCD" "bob" "r1" Fixtures.t0 Fixtures.t0) as (_ & H & _).
  - apply NoDup_singleton.
  - vm_compute. reflexivity.
  - exact H.
Defined.

(** *** Reverse rooms *)

Lemma roomByCode_Some (db : Reverse.Db) (code rid : string) (room : Reverse.RoomRow) :
  roomByCode db code = Some (rid, room) ->
  Reverse.rooms db !! rid = Some room /\ Reverse.room_code room = code.
Proof.
  unfold roomByCode. intros H%head_Some_elem_of.
  apply list_elem_of_filter in H as [Hc H]. split; [|done].
  by apply elem_of_map_to_list in H.
Qed.

Lemma fmap_filter_comm {A B : Type} (f : A -> B) (Q : B -> Prop)
    `{!forall y, Decision (Q y)} (l : list A) :
  f <$> filter (fun x => Q (f x)) l = filter Q (f <$> l).
Proof.
  induction l as [|x l IH]; [done|].
  rewrite fmap_cons, !filter_cons.
  destruct (decide (Q (f x))); by rewrite ?fmap_cons, IH.
Qed.

Lemma seatsOf_keys (db : Reverse.Db) (rid : string) :
  seatKey <$> seatsOf db rid
  = filter (fun k => k.1.1 = rid) (seatKey <$> Reverse.players db).
Proof. unfold seatsOf. by rewrite <- fmap_filter_comm. Qed.

Lemma seated_ext (db db' : Reverse.Db) :
  (forall rid, is_Some (Reverse.rooms db !! rid) ->
               is_Some (Reverse.rooms db' !! rid)) ->
  seatKey <$> Reverse.players db' = seatKey <$> Reverse.players db ->
  seated db -> seated db'.
Proof.
  intros Hrooms Hkeys [Hfk Hseats]. split.
  - intros p' Hp'.
    assert (seatKey p' ∈ seatKey <$> Reverse.players db) as Hin
      by (rewrite <- Hkeys; by apply list_elem_of_fmap_2).
    apply list_elem_of_fmap in Hin as (p & E & Hp).
    injection E as E1 _ _. rewrite E1. by apply Hrooms, Hfk.
  - intros rid. specialize (Hseats rid).
    assert (seatKey <$> seatsOf db' rid = seatKey <$> seatsOf db rid) as E
      by (by rewrite !seatsOf_keys, Hkeys).
    assert (Reverse.join_order <$> seatsOf db' rid
            = Reverse.join_order <$> seatsOf db rid) as E1.
    { change Reverse.join_order with (snd ∘ seatKey).
      by rewrite !list_fmap_compose, E. }
    assert (Reverse.p_user_id <$> seatsOf db' rid
            = Reverse.p_user_id <$> seatsOf db rid) as E2.
    { change Reverse.p_user_id with ((fun k => k.1.2) ∘ seatKey).
      by rewrite !list_fmap_compose, E. }
    assert (length (seatsOf db' rid) = length (seatsOf db rid)) as E3
      by (by rewrite <- (length_fmap seatKey), E, length_fmap).
    by rewrite E1, E2, E3.
Qed.

Lemma maxJoinOrder_seated (l : list Reverse.PlayerRow) :
  Reverse.join_order <$> l ≡ₚ seqZ 1 (Z.of_nat (length l)) ->
  maxJoinOrder l = Z.of_nat (length l).
Proof.
  intros Hperm. unfold maxJoinOrder.
  assert (length (Reverse.join_order <$> l) = length l) as Hlen
    by apply length_fmap.
  destruct (Reverse.join_order <$> l) as [|o os] eqn:E.
  - simpl in Hlen. by rewrite <- Hlen.
  - destruct (SrsFacts.foldl_max_ge os o) as [Ho Hos].
    pose proof (SrsFacts.foldl_max_elem os o) as Hin.
    rewrite Hperm in Hin. apply elem_of_seqZ in Hin.
    assert (Z.of_nat (length l) ∈ o :: os) as Hn.
    { rewrite Hperm. apply elem_of_seqZ. simpl in Hlen. lia. }
    apply elem_of_cons in Hn as [Hn|Hn]; [lia|].
    specialize (Hos _ Hn). lia.
Qed.

Lemma seatsOf_snoc (db : Reverse.Db) (p : Reverse.PlayerRow) (rid : string) :
  seatsOf (Reverse.mkDb (Reverse.rooms db) (Reverse.players db ++ [p])
             (Reverse.answers db)) rid
  = seatsOf db rid ++ (if decide (Reverse.p_room_id p = rid) then [p] else []).
Proof.
  unfold seatsOf. simpl. rewrite filter_app. by f_equal.
Qed.

(** A new seat with the next join order keeps the seats in order. *)
Lemma insertSeat_seated (users : gmap string string) (db : Reverse.Db)
    (p : Reverse.PlayerRow) :
  seated db ->
  Reverse.join_order p
    = Z.of_nat (length (seatsOf db (Reverse.p_room_id p))) + 1 ->
  (length (seatsOf db (Reverse.p_room_id p)) < 5)%nat ->
  is_Some (Reverse.rooms db !! Reverse.p_room_id p) ->
  is_Some (users !! Reverse.p_user_id p) ->
  ~ Exists (fun q => Reverse.p_room_id q = Reverse.p_room_id p /\
                     Reverse.p_user_id q = Reverse.p_user_id p)
      (Reverse.players db) ->
  insertSeat users db p
    = Ok (Reverse.mkDb (Reverse.rooms db) (Reverse.players db ++ [p])
            (Reverse.answers db)) /\
  seated (Reverse.mkDb (Reverse.rooms db) (Reverse.players db ++ [p])
            (Reverse.answers db)).
Proof.
  intros [Hfk Hseats] Horder Hcount Hroom Huser Hnew. split.
  - unfold insertSeat.
    rewrite bool_decide_eq_false_2 by (intros Hn; apply Hn; lia).
    rewrite (bool_decide_eq_false_2 _ Hnew).
    by rewrite bool_decide_eq_true_2.
  - split.
    + simpl. intros q [Hq| ->%list_elem_of_singleton]%elem_of_app; auto.
    + intros rid. rewrite seatsOf_snoc.
      destruct (Hseats rid) as (Hperm & Hlen & Hnd).
      destruct (decide (Reverse.p_room_id p = rid)) as [<-|Hne].
      * rewrite !fmap_app, length_app. simpl. split; [|split].
        -- rewrite Nat.add_1_r, seqZ_S, Horder, Hperm.
           by rewrite (Z.add_comm 1).
        -- lia.
        -- apply NoDup_app. split; [done|]. split; [|apply NoDup_singleton].
           intros u (q & -> & Hq)%list_elem_of_fmap E%list_elem_of_singleton.
           apply Hnew, Exists_exists. exists q.
           apply list_elem_of_filter in Hq as [Hq1 Hq2]. auto.
      * by rewrite !app_nil_r.
Qed.

(** X24: on a store whose seats are in order, [join_reverse_room] fails
    only with one of its own four messages (no constraint of the table is
    ever violated), and when it returns, the seats are in order again, the
    caller holds a connected seat of the room with the code, and the rooms,
    the answers and the seats of every other room are as before. *)
Theorem join_reverse_room_seats (users : gmap string string) (db : Reverse.Db)
    (code user : string) :
  seated db ->
  match join_reverse_room users db code user with
  | Ok (rid, db') =>
      seated db' /\
      (exists room, Reverse.rooms db !! rid = Some room /\
                    Reverse.room_code room = code) /\
      (exists p, p ∈ seatsOf db' rid /\ Reverse.p_user_id p = user /\
                 Reverse.is_connected p = true) /\
      Reverse.rooms db' = Reverse.rooms db /\
      Reverse.answers db' = Reverse.answers db /\
      forall other, other <> rid -> seatsOf db' other = seatsOf db other
  | Throw e =>
      e ∈ [Error "Room not found"; Error "Room has already started";
           Error "Room is full (maximum 5 players)"; Error "User not found"]
  end.
Proof.
  intros Hs. unfold join_reverse_room.
  destruct (roomByCode db code) as [[rid room]|] eqn:Hroom;
    [|apply (bool_decide_unpack _); vm_compute; exact I].
  apply roomByCode_Some in Hroom as [Hroom Hcode].
  case_bool_decide as Hex.
  - split; [|split; [|split; [|split; [|split]]]]; try done.
    + apply (seated_ext db); [done| |done]. simpl.
      rewrite <- list_fmap_compose. apply list_fmap_ext. intros i p _. simpl.
      unfold reconnect. by case_bool_decide.
    + eauto.
    + apply Exists_exists in Hex as (p & Hp & E1 & E2).
      exists (reconnect rid user p). unfold reconnect.
      rewrite bool_decide_eq_true_2 by done. split; [|done].
      apply list_elem_of_filter. split; [done|]. simpl.
      apply list_elem_of_fmap. exists p. split; [|done].
      unfold reconnect. by rewrite bool_decide_eq_true_2.
    + intros other Hne. unfold seatsOf. simpl.
      rewrite (ReverseSpec.filter_fmap_stable _ (reconnect rid user)).
      * rewrite <- (list_fmap_id (filter _ (Reverse.players db))) at 2.
        apply Forall_fmap_ext_1, Forall_forall.
        intros p [Hp _]%list_elem_of_filter. unfold reconnect.
        rewrite bool_decide_eq_false_2; [done|]. intros [E _]. congruence.
      * intros p. unfold reconnect. by case_bool_decide.
  - case_bool_decide as Hst;
      [apply (bool_decide_unpack _); vm_compute; exact I|].
    destruct (Z.leb_spec 5 (Z.of_nat (length (seatsOf db rid)))) as [Hfull|Hfree];
      [apply (bool_decide_unpack _); vm_compute; exact I|].
    destruct (users !! user) as [name|] eqn:Hu;
      [|apply (bool_decide_unpack _); vm_compute; exact I].
    destruct (insertSeat_seated users db
                (Reverse.mkPlayer rid user name
                   (maxJoinOrder (seatsOf db rid) + 1) 0 true))
      as [-> Hs'].
    { done. }
    { simpl. f_equal. apply maxJoinOrder_seated. destruct Hs as [_ Hs]. apply Hs. }
    { simpl. lia. }
    { simpl. eauto. }
    { simpl. eauto. }
    { done. }
    simpl. split; [done|]. split; [eauto|]. split.
    { exists (Reverse.mkPlayer rid user name
                (maxJoinOrder (seatsOf db rid) + 1) 0 true).
      split; [|done].
      rewrite seatsOf_snoc. simpl. rewrite decide_True by done.
      apply elem_of_app. right. by left. }
    split; [done|]. split; [done|].
    intros other Hne. rewrite seatsOf_snoc. simpl.
    rewrite decide_False by done. apply app_nil_r.
Qed.

Lemma seated_no_players (rooms : gmap string Reverse.RoomRow)
    (answers : list Reverse.AnswerRow) :
  seated (Reverse.mkDb rooms [] answers).
Proof.
  split; [by intros p ?%elem_of_nil|].
  intros rid. unfold seatsOf. simpl. split; [done|]. split; [lia|].
  apply NoDup_nil_2.
Qed.

Lemma seated_single_room (rooms : gmap string Reverse.RoomRow) (rid : string)
    (ps : list Reverse.PlayerRow) (answers : list Reverse.AnswerRow) :
  is_Some (rooms !! rid) ->
  Forall (fun p => Reverse.p_room_id p = rid) ps ->
  Reverse.join_order <$> ps ≡ₚ seqZ 1 (Z.of_nat (length ps)) ->
  (length ps <= 5)%nat ->
  NoDup (Reverse.p_user_id <$> ps) ->
  seated (Reverse.mkDb rooms ps answers).
Proof.
  intros Hroom Hall Horders Hlen Hnd. split.
  - simpl. intros p Hp. rewrite Forall_forall in Hall. by rewrite (Hall p Hp).
  - intros r. unfold seatsOf. simpl.
    destruct (decide (r = rid)) as [->|Hne].
    + assert (filter (fun p => Reverse.p_room_id p = rid) ps = ps) as ->; [|done].
      clear -Hall. induction Hall as [|p ps Hp Hall IH]; [done|].
      rewrite filter_cons, decide_True by done. by rewrite IH.
    + assert (filter (fun p => Reverse.p_room_id p = r) ps = []) as ->.
      { apply elem_of_nil_inv. intros p [E Hp]%list_elem_of_filter.
        rewrite Forall_forall in Hall. rewrite (Hall p Hp) in E. done. }
      split; [done|]. split; [simpl; lia | apply NoDup_nil_2].
Qed.

Lemma seated_lobby : seated Fixtures.lobby.
Proof.
  apply (seated_single_room _ "room").
  - by eexists.
  - by repeat constructor.
  - done.
  - simpl. lia.
  - apply (bool_decide_unpack _). vm_compute. exact I.
Qed.

Lemma seated_asking : seated Fixtures.asking.
Proof.
  apply (seated_single_room _ "room").
  - by eexists.
  - by repeat constructor.
  - done.
  - simpl. lia.
  - apply (bool_decide_unpack _). vm_compute. exact I.
Qed.

Lemma join_reverse_room_seats_witness :
  match join_reverse_room {["alice" := "Alice"; "bob" := "Bob"; "carol" := "Carol"]}
          Fixtures.lobby "ABCD" "carol" with
  | Ok (rid, db') =>
      rid = "room" /\ seated db' /\
      Reverse.players db'
      = Reverse.players Fixtures.lobby
        ++ [Reverse.mkPlayer "room" "carol" "Carol" 3 0 true]
  | Throw _ => False
  end.
Proof.
  pose proof (join_reverse_room_seats
                {["alice" := "Alice"; "bob" := "Bob"; "carol" := "Carol"]}
                Fixtures.lobby "ABCD" "carol" seated_lobby) as H.
  destruct (join_reverse_room _ _ _ _) as [[rid db']|e] eqn:E.
  - vm_compute in E. injection E as <- <-.
    split; [reflexivity|]. split; [apply H | reflexivity].
  - vm_compute in E. discriminate.
Defined.

(** The draw of an attempt that [vocab_reverse_rooms] refuses. *)
Lemma createReverseLoop_spec (users : gmap string string) (db : Reverse.Db)
    (creator name : string) (codes ids : nat -> string) (now : Date)
    (remaining attempt : nat) :
  seated db -> users !! creator = Some name ->
  match createReverseLoop users db creator name codes ids now remaining attempt with
  | Ok (code, rid, db') =>
      exists k, (attempt <= k < attempt + remaining)%nat /\
        code = codes k /\ rid = ids k /\
        (forall j, (attempt <= j < k)%nat ->
           is_Some (Reverse.rooms db !! ids j) \/
           is_Some (roomByCode db (codes j))) /\
        Reverse.rooms db !! rid = None /\ roomByCode db code = None /\
        db' = Reverse.mkDb
                (<[rid := newReverseRoom code creator now]> (Reverse.rooms db))
                (Reverse.players db ++ [Reverse.mkPlayer rid creator name 1 0 true])
                (Reverse.answers db)
  | Throw e =>
      e = giveUp /\
      forall j, (attempt <= j < attempt + remaining)%nat ->
        is_Some (Reverse.rooms db !! ids j) \/ is_Some (roomByCode db (codes j))
  end.
Proof.
  intros Hs Hu. revert attempt.
  induction remaining as [|n IH]; intros attempt; simpl.
  - split; [done|]. intros j Hj. lia.
  - unfold insertReverseRoom.
    destruct (decide (is_Some (Reverse.rooms db !! ids attempt) \/
                      is_Some (roomByCode db (codes attempt)))) as [Hc|Hc].
    + rewrite (bool_decide_eq_true_2 _ Hc). simpl.
      specialize (IH (S attempt)).
      destruct (createReverseLoop _ _ _ _ _ _ _ n (S attempt))
        as [[[code rid] db']|e].
      * destruct IH as (k & Hk & -> & -> & Hbefore & Hrest).
        exists k. split; [lia|]. split; [done|]. split; [done|].
        split; [|exact Hrest].
        intros j Hj. destruct (decide (j = attempt)) as [->|Hne]; [done|].
        apply Hbefore. lia.
      * destruct IH as [-> Hall]. split; [done|]. intros j Hj.
        destruct (decide (j = attempt)) as [->|Hne]; [done|].
        apply Hall. lia.
    + rewrite (bool_decide_eq_false_2 _ Hc).
      rewrite bool_decide_eq_true_2 by eauto. simpl.
      assert (Reverse.rooms db !! ids attempt = None) as Hfresh.
      { destruct (Reverse.rooms db !! ids attempt) eqn:E; [|done].
        destruct Hc. left. eauto. }
      assert (roomByCode db (codes attempt) = None) as Hcode.
      { destruct (roomByCode db (codes attempt)) eqn:E; [|done].
        destruct Hc. right. eauto. }
      assert (forall q, q ∈ Reverse.players db ->
                Reverse.p_room_id q <> ids attempt) as Hnone.
      { intros q Hq E. destruct Hs as [Hfk _].
        destruct (Hfk q Hq) as [r Hr]. congruence. }
      unfold insertSeat. simpl.
      rewrite bool_decide_eq_false_2.
      2:{ intros (q & Hq & E & _)%Exists_exists. by apply (Hnone q). }
      rewrite bool_decide_eq_true_2.
      2:{ rewrite lookup_insert_eq. eauto. }
      exists attempt. split; [lia|]. repeat split; try done.
      intros j Hj. lia.
Qed.

(** X25: on a store whose seats are in order, [create_reverse_room] fails
    only for a creator who is no user, or when all ten draws are taken;
    otherwise it takes the first draw that no room has as code or id, adds
    a waiting room of ten questions under it and seats the creator there
    with join order 1, leaving every other room and seat alone and the seats
    in order. *)
Theorem create_reverse_room_seats (users : gmap string string) (db : Reverse.Db)
    (creator : string) (codes ids : nat -> string) (now : Date) :
  seated db ->
  match create_reverse_room users db creator codes ids now with
  | Ok (code, rid, db') =>
      seated db' /\
      (exists k, (k < 10)%nat /\ code = codes k /\ rid = ids k /\
         forall j, (j < k)%nat ->
           is_Some (Reverse.rooms db !! ids j) \/
           is_Some (roomByCode db (codes j))) /\
      Reverse.rooms db !! rid = None /\ roomByCode db code = None /\
      Reverse.rooms db'
        = <[rid := Reverse.mkRoom code creator Reverse.waiting 10 0 None [] None
                     15000 now]> (Reverse.rooms db) /\
      (exists name, users !! creator = Some name /\
         seatsOf db' rid = [Reverse.mkPlayer rid creator name 1 0 true]) /\
      (forall other, other <> rid -> seatsOf db' other = seatsOf db other) /\
      Reverse.answers db' = Reverse.answers db
  | Throw e =>
      (e = Error "User not found" /\ users !! creator = None) \/
      (e = giveUp /\ is_Some (users !! creator) /\
       forall j, (j < 10)%nat ->
         is_Some (Reverse.rooms db !! ids j) \/ is_Some (roomByCode db (codes j)))
  end.
Proof.
  intros Hs. unfold create_reverse_room.
  destruct (users !! creator) as [name|] eqn:Hu; [|by left].
  pose proof (createReverseLoop_spec users db creator name codes ids now 10 0
                Hs Hu) as H.
  destruct (createReverseLoop _ _ _ _ _ _ _ _ _) as [[[code rid] db']|e].
  - destruct H as (k & Hk & -> & -> & Hbefore & Hfresh & Hcode & ->).
    assert (seatsOf db (ids k) = []) as Hempty.
    { unfold seatsOf. apply elem_of_nil_inv. intros q [E Hq]%list_elem_of_filter.
      destruct Hs as [Hfk _]. destruct (Hfk q Hq) as [r Hr]. congruence. }
    assert (seated (Reverse.mkDb
                      (<[ids k := newReverseRoom (codes k) creator now]>
                         (Reverse.rooms db))
                      (Reverse.players db) (Reverse.answers db))) as Hs1.
    { apply (seated_ext db); [|done|done]. simpl. intros r Hr.
      destruct (decide (ids k = r)) as [<-|Hne];
        [rewrite lookup_insert_eq; eauto | by rewrite lookup_insert_ne]. }
    destruct (insertSeat_seated users _
                (Reverse.mkPlayer (ids k) creator name 1 0 true) Hs1)
      as [_ Hs'].
    { simpl. unfold seatsOf in *. simpl. by rewrite Hempty. }
    { simpl. unfold seatsOf in *. simpl. rewrite Hempty. simpl. lia. }
    { simpl. rewrite lookup_insert_eq. eauto. }
    { simpl. eauto. }
    { simpl. intros (q & Hq & E & _)%Exists_exists.
      destruct Hs as [Hfk _]. destruct (Hfk q Hq) as [r Hr]. congruence. }
    split; [exact Hs'|]. split.
    { exists k. split; [lia|]. repeat split. intros j Hj. apply Hbefore. lia. }
    split; [done|]. split; [done|]. split; [done|]. split.
    { exists name. split; [done|].
      pose proof (seatsOf_snoc
                    (Reverse.mkDb
                       (<[ids k := newReverseRoom (codes k) creator now]>
                          (Reverse.rooms db))
                       (Reverse.players db) (Reverse.answers db))
                    (Reverse.mkPlayer (ids k) creator name 1 0 true) (ids k)) as E.
      simpl in E. rewrite decide_True in E by done.
      unfold seatsOf in *. simpl in *. rewrite E, Hempty. done. }
    split; [|done].
    intros other Hne. unfold seatsOf. simpl. rewrite filter_app.
    rewrite filter_cons_False by (simpl; congruence).
    by rewrite filter_nil, app_nil_r.
  - destruct H as [-> Hall]. right. split; [done|]. split; [eauto|].
    intros j Hj. apply Hall. lia.
Qed.

Lemma create_reverse_room_seats_witness :
  match create_reverse_room {["alice" := "Alice"]} (Reverse.mkDb ∅ [] [])
          "alice" (fun _ => "ABCD") (fun _ => "r1") Fixtures.t0 with
  | Ok (_, _, db') => seated db'
  | Throw _ => False
  end.
Proof.
  pose proof (create_reverse_room_seats {["alice" := "Alice"]}
                (Reverse.mkDb ∅ [] []) "alice" (fun _ => "ABCD") (fun _ => "r1")
                Fixtures.t0 (seated_no_players _ _)) as H.
  destruct (create_reverse_room _ _ _ _ _ _) as [[[code rid] db']|e] eqn:E.
  - apply H.
  - vm_compute in E. discriminate.
Defined.

Lemma seated_setRooms (f : Reverse.RoomRow -> Reverse.RoomRow) (rid : string)
    (db : Reverse.Db) :
  seated db -> seated (Reverse.setRooms f rid db).
Proof.
  apply seated_ext; [|done]. simpl. intros r Hr.
  by apply lookup_alter_is_Some.
Qed.

Lemma seated_bump (db : Reverse.Db) (rid user : string) (points : Z) :
  seated db -> seated (Reverse.increment_reverse_score db rid user points).
Proof.
  apply seated_ext; [done|]. simpl.
  rewrite <- list_fmap_compose. apply list_fmap_ext. intros i p _. simpl.
  unfold Reverse.bumpRow. by case_bool_decide.
Qed.

Lemma seated_answers (db : Reverse.Db) (l : list Reverse.AnswerRow) :
  seated db -> seated (Reverse.mkDb (Reverse.rooms db) (Reverse.players db) l).
Proof. by apply seated_ext. Qed.

(** X26: the game never unseats anybody: with the seats in order before,
    they are in order after [startReverseGame], [advanceToNextQuestion],
    [submitAnswer], [checkAllAnswersAndCalculateBonus] and [finalizeGame],
    and after [deleteReverseRoom], which removes the room's seats with the
    room. *)
Theorem game_keeps_seats (lc : WordSelection.text -> WordSelection.text)
    (rnd : WordSelection.RandomSource) (now : Date)
    (db : Reverse.Db) (roomId : string) (words : list WordSelection.WordRef)
    (questionIndex : Z) (userId selectedWordId : string) (answerTimeMs : Z) :
  seated db ->
  seated (Reverse.startReverseGame now db roomId words) /\
  (forall db', Reverse.advanceToNextQuestion lc rnd now db roomId words = Ok db' ->
               seated db') /\
  (forall db',
     Reverse.submitAnswer db roomId questionIndex userId selectedWordId
       answerTimeMs = Ok db' -> seated db') /\
  seated (Reverse.checkAllAnswersAndCalculateBonus now db roomId questionIndex).1 /\
  seated (Reverse.finalizeGame now db roomId) /\
  seated (deleteReverseRoom db roomId) /\
  seatsOf (deleteReverseRoom db roomId) roomId = [].
Proof.
  intros Hs. split; [by apply seated_setRooms|]. split.
  { intros db'. unfold Reverse.advanceToNextQuestion.
    destruct (Reverse.getReverseRoom db roomId) as [room|]; [|done].
    destruct (_ <=? _).
    - intros [= <-]. by apply seated_setRooms.
    - destruct (WordSelection.generateQuestion _ _ _) as [q|e]; [|done].
      simpl. intros [= <-]. by apply seated_setRooms. }
  split.
  { intros db'. unfold Reverse.submitAnswer.
    destruct (Reverse.getReverseRoom db roomId ≫= _) as [cq|]; [|done].
    unfold Reverse.insertAnswer. case_bool_decide; [by intros [= <-]|].
    destruct (bool_decide (selectedWordId = _)); intros [= <-].
    - by apply seated_bump, seated_answers.
    - by apply seated_answers. }
  split.
  { unfold Reverse.checkAllAnswersAndCalculateBonus.
    destruct (Reverse.getReverseRoom db roomId) as [room|]; [|done].
    destruct (_ <? _)%nat; [done|]. simpl. apply seated_setRooms.
    destruct (filter _ _) as [|a [|b l]]; try done.
    by apply seated_bump, seated_answers. }
  split; [by apply seated_setRooms|].
  destruct Hs as [Hfk Hseats]. split; [split|].
  - simpl. intros p [Hne Hp]%list_elem_of_filter.
    rewrite lookup_delete_ne by done. by apply Hfk.
  - intros rid. unfold seatsOf, deleteReverseRoom. simpl.
    rewrite list_filter_filter.
    destruct (decide (rid = roomId)) as [->|Hne].
    + assert (filter (fun p => Reverse.p_room_id p = roomId /\
                               Reverse.p_room_id p <> roomId)
                (Reverse.players db) = []) as ->.
      { apply elem_of_nil_inv. intros p [[E Hne] _]%list_elem_of_filter. done. }
      split; [done|]. split; [simpl; lia | apply NoDup_nil_2].
    + rewrite (list_filter_iff _ (fun p => Reverse.p_room_id p = rid)).
      * apply Hseats.
      * intros p. split; [by intros [? ?]|]. intros E. split; congruence.
  - unfold seatsOf, deleteReverseRoom. simpl. rewrite list_filter_filter.
    apply elem_of_nil_inv. intros p [[E Hne] _]%list_elem_of_filter. done.
Qed.

Lemma game_keeps_seats_witness :
  seated Fixtures.answeredOnce /\ seated Fixtures.answeredAll /\
  seated (Reverse.checkAllAnswersAndCalculateBonus Fixtures.t0
            Fixtures.answeredAll "room" 1).1 /\
  Reverse.p_user_id <$> seatsOf Fixtures.answeredAll "room" = ["alice"; "bob"].
Proof.
  destruct (game_keeps_seats Fixtures.lowerLatin Fixtures.fixedRandom
              Fixtures.t0 Fixtures.asking "room" [] 1 "alice" "w01" 3000
              seated_asking) as (_ & _ & Hsubmit & _).
  pose proof (Hsubmit Fixtures.answeredOnce eq_refl) as Honce.
  destruct (game_keeps_seats Fixtures.lowerLatin Fixtures.fixedRandom
              Fixtures.t0 Fixtures.answeredOnce "room" [] 1 "bob" "w02" 4000
              Honce) as (_ & _ & Hsubmit' & _).
  pose proof (Hsubmit' Fixtures.answeredAll eq_refl) as Hall.
  destruct (game_keeps_seats Fixtures.lowerLatin Fixtures.fixedRandom
              Fixtures.t0 Fixtures.answeredAll "room" [] 1 "bob" "w02" 4000
              Hall) as (_ & _ & _ & Hcheck & _).
  split; [exact Honce|]. split; [exact Hall|]. split; [exact Hcheck|].
  reflexivity.
Defined.
End LobbyProps.

(** ** A turn of a versus match *)

Module VersusTurnProps.
Import Versus VersusTurn.

(** [finishGame] stores a status, a winner, a turn and a clock, nothing
    else. *)
Lemma thenFinishGame_frame (clock : Clock) (room stored : VersusRoom)
    (fin : bool) :
  let r := thenFinishGame clock room stored fin in
  (roomId r, roomCode r, playerAId r, playerBId r, playerAWords r,
   playerBWords r)
  = (roomId stored, roomCode stored, playerAId stored, playerBId stored,
     playerAWords stored, playerBWords stored) /\
  (playerAIndex r, playerBIndex r, playerAWrongCount r, playerBWrongCount r,
   playerARightCount r, playerBRightCount r, playerATime r, playerBTime r)
  = (playerAIndex stored, playerBIndex stored, playerAWrongCount stored,
     playerBWrongCount stored, playerARightCount stored,
     playerBRightCount stored, playerATime stored, playerBTime stored).
Proof.
  simpl. unfold thenFinishGame. by destruct (finishGame _ _ _).
Qed.

(** Which of its two updates [finishGame] sends. *)
Lemma thenFinishGame_kind (clock : Clock) (room stored : VersusRoom)
    (fin : bool) :
  let r := thenFinishGame clock room stored fin in
  (~ otherExhausted room fin /\ finisherWrongCount room fin = 0 ->
   status r = status stored /\ winnerId r = winnerId stored /\
   currentTurn r = opponentId room fin /\
   turnStartTime r = Some (atRestart clock)) /\
  (otherExhausted room fin \/ finisherWrongCount room fin <> 0 ->
   status r = finished /\ currentTurn r = None /\
   turnStartTime r = turnStartTime stored).
Proof.
  simpl. unfold thenFinishGame, finishGame, otherExhausted, finisherWrongCount,
    opponentId.
  destruct fin.
  - destruct (Z.leb_spec (Z.of_nat (length (playerBWords room)))
                (playerBIndex room));
      [|destruct (Z.eqb_spec (playerAWrongCount room) 0)]; simpl;
      (split; [intros [? ?]|intros [?|?]]); try done; lia.
  - destruct (Z.leb_spec (Z.of_nat (length (playerAWords room)))
                (playerAIndex room));
      [|destruct (Z.eqb_spec (playerBWrongCount room) 0)]; simpl;
      (split; [intros [? ?]|intros [?|?]]); try done; lia.
Qed.

(** The winner [finishGame] names depends on the room it reads only. *)
Lemma thenFinishGame_winner (clock : Clock) (room stored : VersusRoom)
    (fin : bool) :
  winnerId stored = winnerId room ->
  winnerId (thenFinishGame clock room stored fin)
  = winnerId (afterFinishGame (atRestart clock) room fin).
Proof.
  intros E. unfold thenFinishGame, afterFinishGame.
  destruct (finishGame (atRestart clock) (Some room) fin) as [u|]; [|done].
  simpl. by rewrite E.
Qed.

Lemma afterFinishGame_both_done (now : Date) (room : VersusRoom) (fin : bool) :
  otherExhausted room fin ->
  winnerId (afterFinishGame now room fin)
  = if playerBRightCount room <? playerARightCount room
    then Some (playerAId room)
    else if playerARightCount room <? playerBRightCount room
         then playerBId room
         else if playerATime room <? playerBTime room
              then Some (playerAId room) else playerBId room.
Proof.
  unfold otherExhausted, afterFinishGame, finishGame. intros Hother.
  destruct fin.
  - destruct (Z.leb_spec (Z.of_nat (length (playerBWords room)))
                (playerBIndex room)); [done|lia].
  - destruct (Z.leb_spec (Z.of_nat (length (playerAWords room)))
                (playerAIndex room)); [done|lia].
Qed.

Ltac in_turn Hturn :=
  unfold handleAnswer;
  rewrite (bool_decide_eq_false_2 _ (fun H => H Hturn)).

Ltac by_side :=
  repeat match goal with
         | |- context [bool_decide (?u = playerAId ?r)] =>
             destruct (bool_decide (u = playerAId r))
         | |- context [?a <=? ?b] => destruct (Z.leb_spec a b)
         end.

(** Whether the time is written follows from the words left. *)
Ltac timed :=
  unfold storable, nextIndex, nextCount, nextTime, elapsed, wordsLeft;
  cbn [andb orb];
  try match goal with
      | |- context [1 <? ?d] =>
          first [ rewrite (proj2 (Z.ltb_lt 1 d)) by lia
                | rewrite (proj2 (Z.ltb_ge 1 d)) by lia ]
      end;
  cbn [andb orb].

Ltac stored_or_refused :=
  unfold patchVersusRoom, patchFits;
  cbn [fitsColumn p_playerAIndex p_playerBIndex p_playerAWrongCount
       p_playerBWrongCount p_playerARightCount p_playerBRightCount
       p_playerATime p_playerBTime andb];
  repeat match goal with
         | |- context [fitsInteger ?z] => destruct (fitsInteger z)
         end;
  cbn [andb orb from_option Datatypes.id p_status p_currentTurn
       p_playerAIndex p_playerBIndex p_playerAWrongCount p_playerBWrongCount
       p_playerARightCount p_playerBRightCount p_playerATime p_playerBTime
       p_turnStartTime p_winnerId].

Ltac past_finish :=
  repeat match goal with
         | |- context [thenFinishGame ?n ?r ?s ?f] =>
             let H1 := fresh "Hids" in
             let H2 := fresh "Hcnt" in
             let x := fresh "done" in
             let Hx := fresh "Hx" in
             destruct (thenFinishGame_frame n r s f) as [H1 H2];
             cbv zeta in H1, H2;
             remember (thenFinishGame n r s f) as x eqn:Hx; clear Hx;
             simpl in H1, H2;
             injection H2; clear H2; intros
         end.

(** X27: [handleAnswer] stores nothing and throws nothing when there is
    no room or it is not the caller's turn.  In turn and in step with the
    store, either a number it writes does not fit its [INTEGER] column:
    then the call throws the store's error and the row stays as it was; or
    it uses up exactly one word of the caller's side and books it on the
    listener as right or wrong.  The ids, the players and the word lists
    stay, and so every read word remains tallied.  [startVersusGame] starts
    from a tallied room. *)
Theorem handleAnswer_tally (clock : Clock) (user : string) (room : VersusRoom)
    (correct : bool) :
  tallied room ->
  let isA := bool_decide (user = playerAId room) in
  let out := handleAnswer clock user (Some room) room correct in
  let room' := out.1 in
  tallied room' /\
  (forall stored, handleAnswer clock user None stored correct = (stored, None)) /\
  (currentTurn room <> Some user ->
   forall stored,
     handleAnswer clock user (Some room) stored correct = (stored, None)) /\
  (currentTurn room = Some user ->
   if storable clock room isA correct
   then out.2 = None /\
        wordsLeft room' isA = wordsLeft room isA - 1 /\
        wordsLeft room' (negb isA) = wordsLeft room (negb isA) /\
        playerARightCount room' + playerBRightCount room'
          = playerARightCount room + playerBRightCount room
            + (if correct then 1 else 0) /\
        playerAWrongCount room' + playerBWrongCount room'
          = playerAWrongCount room + playerBWrongCount room
            + (if correct then 0 else 1)
   else out = (room, Some outOfRange)) /\
  (roomId room', roomCode room', playerAId room', playerBId room',
   playerAWords room', playerBWords room')
  = (roomId room, roomCode room, playerAId room, playerBId room,
     playerAWords room, playerBWords room) /\
  (forall started now r wordsA wordsB,
     tallied (startVersusGame started now r wordsA wordsB)).
Proof.
  intros [Ha Hb]. cbv zeta.
  assert (currentTurn room <> Some user ->
          forall stored,
            handleAnswer clock user (Some room) stored correct = (stored, None))
    as Hout.
  { intros Hturn stored. unfold handleAnswer. by rewrite bool_decide_eq_true_2. }
  split; [|split; [done|]; split; [done|]; split; [|split]].
  - destruct (decide (currentTurn room = Some user)) as [Hturn|Hturn];
      [|by rewrite Hout].
    in_turn Hturn. unfold tallied.
    destruct correct; by_side; stored_or_refused; past_finish; simpl; lia.
  - intros Hturn. in_turn Hturn.
    destruct correct; by_side; timed; stored_or_refused; try done;
      unfold wordsLeft; past_finish; simpl;
      try (injection Hids; intros HwB HwA _ _ _ _; rewrite HwA, HwB);
      (split; [done|lia]).
  - destruct (decide (currentTurn room = Some user)) as [Hturn|Hturn];
      [|by rewrite Hout].
    in_turn Hturn. destruct correct; by_side; stored_or_refused; past_finish;
      done.
  - intros started now r wordsA wordsB. by split.
Qed.

Lemma handleAnswer_tally_witness :
  let out :=
    handleAnswer (VersusFixtures.callAt 20000) "ben"
      (Some VersusFixtures.lastTurn) VersusFixtures.lastTurn true in
  out.2 = None /\ tallied out.1 /\ wordsLeft out.1 false = 0 /\
  playerARightCount out.1 + playerBRightCount out.1 = 3.
Proof.
  destruct (handleAnswer_tally (VersusFixtures.callAt 20000) "ben"
              VersusFixtures.lastTurn true) as (Ht & _ & _ & Hin & _);
    [split; reflexivity|].
  specialize (Hin eq_refl). cbv zeta in Hin.
  assert (storable (VersusFixtures.callAt 20000) VersusFixtures.lastTurn
            (bool_decide ("ben" = playerAId VersusFixtures.lastTurn)) true
          = true) as Hs by reflexivity.
  rewrite Hs in Hin. destruct Hin as (Hok & Hleft & _ & Hright & _).
  cbv zeta. split; [exact Hok|]. split; [exact Ht|].
  split; [exact Hleft | exact Hright].
Defined.

(** A call made 31 days after the turn began: the time, 2678400000 ms,
    does not fit the column; the call throws and the row stays. *)
Example handleAnswer_refused_after_a_month :
  handleAnswer
    (mkClock (mkDate 38 5002) (mkDate 38 5004) (mkDate 38 5003)
       (mkDate 38 5005))
    "ben" (Some VersusFixtures.lastTurn) VersusFixtures.lastTurn true
  = (VersusFixtures.lastTurn, Some outOfRange).
Proof. reflexivity. Qed.

(** X28: the turn rule, for a call in turn whose update the store takes
    (otherwise the call throws and the row stays).  Before the caller's
    last word, a right answer leaves the turn, the clock and the times
    alone, and a wrong answer hands the turn to the opponent (whether or
    not the opponent has a word left), restarts the clock and adds the
    elapsed time to the caller's side; status and winner do not change.  On
    the caller's last word the elapsed time is added too, and the match is
    finished with no turn pending, unless the opponent has words left and
    the caller's side has no wrong answer booked: then the opponent gets
    the turn and the clock restarts. *)
Theorem handleAnswer_turn (clock : Clock) (user : string) (room : VersusRoom)
    (correct : bool) :
  currentTurn room = Some user ->
  let isA := bool_decide (user = playerAId room) in
  let out := handleAnswer clock user (Some room) room correct in
  let room' := out.1 in
  if storable clock room isA correct
  then
    out.2 = None /\
    (1 < wordsLeft room isA ->
     status room' = status room /\ winnerId room' = winnerId room /\
     if correct
     then currentTurn room' = Some user /\
          turnStartTime room' = turnStartTime room /\
          playerATime room' = playerATime room /\
          playerBTime room' = playerBTime room
     else currentTurn room' = opponentId room isA /\
          turnStartTime room' = Some (atRestart clock) /\
          playerATime room'
            = playerATime room + (if isA then elapsed clock room else 0) /\
          playerBTime room'
            = playerBTime room + (if isA then 0 else elapsed clock room)) /\
    (wordsLeft room isA <= 1 ->
     playerATime room'
       = playerATime room + (if isA then elapsed clock room else 0) /\
     playerBTime room'
       = playerBTime room + (if isA then 0 else elapsed clock room) /\
     (~ otherExhausted room isA /\ finisherWrongCount room isA = 0 ->
      status room' = status room /\ winnerId room' = winnerId room /\
      currentTurn room' = opponentId room isA /\
      turnStartTime room' = Some (atRestart clock)) /\
     (otherExhausted room isA \/ finisherWrongCount room isA <> 0 ->
      status room' = finished /\ currentTurn room' = None /\
      turnStartTime room' = turnStartTime room))
  else out = (room, Some outOfRange).
Proof.
  intros Hturn. cbv zeta. in_turn Hturn.
  destruct correct; by_side; timed; stored_or_refused; try done;
    (split; [done|]); unfold wordsLeft;
    (split; intros Hleft; [try (exfalso; lia) | try (exfalso; lia)]).
  all: try (simpl; rewrite ?Hturn; repeat split; try done; lia).
  all: match goal with
       | |- context [thenFinishGame ?n ?r ?s ?f] =>
           destruct (thenFinishGame_kind n r s f) as [Hgo Hend];
           destruct (thenFinishGame_frame n r s f) as [_ Hcnt];
           cbv zeta in Hgo, Hend, Hcnt; simpl in Hgo, Hend, Hcnt;
           injection Hcnt; clear Hcnt; intros
       end;
       unfold elapsed; cbn [fst];
       (split; [lia|]); (split; [lia|]); split; assumption.
Qed.

Lemma handleAnswer_turn_witness :
  let out :=
    handleAnswer (VersusFixtures.callAt 20000) "ben"
      (Some VersusFixtures.lastTurn) VersusFixtures.lastTurn true in
  out.2 = None /\ status out.1 = finished /\ currentTurn out.1 = None /\
  playerATime out.1 = 4900 /\ playerBTime out.1 = 14998.
Proof.
  pose proof (handleAnswer_turn (VersusFixtures.callAt 20000) "ben"
                VersusFixtures.lastTurn true eq_refl) as H.
  cbv zeta in H.
  assert (storable (VersusFixtures.callAt 20000) VersusFixtures.lastTurn
            (bool_decide ("ben" = playerAId VersusFixtures.lastTurn)) true
          = true) as Hs by reflexivity.
  rewrite Hs in H. destruct H as (Hok & _ & Hlast).
  destruct (Hlast ltac:(vm_compute; discriminate)) as (HA & HB & _ & Hend).
  destruct (Hend ltac:(left; vm_compute; discriminate)) as (Hst & Hturn & _).
  cbv zeta. split; [exact Hok|]. split; [exact Hst|]. split; [exact Hturn|].
  split; [exact HA | exact HB].
Defined.

(** X29: the answer to the last word of a match does not count towards
    the decision.  When the caller reads the last word, the opponent has
    none left and the store takes the update, the stored winner is the one
    [finishGame] names on the counts and times from before the answer,
    although the answer is booked.  So a right answer that draws the
    listener level with the caller still leaves the caller the winner,
    whatever the times, and one that puts the listener ahead leaves the
    decision to the times from before. *)
Theorem handleAnswer_last_answer_not_counted (clock : Clock) (user : string)
    (room : VersusRoom) (correct : bool) :
  currentTurn room = Some user ->
  let isA := bool_decide (user = playerAId room) in
  let out := handleAnswer clock user (Some room) room correct in
  let room' := out.1 in
  wordsLeft room isA <= 1 ->
  otherExhausted room isA ->
  if storable clock room isA correct
  then
    out.2 = None /\
    status room' = finished /\
    winnerId room' = winnerId (afterFinishGame (atRestart clock) room isA) /\
    (correct = true ->
     playerARightCount room'
       = playerARightCount room + (if isA then 0 else 1) /\
     playerBRightCount room'
       = playerBRightCount room + (if isA then 1 else 0) /\
     (playerARightCount room' = playerBRightCount room' ->
      winnerId room' = if isA then Some (playerAId room) else playerBId room) /\
     (playerARightCount room = playerBRightCount room ->
      winnerId room' = if playerATime room <? playerBTime room
                       then Some (playerAId room) else playerBId room))
  else out = (room, Some outOfRange).
Proof.
  intros Hturn. cbv zeta. in_turn Hturn. unfold wordsLeft at 1.
  intros Hleft Hother. revert Hleft Hother.
  destruct correct; by_side; intros Hleft Hother; try (exfalso; lia);
    timed; stored_or_refused; try done; (split; [done|]); cbn [fst];
    match goal with
    | |- context [thenFinishGame ?n ?r ?s ?f] =>
        destruct (thenFinishGame_kind n r s f) as [_ Hend];
        destruct (thenFinishGame_frame n r s f) as [_ Hcnt];
        pose proof (thenFinishGame_winner n r s f eq_refl) as Hwin;
        pose proof (afterFinishGame_both_done (atRestart n) r f Hother) as Hboth;
        cbv zeta in Hend, Hcnt; simpl in Hend, Hcnt;
        injection Hcnt; clear Hcnt; intros
    end;
    (split; [by apply Hend; left|]); (split; [exact Hwin|]);
    intros Hc; try discriminate Hc;
    (split; [lia|]); (split; [lia|]); rewrite Hwin, Hboth; split; intros Heq.
  - rewrite (proj2 (Z.ltb_lt _ _)) by lia. done.
  - rewrite !(proj2 (Z.ltb_ge _ _)) by lia. done.
  - rewrite (proj2 (Z.ltb_ge _ _)) by lia.
    rewrite (proj2 (Z.ltb_lt _ _)) by lia. done.
  - rewrite !(proj2 (Z.ltb_ge _ _)) by lia. done.
Qed.

Lemma handleAnswer_last_answer_not_counted_witness :
  let out :=
    handleAnswer (VersusFixtures.callAt 20000) "ben"
      (Some VersusFixtures.lastTurn) VersusFixtures.lastTurn true in
  out.2 = None /\
  playerARightCount out.1 = 2 /\ playerBRightCount out.1 = 1 /\
  playerATime out.1 = 4900 /\ playerBTime out.1 = 14998 /\
  winnerId out.1 = Some "ben".
Proof.
  pose proof (handleAnswer_last_answer_not_counted
                (VersusFixtures.callAt 20000) "ben" VersusFixtures.lastTurn true
                eq_refl ltac:(vm_compute; discriminate)
                ltac:(vm_compute; discriminate)) as H.
  cbv zeta in H.
  assert (storable (VersusFixtures.callAt 20000) VersusFixtures.lastTurn
            (bool_decide ("ben" = playerAId VersusFixtures.lastTurn)) true
          = true) as Hs by reflexivity.
  rewrite Hs in H. destruct H as (Hok & _ & _ & H).
  destruct (H eq_refl) as (HA & HB & _ & Htie).
  cbv zeta. split; [exact Hok|]. split; [exact HA|]. split; [exact HB|].
  split; [reflexivity|]. split; [reflexivity|].
  apply Htie. reflexivity.
Defined.
End VersusTurnProps.

(** ** The practice session *)

Module PracticeProps.
Import Practice.

Lemma applyAnswer_id (now today : Date) (w : WordItem.t) (right : bool)
    (cfg : AppConfig.t) (clean : bool) :
  WordItem.id (Srs.applyAnswer now today w right cfg clean) = WordItem.id w.
Proof.
  unfold Srs.applyAnswer. destruct right; simpl.
  - by destruct (_ && _).
  - by destruct (AppConfig.wrongResetsStreak cfg),
         (AppConfig.wrongMakesImmediatelyDue cfg).
Qed.

(** An answer that is no clean run leaves the level, and a right one the
    streak too. *)
Lemma applyAnswer_unclean (now today : Date) (w : WordItem.t) (right : bool)
    (cfg : AppConfig.t) :
  let w' := Srs.applyAnswer now today w right cfg false in
  WordItem.levelId w' = WordItem.levelId w /\
  (right = true -> WordItem.streakCorrect w' = WordItem.streakCorrect w).
Proof.
  unfold Srs.applyAnswer. destruct right; simpl.
  - done.
  - split; [|done].
    by destruct (AppConfig.wrongResetsStreak cfg),
         (AppConfig.wrongMakesImmediatelyDue cfg).
Qed.

Lemma truthy_Some (x : option string) (i : string) :
  truthy x = Some i -> x = Some i /\ i <> EmptyString.
Proof.
  unfold truthy. destruct x as [j|]; [|done].
  case_bool_decide; [done|]. by intros [= ->].
Qed.

Lemma currentWord_Some (s : Session) (cw : WordItem.t) :
  currentWord s = Some cw ->
  truthy (currentId s) = Some (WordItem.id cw) /\ cw ∈ words s.
Proof.
  unfold currentWord. destruct (truthy (currentId s)) as [i|]; [|done].
  intros H. destruct (find_some _ _ H) as [Hin E%bool_decide_eq_true].
  split; [by rewrite E | by apply list_elem_of_In].
Qed.

Lemma draw_elem (index : nat -> nat) (l : list string) (i : string) :
  draw index l = Some i -> i ∈ l.
Proof. unfold draw. apply list_elem_of_lookup_2. Qed.

Lemma draw_is_Some (index : nat -> nat) (l : list string) :
  (forall n, (0 < n)%nat -> (index n < n)%nat) -> l <> [] ->
  is_Some (draw index l).
Proof.
  intros Hindex Hl. unfold draw. apply lookup_lt_is_Some, Hindex.
  destruct l; [done | simpl; lia].
Qed.

Lemma find_replaced (ws : list WordItem.t) (cw updated : WordItem.t) :
  WordItem.id updated = WordItem.id cw ->
  List.find (fun w => bool_decide (WordItem.id w = WordItem.id cw)) ws = Some cw ->
  List.find (fun w => bool_decide (WordItem.id w = WordItem.id cw))
    ((fun w => if bool_decide (WordItem.id w = WordItem.id cw)
               then updated else w) <$> ws)
  = Some updated.
Proof.
  intros Hid. induction ws as [|w ws IH]; [done|].
  rewrite fmap_cons. cbn [find].
  destruct (decide (WordItem.id w = WordItem.id cw)) as [E|E].
  - rewrite !(bool_decide_eq_true_2 _ E).
    by rewrite (bool_decide_eq_true_2 _ Hid).
  - rewrite !(bool_decide_eq_false_2 _ E). cbn iota.
    rewrite ?(bool_decide_eq_false_2 _ E). exact IH.
Qed.

Lemma at_index_elem {A : Type} (l : list A) (i : Z) (x : A) :
  at_index l i = Some x -> x ∈ l.
Proof.
  unfold at_index. destruct (i <? 0); [done|]. apply list_elem_of_lookup_2.
Qed.

Lemma filter_ne_length (l : list string) (x : string) :
  NoDup l -> (length l <= S (length (filter (fun i => i <> x) l)))%nat.
Proof.
  induction 1 as [|a l Ha Hnd IH]; simpl; [lia|].
  rewrite filter_cons. destruct (decide (a <> x)) as [Hne|Heq]; simpl; [lia|].
  assert (a = x) as -> by (by destruct (decide (a = x))).
  assert (filter (fun i => i <> x) l = l) as ->; [|lia].
  clear IH Hnd. induction l as [|b l IH]; [done|].
  rewrite filter_cons_True.
  - f_equal. apply IH. intros Hx. apply Ha. by right.
  - intros ->. apply Ha. by left.
Qed.

Lemma answer_inOrder (index : nat -> nat) (now today : Date) (config : AppConfig.t)
    (user : option string) (s : Session) (right : bool) :
  inOrder s -> inOrder (answer index now today config user s right).
Proof.
  intros (Hnd & Hpool & Hseen & Hidx & Hcur).
  unfold answer.
  destruct (currentWord s) as [cw|] eqn:Hcw; [|done].
  destruct (truthy user) as [u|]; [|done].
  destruct (currentWord_Some s cw Hcw) as [Hid Hin].
  specialize (Hcur _ Hid).
  rewrite !applyAnswer_id.
  destruct (isReviewingWrong s) eqn:Hrev.
  - destruct right.
    + case_bool_decide as Hempty.
      * unfold stopPractice, inOrder; simpl.
        split; [apply NoDup_nil_2|]. split; [by intros i ?%elem_of_nil|].
        split; [lia|]. split; [lia|]. done.
      * unfold inOrder; simpl.
        split; [by apply NoDup_filter|].
        split; [intros i [_ Hi]%list_elem_of_filter; by apply Hpool|].
        split; [lia|]. split; [done|].
        intros i [Hd%draw_elem _]%truthy_Some.
        case_bool_decide; [apply list_elem_of_filter in Hd as [_ Hd]|]; done.
    + unfold inOrder; simpl.
      split; [done|].
      split; [intros i Hi; destruct (Hpool i Hi); split; [done|];
              by apply elem_of_union_l|].
      split; [lia|]. split; [done|].
      intros i [Hd%draw_elem _]%truthy_Some.
      case_bool_decide; [apply list_elem_of_filter in Hd as [_ Hd]|]; done.
  - assert (WordItem.id cw ∈ lessonPlan s) as Hplan by (by eapply at_index_elem).
    remember (if negb right && bool_decide (WordItem.id cw ∉ lessonWrongWords s)
              then lessonWrongWords s ++ [WordItem.id cw]
              else lessonWrongWords s) as nw eqn:Hnw.
    assert (NoDup nw /\
            forall i, i ∈ nw ->
              i ∈ lessonPlan s /\
              i ∈ (if right then sessionFailedWords s
                   else sessionFailedWords s ∪ {[WordItem.id cw]}))
      as [Hnd' Hpool'].
    { subst nw. destruct right; simpl; [done|].
      case_bool_decide as Hnew.
      - split.
        + apply NoDup_app. split; [done|]. split; [|apply NoDup_singleton].
          by intros i Hi ->%list_elem_of_singleton.
        + intros i [Hi| ->%list_elem_of_singleton]%elem_of_app.
          * destruct (Hpool i Hi). split; [done|]. by apply elem_of_union_l.
          * split; [done|]. by apply elem_of_union_r, elem_of_singleton.
      - split; [done|]. intros i Hi. destruct (Hpool i Hi).
        split; [done|]. by apply elem_of_union_l. }
    clear Hnw.
    destruct (Z.leb_spec (Z.of_nat (length (lessonPlan s))) (lessonIndex s + 1)).
    + case_bool_decide.
      * unfold inOrder; simpl. split; [done|]. split; [done|].
        split; [destruct right; lia|]. split; [lia|].
        by intros i [Hd%draw_elem _]%truthy_Some.
      * unfold stopPractice, inOrder; simpl.
        split; [apply NoDup_nil_2|]. split; [by intros i ?%elem_of_nil|].
        split; [destruct right; lia|]. split; [lia|]. done.
    + unfold inOrder; simpl. split; [done|]. split; [done|].
      split; [destruct right; lia|]. split; [lia|].
      by intros i [Hd _]%truthy_Some.
Qed.

Lemma answer_review (index : nat -> nat) (now today : Date)
    (config : AppConfig.t) (user : option string) (s : Session) (right : bool)
    (cw : WordItem.t) :
  inOrder s -> currentWord s = Some cw -> is_Some (truthy user) ->
  isReviewingWrong s = true ->
  let s' := answer index now today config user s right in
  List.find (fun w => bool_decide (WordItem.id w = WordItem.id cw)) (words s')
  = Some (Srs.applyAnswer now today cw right config false) /\
  (currentId s' = Some (WordItem.id cw) ->
   right = false /\ lessonWrongWords s = [WordItem.id cw]).
Proof.
  intros (Hnd & Hpool & Hseen & Hidx & Hcur) Hcw [u Hu] Hrev. cbv zeta.
  destruct (currentWord_Some s cw Hcw) as [Hid Hin].
  specialize (Hcur _ Hid). rewrite Hrev in Hcur.
  destruct (Hpool _ Hcur) as [_ Hfailed].
  assert (List.find (fun w => bool_decide (WordItem.id w = WordItem.id cw))
            (words s) = Some cw) as Hfind.
  { revert Hcw. unfold currentWord. by rewrite Hid. }
  unfold answer. rewrite Hcw, Hu, Hrev.
  rewrite (bool_decide_eq_true_2 _ Hfailed). simpl negb.
  rewrite !applyAnswer_id.
  pose proof (find_replaced (words s) cw
                (Srs.applyAnswer now today cw right config false)
                (applyAnswer_id _ _ _ _ _ _) Hfind) as Hnew.
  destruct right.
  - case_bool_decide as Hempty; simpl; (split; [exact Hnew|]); [done|].
    intros Hd%draw_elem. exfalso.
    case_bool_decide; [apply list_elem_of_filter in Hd as [_ Hd]|];
      apply list_elem_of_filter in Hd as [Hne _]; done.
  - simpl. split; [exact Hnew|]. intros Hd%draw_elem. split; [done|].
    case_bool_decide as Hlen.
    + apply list_elem_of_filter in Hd as [Hne _]. done.
    + destruct (lessonWrongWords s) as [|a [|b l]]; simpl in *; [|by apply list_elem_of_singleton in Hcur as ->|lia].
      by apply elem_of_nil in Hcur.
Qed.

Lemma answer_next_card (index : nat -> nat) (now today : Date)
    (config : AppConfig.t) (user : option string) (s : Session) (right : bool) :
  (forall n, (0 < n)%nat -> (index n < n)%nat) ->
  inOrder s -> is_Some (currentWord s) -> is_Some (truthy user) ->
  let s' := answer index now today config user s right in
  practiceMode s' = true -> is_Some (currentId s').
Proof.
  intros Hindex (Hnd & Hpool & Hseen & Hidx & Hcur) [cw Hcw] [u Hu]. cbv zeta.
  destruct (currentWord_Some s cw Hcw) as [Hid Hin].
  specialize (Hcur _ Hid).
  unfold answer. rewrite Hcw, Hu. rewrite !applyAnswer_id.
  destruct (isReviewingWrong s) eqn:Hrev.
  - destruct right.
    + case_bool_decide as Hempty; simpl; [done|]. intros _.
      apply draw_is_Some; [done|].
      assert (filter (fun i => i <> WordItem.id cw) (lessonWrongWords s) <> [])
        as Hne by (intros E; apply Hempty; by rewrite E).
      case_bool_decide; [|done].
      rewrite list_filter_filter.
      rewrite (list_filter_iff _ (fun i => i <> WordItem.id cw)); [done|].
      intros i. split; [by intros [? ?]|done].
    + simpl. intros _. apply draw_is_Some; [done|].
      case_bool_decide as Hlen.
      * pose proof (filter_ne_length (lessonWrongWords s) (WordItem.id cw) Hnd).
        intros E. rewrite E in H. simpl in H. lia.
      * intros E. rewrite E in Hcur. by apply elem_of_nil in Hcur.
  - destruct (Z.leb_spec (Z.of_nat (length (lessonPlan s))) (lessonIndex s + 1)).
    + case_bool_decide as Hlen; simpl; [|done]. intros _.
      apply draw_is_Some; [done|]. intros E. rewrite E in Hlen. simpl in Hlen. lia.
    + simpl. intros _. unfold at_index.
      destruct (Z.ltb_spec (lessonIndex s + 1) 0); [lia|].
      apply lookup_lt_is_Some. lia.
Qed.

Lemma startPractice_inOrder (rnd : WordSelection.RandomSource) (now : Date)
    (s : Session) :
  inOrder (startPractice rnd now s).
Proof.
  unfold startPractice, inOrder; simpl.
  split; [apply NoDup_nil_2|]. split; [by intros i ?%elem_of_nil|].
  split; [done|]. split; [done|].
  intros i [[Hi _]%truthy_Some _]%truthy_Some. done.
Qed.

(** X30: an answer keeps the lesson in order, and [startPractice] starts
    one in order.  During the review every card was failed in this
    session, so its answer is no clean run: the word stored for it keeps
    its level, and on a right answer its streak; and the card just answered
    is shown again at once only after a wrong answer to the last card of the
    pool.  With every draw inside its range, a lesson that goes on after an
    answer has a card to show. *)
Theorem answer_keeps_lesson (index : nat -> nat) (now today : Date)
    (config : AppConfig.t) (user : option string) (s : Session) (right : bool) :
  inOrder s ->
  let s' := answer index now today config user s right in
  inOrder s' /\
  (forall cw, currentWord s = Some cw -> is_Some (truthy user) ->
     isReviewingWrong s = true ->
     let cw' := Srs.applyAnswer now today cw right config false in
     List.find (fun w => bool_decide (WordItem.id w = WordItem.id cw)) (words s')
     = Some cw' /\
     WordItem.levelId cw' = WordItem.levelId cw /\
     (right = true -> WordItem.streakCorrect cw' = WordItem.streakCorrect cw) /\
     (currentId s' = Some (WordItem.id cw) ->
      right = false /\ lessonWrongWords s = [WordItem.id cw])) /\
  ((forall n, (0 < n)%nat -> (index n < n)%nat) ->
   is_Some (currentWord s) -> is_Some (truthy user) ->
   practiceMode s' = true -> is_Some (currentId s')) /\
  (forall rnd s0, inOrder (startPractice rnd now s0)).
Proof.
  intros Hs. cbv zeta. split; [by apply answer_inOrder|]. split; [|split].
  - intros cw Hcw Hu Hrev.
    destruct (answer_review index now today config user s right cw Hs Hcw Hu Hrev)
      as [Hfind Hrepeat].
    destruct (applyAnswer_unclean now today cw right config) as [Hlevel Hstreak].
    done.
  - intros Hindex Hcw Hu. by apply answer_next_card.
  - intros rnd s0. apply startPractice_inOrder.
Qed.

Lemma answer_keeps_lesson_witness :
  inOrder
    (answer (fun _ => 0%nat) Fixtures.t0 Fixtures.t0 Srs.defaultConfig (Some "u")
       (mkSession [Srs.sampleWord 1 0 Fixtures.t0] true (Some "w1") ["w1"] 0 []
          false None ∅ 0 0 0)
       true).
Proof.
  apply (answer_keeps_lesson (fun _ => 0%nat) Fixtures.t0 Fixtures.t0
           Srs.defaultConfig (Some "u")
           (mkSession [Srs.sampleWord 1 0 Fixtures.t0] true (Some "w1") ["w1"] 0
              [] false None ∅ 0 0 0)
           true).
  unfold inOrder; simpl.
  split; [apply NoDup_nil_2|]. split; [by intros i ?%elem_of_nil|].
  split; [reflexivity|]. split; [lia|]. intros i Hi. exact Hi.
Defined.
End PracticeProps.
